(** * x-auto-poster: commit-range summarisation and prompt construction

    A shallow embedding of [src/index.js].  JavaScript strings are
    sequences of UTF-16 code units; a code unit is kept as a number, so
    that [length], [slice], [trim] and the regular-expression class
    [\s] act on exactly the positions the engine acts on. *)

From Stdlib Require Import Strings.String Strings.Ascii Numbers.DecimalString.
From Stdlib Require Import List NArith ZArith QArith Bool Lia.
Import ListNotations.
Close Scope Q_scope.

Set Implicit Arguments.

(** ** JavaScript strings *)

Module JsString.

Abbreviation code_unit := N (only parsing).
Abbreviation jsstring := (list N).

(** A source literal (all literals of [index.js] are ASCII). *)
Definition js (s : string) : jsstring :=
  map N_of_ascii (list_ascii_of_string s).
Arguments js s%_string.

(** Line feed and the two quotes, which the literals below splice in. *)
Definition nl : jsstring := [10%N].
Definition dq : jsstring := [34%N].
Definition sq : jsstring := [39%N].

Definition str_eqb (a b : jsstring) : bool :=
  if list_eq_dec N.eq_dec a b then true else false.

(** Truthiness of a string value: only the empty string is falsy. *)
Definition truthy (s : jsstring) : bool :=
  match s with [] => false | _ :: _ => true end.

(** [a || b] on strings. *)
Definition or_else (a b : jsstring) : jsstring :=
  if truthy a then a else b.

(** WhiteSpace and LineTerminator code units: what [String.prototype.trim]
    strips and what [\s] matches. *)
Definition is_space (c : code_unit) : bool :=
  ((9 <=? c) && (c <=? 13) || (c =? 32) || (c =? 160) || (c =? 5760)
   || (8192 <=? c) && (c <=? 8202) || (c =? 8232) || (c =? 8233)
   || (c =? 8239) || (c =? 8287) || (c =? 12288) || (c =? 65279))%N.

Fixpoint trimStart (s : jsstring) : jsstring :=
  match s with
  | c :: s' => if is_space c then trimStart s' else s
  | [] => []
  end.

Definition trimEnd (s : jsstring) : jsstring := rev (trimStart (rev s)).

Definition trim (s : jsstring) : jsstring := trimEnd (trimStart s).

Definition startsWith (p s : jsstring) : bool :=
  str_eqb (firstn (length p) s) p.

(** [Array.prototype.join]. *)
Fixpoint join (sep : jsstring) (l : list jsstring) : jsstring :=
  match l with
  | [] => []
  | [x] => x
  | x :: rest => x ++ sep ++ join sep rest
  end.

(** [s.split(c)] for a one-character separator [c]: the pieces between
    the occurrences of [c], empty pieces included, never the empty list. *)
Fixpoint split_at (c : code_unit) (s : jsstring) : list jsstring :=
  match s with
  | [] => [[]]
  | x :: s' =>
      if (x =? c)%N then [] :: split_at c s'
      else match split_at c s' with
           | tok :: rest => (x :: tok) :: rest
           | [] => [[x]]
           end
  end.

(** [s.split(/[...]+/)] for a character class [sep]: the pieces between
    the maximal runs of separator characters.  A run at the start or at
    the end leaves an empty first or last piece; [in_run] records that
    the previous character was a separator. *)
Fixpoint split_runs (sep : code_unit -> bool) (in_run : bool) (s : jsstring)
  : list jsstring :=
  match s with
  | [] => [[]]
  | x :: s' =>
      if sep x then
        if in_run then split_runs sep true s'
        else [] :: split_runs sep true s'
      else match split_runs sep false s' with
           | tok :: rest => (x :: tok) :: rest
           | [] => [[x]]
           end
  end.

(** [s.replace(/c/g, by)]. *)
Definition replace_all (c : code_unit) (by_ : jsstring) (s : jsstring) : jsstring :=
  flat_map (fun x => if (x =? c)%N then by_ else [x]) s.

(** Number-to-string of an integer (exact for the safe integers, which
    is where the program prints one). *)
Definition decimal (z : Z) : jsstring :=
  js (NilZero.string_of_int (Z.to_int z)).

(** [needle] occurs in [hay] as a contiguous substring. *)
Definition occurs (needle hay : jsstring) : Prop :=
  exists pre post, hay = pre ++ needle ++ post.

End JsString.
Export JsString.

(** ** Content truncator (index.js, lines 58-70) *)

Record TruncationResult := { text : jsstring; truncated : bool }.

(** The marker appended to a cut diff. *)
Definition truncation_marker (limit : Z) : jsstring :=
  nl ++ nl ++ js "[Diff truncated to the first " ++ decimal limit ++ js " characters]".

(** [limit] is [None] for an absent ([undefined]) or [NaN] limit. *)
Definition truncateContent (content : jsstring) (limit : option Z) : TruncationResult :=
  match limit with
  | None => {| text := content; truncated := false |}
  | Some l =>
      if ((l =? 0) || (l <=? 0))%Z then {| text := content; truncated := false |}
      else if (Z.of_nat (length content) <=? l)%Z
           then {| text := content; truncated := false |}
           else {| text := firstn (Z.to_nat l) content ++ truncation_marker l;
                   truncated := true |}
  end.

(** ** Numbers

    A JavaScript number is [NaN], an infinity, or a finite double; a
    finite double is kept as the rational it denotes (the sign of a zero
    is not observable in this program). *)

Inductive jsnumber :=
| NaN
| PosInf
| NegInf
| Fin (q : Q).

(** [a < b] on numbers; any comparison with [NaN] is false. *)
Definition num_lt (a b : jsnumber) : bool :=
  match a, b with
  | NaN, _ | _, NaN => false
  | PosInf, _ => false
  | _, NegInf => false
  | NegInf, _ => true
  | _, PosInf => true
  | Fin x, Fin y => negb (Qle_bool y x)
  end.

Definition num_isNaN (a : jsnumber) : bool :=
  match a with NaN => true | _ => false end.

Definition is_digit (c : code_unit) : bool := ((48 <=? c) && (c <=? 57))%N.

Fixpoint span (p : code_unit -> bool) (s : jsstring) : jsstring * jsstring :=
  match s with
  | c :: s' => if p c then let (a, b) := span p s' in (c :: a, b) else ([], s)
  | [] => ([], [])
  end.

(** The mathematical value of a run of decimal digits. *)
Definition digits_value (ds : jsstring) : Z :=
  fold_left (fun acc c => acc * 10 + (Z.of_N c - 48))%Z ds 0%Z.

(** An optional sign at the head of a numeric literal. *)
Definition read_sign (s : jsstring) : bool * jsstring :=
  match s with
  | 45%N :: s' => (true, s')
  | 43%N :: s' => (false, s')
  | _ => (false, s)
  end.

(** The integer that [Number.parseInt(s, 10)] reads, before it is made a
    number: leading white space is skipped, a sign is read, then the
    longest run of decimal digits; [None] when there is no digit. *)
Definition readInt10 (s : jsstring) : option Z :=
  let (neg, rest) := read_sign (trimStart s) in
  let (ds, _) := span is_digit rest in
  match ds with
  | [] => None
  | _ => Some (if neg then - digits_value ds else digits_value ds)%Z
  end.

(** Round the non-negative rational [n/d] to the nearest double, ties to
    even; [n >= 0] and [d > 0]. *)
Definition round_binary64 (n d : Z) : jsnumber :=
  (if n =? 0 then Fin 0 else
   let e0 := Z.log2 n - Z.log2 d in
   let at_least := if 0 <=? e0 then d * 2 ^ e0 <=? n else d <=? n * 2 ^ (- e0) in
   let e := if at_least then e0 else e0 - 1 in
   let ex := Z.max (e - 52) (-1074) in
   let num := if ex <? 0 then n * 2 ^ (- ex) else n in
   let den := if ex <? 0 then d else d * 2 ^ ex in
   let m := num / den in
   let r := num mod den in
   let m' := if 2 * r <? den then m
             else if den <? 2 * r then m + 1
             else if Z.even m then m else m + 1 in
   if (971 <? ex) || ((ex =? 971) && (2 ^ 53 <=? m')) then PosInf
   else Fin (if ex <? 0 then Qmake m' (Z.to_pos (2 ^ (- ex)))
             else Qmake (m' * 2 ^ ex) 1))%Z.

Definition num_neg (a : jsnumber) : jsnumber :=
  match a with
  | NaN => NaN
  | PosInf => NegInf
  | NegInf => PosInf
  | Fin q => Fin (Qopp q)
  end.

(** [a <= b] on numbers; any comparison with [NaN] is false. *)
Definition num_le (a b : jsnumber) : bool :=
  match a, b with
  | NaN, _ | _, NaN => false
  | _, _ => negb (num_lt b a)
  end.

(** The number that stands for an integer: the nearest double, which is
    the integer itself up to 2^53 and an infinity beyond the largest
    double.  The rational of a finite one is kept in lowest terms. *)
Definition number_of_int (z : Z) : jsnumber :=
  match (if (z <? 0)%Z then num_neg (round_binary64 (- z) 1) else round_binary64 z 1) with
  | Fin q => Fin (Qred q)
  | other => other
  end.

(** [Number.parseInt(s, 10)]: the integer read, as a number; [NaN] when
    there is no digit. *)
Definition parseInt10 (s : jsstring) : jsnumber :=
  match readInt10 s with
  | Some z => number_of_int z
  | None => NaN
  end.

(** The exponent part of a decimal literal, [e] or [E] with a signed run
    of digits; without digits there is no exponent part. *)
Definition read_exponent (s : jsstring) : Z :=
  match s with
  | c :: s' =>
      if ((c =? 101) || (c =? 69))%N then
        let (neg, rest) := read_sign s' in
        let (ds, _) := span is_digit rest in
        match ds with
        | [] => 0%Z
        | _ => (if neg then - digits_value ds else digits_value ds)%Z
        end
      else 0%Z
  | [] => 0%Z
  end.

(** [Number.parseFloat(s)]: leading white space is skipped and the
    longest prefix that is a decimal literal ([Infinity], or digits with
    an optional fraction and exponent, each with an optional sign) is
    converted, correctly rounded; [NaN] when there is no such prefix. *)
Definition parseFloat (s : jsstring) : jsnumber :=
  let (neg, rest) := read_sign (trimStart s) in
  let signed := fun x => if neg then num_neg x else x in
  if startsWith (js "Infinity") rest then signed PosInf
  else
    let (ip, rest1) := span is_digit rest in
    let (fp, rest2) :=
      match rest1 with
      | 46%N :: r => span is_digit r
      | _ => ([], rest1)
      end in
    match ip ++ fp with
    | [] => NaN
    | ds =>
        let e := (read_exponent rest2 - Z.of_nat (length fp))%Z in
        let m := digits_value ds in
        signed (if (0 <=? e)%Z then round_binary64 (m * 10 ^ e) 1
                else round_binary64 m (10 ^ (- e)))
    end.

(** ** Effects

    A thrown [Error] is [Err] with its message.  The observable actions
    of a run (log lines, outputs, child processes, HTTP requests) are
    collected in order as a list of events. *)

Inductive result (A : Type) :=
| Ok (a : A)
| Err (message : jsstring).
Arguments Ok {A} a.
Arguments Err {A} message.

(** The JSON body of a request, before [JSON.stringify]. *)
Inductive body :=
| ChatBody (model : jsstring) (max_tokens : jsnumber) (temperature : jsnumber)
           (system_content user_content : jsstring)
| PostBody (post_text : jsstring).

(** A [POST] request with a JSON content type. *)
Record request := {
  url : jsstring;
  authorization : jsstring;
  payload : body }.

(** What the program reads of a [fetch] response; [D] is the shape of
    the decoded JSON, [None] standing for the JSON value [null]. *)
Record response (D : Type) := {
  ok : bool;
  status : Z;
  statusText : jsstring;
  response_text : result jsstring;
  response_json : result (option D) }.

(** Chat-completion payload: [data.choices[i].message.content].  An absent
    or [null] member is [None]. *)
Record message := { content : option jsstring }.
Record choice := { choice_message : option message }.
Record completion := { choices : option (list (option choice)) }.

(** Publish payload: [data.errors[i].message], [data.title], [data.data.id]. *)
Record xerror := { error_message : option jsstring }.
Record xpost := { id : option jsstring }.
Record xdata := {
  errors : option (list (option xerror));
  title : option jsstring;
  data : option xpost }.

Inductive event :=
| Debug (line : jsstring)
| Info (line : jsstring)
| Notice (line : jsstring)
| SetOutput (name value : jsstring)
| SetFailed (message : jsstring)
| Exec (command : jsstring)
| Fetch (req : request)
| SummaryWrite (markdown : jsstring).

(** The collaborators: the shell ([execSync]), the two HTTP services
    behind [fetch], the job summary file, and the engine's
    [encodeURIComponent]. *)
Record World := {
  execSync : jsstring -> result jsstring;
  fetch_models : request -> result (response completion);
  fetch_x : request -> result (response xdata);
  summary_write : jsstring -> result unit;
  encodeURIComponent : jsstring -> result jsstring }.

(** What [@actions/core] and [process.env] hand to [run]. *)
Record Inputs := {
  input_from : result jsstring;
  input_to : jsstring;
  input_include_start_commit : result bool;
  input_max_diff_chars : jsstring;
  input_max_output_tokens : jsstring;
  input_temperature : jsstring;
  input_model : jsstring;
  input_system_prompt : jsstring;
  input_extra_instructions : jsstring;
  input_prompt : jsstring;
  input_tone : jsstring;
  input_call_to_action : jsstring;
  input_community : jsstring;
  input_hashtags : jsstring;
  input_paths : list jsstring;
  env_GITHUB_TOKEN : option jsstring;
  env_X_BEARER_TOKEN : option jsstring }.

(** The events an action has produced so far, and its value or the
    error it threw; an error stops the sequence and keeps the events. *)
Module Eff.

Definition M (A : Type) : Type := list event * result A.

Definition ret {A} (a : A) : M A := ([], Ok a).

Definition bind {A B} (m : M A) (k : A -> M B) : M B :=
  match m with
  | (evs, Ok a) => let (evs', r) := k a in (evs ++ evs', r)
  | (evs, Err e) => (evs, Err e)
  end.

Definition throw {A} (msg : jsstring) : M A := ([], Err msg).

Definition emit (e : event) : M unit := ([e], Ok tt).

Definition lift {A} (r : result A) : M A := ([], r).

(** [try { m } catch (error) { throw new Error(h(error.message)) }]. *)
Definition rethrow {A} (m : M A) (h : jsstring -> jsstring) : M A :=
  match m with
  | (evs, Err e) => (evs, Err (h e))
  | _ => m
  end.

(** [xs.map((x, index) => f(x, index))] with an effectful callback. *)
Fixpoint mapM_index {A B} (f : A -> nat -> M B) (xs : list A) (index : nat)
  : M (list B) :=
  match xs with
  | [] => ret []
  | x :: xs' =>
      bind (f x index) (fun y =>
      bind (mapM_index f xs' (S index)) (fun ys => ret (y :: ys)))
  end.

End Eff.
Export Eff.

Declare Scope eff_scope.
Delimit Scope eff_scope with eff.
Notation "x <- c1 ;; c2" := (bind c1 (fun x => c2))
  (at level 61, c1 at next level, right associativity) : eff_scope.
Notation "c1 ;; c2" := (bind c1 (fun _ => c2))
  (at level 61, right associativity) : eff_scope.
Open Scope eff_scope.

(** ** Constants (index.js, lines 4-6) *)

Definition MODELS_ENDPOINT : jsstring :=
  js "https://models.github.ai/inference/chat/completions".

Definition DEFAULT_SYSTEM_PROMPT : jsstring :=
  js "You are a social media copywriter who crafts concise, engaging posts for X (formerly Twitter). Stay under 280 characters in a single post and highlight what matters to users.".

Definition TWEETS_ENDPOINT : jsstring := js "https://api.twitter.com/2/tweets".

(** ** Prompt composer (index.js, lines 91-134) *)

Record PromptContext := {
  customPrompt : jsstring;
  fromSha : jsstring;
  toSha : jsstring;
  commitSummaries : list jsstring;
  community : jsstring;
  tone : jsstring;
  hashtags : list jsstring;
  callToAction : jsstring;
  extraInstructions : jsstring }.

(** [parts.push(x)]. *)
Definition push (parts : list jsstring) (x : jsstring) : list jsstring :=
  parts ++ [x].

Definition blank_line : jsstring := nl ++ nl.
Definition commit_separator : jsstring := nl ++ nl ++ js "---" ++ nl ++ nl.

(** The array [parts] as it stands when it is joined (line 133). *)
Definition promptParts (c : PromptContext) : list jsstring :=
  let parts :=
    [ js "You are a concise social media writer for X. Compose a single post (no thread) under 280 characters.";
      js "Summarize " ++ decimal (Z.of_nat (length (commitSummaries c)))
        ++ js " commit(s) between " ++ fromSha c ++ js " and " ++ toSha c
        ++ js " with a focus on what users will notice.";
      if truthy (community c)
      then js "This message will share with the " ++ dq ++ community c ++ dq ++ js " community."
      else js "This message will post to the main timeline." ] in
  let parts :=
    if truthy (tone c)
    then push parts (js "Adopt a " ++ tone c ++ js " tone.") else parts in
  let parts :=
    match hashtags c with
    | [] => parts
    | _ :: _ => push parts (js "Incorporate these hashtags: " ++ join (js " ") (hashtags c))
    end in
  let parts :=
    if truthy (callToAction c)
    then push parts (js "Finish with: " ++ callToAction c) else parts in
  let parts := push parts (js "Commit context:") in
  let parts := push parts (join commit_separator (commitSummaries c)) in
  let parts :=
    if truthy (extraInstructions c)
    then push parts (js "Additional instructions: " ++ extraInstructions c) else parts in
  push parts (js "Stay actionable, friendly, and avoid overly technical jargon.").

Definition buildPrompt (c : PromptContext) : jsstring :=
  if truthy (customPrompt c) then customPrompt c
  else join blank_line (promptParts c).

(** ** Configuration checks inside [run] *)

(** Lines 221-223: the path filter. *)
Definition normalizePaths (diffPathsInput : list jsstring) : list jsstring :=
  filter truthy (map trim diffPathsInput).

Definition is_hashtag_separator (c : code_unit) : bool :=
  is_space c || (c =? 44)%N.

Definition addHash (value : jsstring) : jsstring :=
  if startsWith (js "#") value then value else js "#" ++ value.

(** Lines 225-229: the hashtag tokens. *)
Definition normalizeHashtags (hashtagsInput : jsstring) : list jsstring :=
  map addHash
    (filter truthy
       (map trim (split_runs is_hashtag_separator false (or_else hashtagsInput [])))).

(** Lines 231-239: a credential of the environment. *)
Definition requireEnv (value : option jsstring) (msg : jsstring) : result jsstring :=
  match value with
  | Some v => if truthy v then Ok v else Err msg
  | None => Err msg
  end.

(** Lines 241-244.  The limit is only compared with the length of a
    string and printed when it is below one, so it is kept as the integer
    read: the double that the engine holds differs from it above 2^53
    only, beyond the length of any string, where [truncateContent]
    returns the content whole for the one as for the other. *)
Definition checkMaxDiffChars (maxDiffCharsInput : jsstring) : result Z :=
  match readInt10 maxDiffCharsInput with
  | Some n =>
      if (n <? 0)%Z
      then Err (dq ++ js "max_diff_chars" ++ dq ++ js " must be a non-negative integer. Received "
                ++ dq ++ maxDiffCharsInput ++ dq ++ js ".")
      else Ok n
  | None =>
      Err (dq ++ js "max_diff_chars" ++ dq ++ js " must be a non-negative integer. Received "
           ++ dq ++ maxDiffCharsInput ++ dq ++ js ".")
  end.

(** Lines 246-249.  The number goes into the request as it is: rounded
    above 2^53, [Infinity] for a run of digits beyond the largest double
    (which [JSON.stringify] sends as [null]). *)
Definition checkMaxOutputTokens (maxOutputTokensInput : jsstring) : result jsnumber :=
  let maxOutputTokens := parseInt10 maxOutputTokensInput in
  if num_isNaN maxOutputTokens || num_le maxOutputTokens (Fin 0)
  then Err (dq ++ js "max_output_tokens" ++ dq ++ js " must be a positive integer. Received "
            ++ dq ++ maxOutputTokensInput ++ dq ++ js ".")
  else Ok maxOutputTokens.

Definition temperature_error (temperatureInput : jsstring) : jsstring :=
  dq ++ js "temperature" ++ dq ++ js " must be a number between 0 and 2. Received "
     ++ dq ++ temperatureInput ++ dq ++ js ".".

(** Lines 251-254. *)
Definition checkTemperature (temperatureInput : jsstring) : result jsnumber :=
  let temperature := parseFloat temperatureInput in
  if num_isNaN temperature || num_lt temperature (Fin 0) || num_lt (Fin 2) temperature
  then Err (temperature_error temperatureInput)
  else Ok temperature.

(** Line 261: the commits to summarise. *)
Definition commitOrder (includeStartCommit : bool) (fromSha : jsstring)
  (commitsInRange : list jsstring) : list jsstring :=
  if includeStartCommit then fromSha :: commitsInRange else commitsInRange.

(** Lines 8-11. *)
Definition escapeShellArg (value : jsstring) : jsstring :=
  sq ++ replace_all 39%N (sq ++ js "\" ++ sq ++ sq) value ++ sq.

(** [a || b || c] where [a] and [b] may be [undefined]. *)
Definition opt_truthy (o : option jsstring) : bool :=
  match o with Some s => truthy s | None => false end.

Definition opt_or (o : option jsstring) (otherwise : jsstring) : jsstring :=
  match o with
  | Some s => if truthy s then s else otherwise
  | None => otherwise
  end.

(** Lines 193-196: the message reported for a refused publish request. *)
Definition xErrorMessage (data : option xdata) (statusText : jsstring) : jsstring :=
  let listed :=
    match data with
    | Some d =>
        match errors d with
        | Some l =>
            Some (join (js ", ")
                    (filter truthy
                       (flat_map (fun e => match e with
                                           | Some x => match error_message x with
                                                       | Some m => [m]
                                                       | None => []
                                                       end
                                           | None => []
                                           end) l)))
        | None => None
        end
    | None => None
    end in
  opt_or listed
    (opt_or (match data with Some d => title d | None => None end) statusText).

(** Lines 166-167: [data.choices && data.choices[0]], then
    [choice?.message?.content]. *)
Definition firstChoiceContent (d : completion) : option jsstring :=
  let choice :=
    match choices d with
    | Some l => nth 0 l None
    | None => None
    end in
  match choice with
  | Some c => match choice_message c with
              | Some m => content m
              | None => None
              end
  | None => None
  end.

(** The local variables of [run] that are live after line 261. *)
Record Locals := {
  v_model : jsstring;
  v_systemPromptInput : jsstring;
  v_extraInstructions : jsstring;
  v_customPrompt : jsstring;
  v_tone : jsstring;
  v_callToAction : jsstring;
  v_communityInput : jsstring;
  v_diffPaths : list jsstring;
  v_hashtags : list jsstring;
  v_githubToken : jsstring;
  v_xBearerToken : jsstring;
  v_maxDiffChars : Z;
  v_maxOutputTokens : jsnumber;
  v_temperature : jsnumber;
  v_fromSha : jsstring;
  v_toSha : jsstring;
  v_commitOrder : list jsstring }.

(** ** The program over its collaborators *)

Section Program.

Variable w : World.

(** Lines 13-20. *)
Definition runCommand (command : jsstring) : M jsstring :=
  emit (Debug (js "Executing: " ++ command)) ;;
  emit (Exec command) ;;
  lift (execSync w command).

(** Lines 22-28. *)
Definition resolveCommit (ref : jsstring) : M jsstring :=
  rethrow
    (out <- runCommand (js "git rev-parse " ++ ref) ;; ret (trim out))
    (fun message =>
       js "Failed to resolve commit reference " ++ dq ++ ref ++ dq ++ js ": " ++ message).

(** Lines 30-40. *)
Definition listCommitsInRange (fromSha toSha : jsstring) : M (list jsstring) :=
  rethrow
    (out <- runCommand (js "git rev-list --reverse " ++ fromSha ++ js ".." ++ toSha) ;;
     let output := trim out in
     if negb (truthy output) then ret []
     else ret (filter truthy (split_at 10%N output)))
    (fun message =>
       js "Failed to list commits between " ++ fromSha ++ js " and " ++ toSha
          ++ js ": " ++ message).

(** Lines 42-44. *)
Definition readCommitTitle (sha : jsstring) : M jsstring :=
  out <- runCommand (js "git show -s --format=%s " ++ sha) ;; ret (trim out).

(** Lines 46-48. *)
Definition readCommitBody (sha : jsstring) : M jsstring :=
  out <- runCommand (js "git show -s --format=%b " ++ sha) ;; ret (trim out).

(** Lines 50-56. *)
Definition readCommitDiff (sha : jsstring) (diffPaths : list jsstring) : M jsstring :=
  let pathClause :=
    match diffPaths with
    | [] => []
    | _ :: _ => js " -- " ++ join (js " ") (map escapeShellArg diffPaths)
    end in
  runCommand (js "git show " ++ sha ++ js " --format= " ++ pathClause).

(** Lines 78-88: the sections of a summary, from what was read. *)
Definition summarySections (commit title body : jsstring) (truncatedDiff : TruncationResult)
  : list jsstring :=
  let sections := [js "Commit: " ++ commit; js "Title: " ++ title] in
  let sections :=
    if truthy body then push sections (js "Body:" ++ nl ++ body) else sections in
  if truthy (trim (text truncatedDiff))
  then push sections (js "Diff preview:" ++ nl ++ text truncatedDiff)
  else sections.

(** Lines 72-89. *)
Definition buildCommitSummary (commit : jsstring) (maxDiffChars : option Z)
  (diffPaths : list jsstring) : M jsstring :=
  title <- readCommitTitle commit ;;
  body <- readCommitBody commit ;;
  diff <- readCommitDiff commit diffPaths ;;
  let truncatedDiff := truncateContent diff maxDiffChars in
  ret (join blank_line (summarySections commit title body truncatedDiff)).

(** Lines 136-174. *)
Definition callModel (token model : jsstring) (temperature : jsnumber) (maxTokens : jsnumber)
  (systemPrompt prompt : jsstring) : M jsstring :=
  let req := {| url := MODELS_ENDPOINT;
                authorization := js "Bearer " ++ token;
                payload := ChatBody model maxTokens temperature systemPrompt prompt |} in
  emit (Fetch req) ;;
  response <- lift (fetch_models w req) ;;
  if negb (ok response) then
    text <- lift (response_text response) ;;
    throw (js "Model request failed with status " ++ decimal (status response)
             ++ js ": " ++ text)
  else
    data <- lift (response_json response) ;;
    match data with
    | None => throw (js "Cannot read properties of null (reading 'choices')")
    | Some d =>
        match firstChoiceContent d with
        | Some content =>
            if truthy content then ret (trim content)
            else throw (js "Model response did not include any content.")
        | None => throw (js "Model response did not include any content.")
        end
    end.

(** Lines 177-179: where the post goes. *)
Definition postEndpoint (communityId : option jsstring) : result jsstring :=
  if opt_truthy communityId then
    match encodeURIComponent w (opt_or communityId []) with
    | Ok encoded => Ok (js "https://api.twitter.com/2/communities/" ++ encoded ++ js "/posts")
    | Err message => Err message
    end
  else Ok TWEETS_ENDPOINT.

(** Lines 176-201. *)
Definition postToX (text bearerToken : jsstring) (communityId : option jsstring)
  : M (option xdata) :=
  endpoint <- lift (postEndpoint communityId) ;;
  let req := {| url := endpoint;
                authorization := js "Bearer " ++ bearerToken;
                payload := PostBody text |} in
  emit (Fetch req) ;;
  response <- lift (fetch_x w req) ;;
  data <- lift (response_json response) ;;
  if negb (ok response) then
    throw (js "X API request failed (" ++ decimal (status response) ++ js "): "
             ++ xErrorMessage data (statusText response))
  else ret data.

(** Lines 205-261: configuration, validation and commit collection. *)
Definition run_collect (i : Inputs) : M Locals :=
  from <- lift (input_from i) ;;
  let startRef := trim from in
  let endRefInput := trim (input_to i) in
  includeStartCommit <- lift (input_include_start_commit i) ;;
  let maxDiffCharsInput := or_else (input_max_diff_chars i) (js "2000") in
  let maxOutputTokensInput := or_else (input_max_output_tokens i) (js "400") in
  let temperatureInput := or_else (input_temperature i) (js "0.2") in
  let model := or_else (input_model i) (js "openai/gpt-4o-mini") in
  let systemPromptInput := input_system_prompt i in
  let extraInstructions := input_extra_instructions i in
  let customPrompt := input_prompt i in
  let tone := input_tone i in
  let callToAction := input_call_to_action i in
  let communityInput := trim (input_community i) in
  let hashtagsInput := input_hashtags i in
  let diffPaths := normalizePaths (input_paths i) in
  let hashtags := normalizeHashtags hashtagsInput in
  githubToken <- lift (requireEnv (env_GITHUB_TOKEN i)
    (js "GITHUB_TOKEN environment variable is required to call GitHub Models API.")) ;;
  xBearerToken <- lift (requireEnv (env_X_BEARER_TOKEN i)
    (js "X_BEARER_TOKEN environment variable is required to post to X.")) ;;
  maxDiffChars <- lift (checkMaxDiffChars maxDiffCharsInput) ;;
  maxOutputTokens <- lift (checkMaxOutputTokens maxOutputTokensInput) ;;
  temperature <- lift (checkTemperature temperatureInput) ;;
  let endRef := or_else endRefInput (js "HEAD") in
  fromSha <- resolveCommit startRef ;;
  toSha <- resolveCommit endRef ;;
  commitsInRange <- listCommitsInRange fromSha toSha ;;
  let commitOrder := commitOrder includeStartCommit fromSha commitsInRange in
  ret {| v_model := model;
         v_systemPromptInput := systemPromptInput;
         v_extraInstructions := extraInstructions;
         v_customPrompt := customPrompt;
         v_tone := tone;
         v_callToAction := callToAction;
         v_communityInput := communityInput;
         v_diffPaths := diffPaths;
         v_hashtags := hashtags;
         v_githubToken := githubToken;
         v_xBearerToken := xBearerToken;
         v_maxDiffChars := maxDiffChars;
         v_maxOutputTokens := maxOutputTokens;
         v_temperature := temperature;
         v_fromSha := fromSha;
         v_toSha := toSha;
         v_commitOrder := commitOrder |}.

(** Lines 272-275. *)
Definition collectSummaries (v : Locals) : M (list jsstring) :=
  mapM_index
    (fun sha index =>
       emit (Info (js "Collecting commit " ++ decimal (Z.of_nat index + 1) ++ js "/"
                     ++ decimal (Z.of_nat (length (v_commitOrder v))) ++ js ": " ++ sha)) ;;
       buildCommitSummary sha (Some (v_maxDiffChars v)) (v_diffPaths v))
    (v_commitOrder v) 0.

(** Lines 277-287: the argument of [buildPrompt]. *)
Definition runContext (v : Locals) (commitSummaries : list jsstring) : PromptContext :=
  {| customPrompt := v_customPrompt v;
     fromSha := v_fromSha v;
     toSha := v_toSha v;
     commitSummaries := commitSummaries;
     community := v_communityInput v;
     tone := v_tone v;
     hashtags := v_hashtags v;
     callToAction := v_callToAction v;
     extraInstructions := v_extraInstructions v |}.

Definition runPrompt (v : Locals) (commitSummaries : list jsstring) : jsstring :=
  buildPrompt (runContext v commitSummaries).

(** Lines 263-322: the short-circuit on an empty range, then generation,
    publishing and reporting; [Ok] also for the early return of line 269. *)
Definition run_publish (v : Locals) : M unit :=
  match v_commitOrder v with
  | [] =>
      emit (Notice (js "No commits found between " ++ v_fromSha v ++ js " and " ++ v_toSha v
                      ++ js ". Skipping X post.")) ;;
      emit (SetOutput (js "generated-post") []) ;;
      emit (SetOutput (js "post-id") []) ;;
      emit (SetOutput (js "post-url") []) ;;
      emit (SetOutput (js "community-id") (v_communityInput v))
  | _ :: _ =>
      commitSummaries <- collectSummaries v ;;
      let prompt := runPrompt v commitSummaries in
      let systemPrompt := or_else (v_systemPromptInput v) DEFAULT_SYSTEM_PROMPT in
      emit (Info (js "Requesting post copy from model " ++ dq ++ v_model v ++ dq ++ js "...")) ;;
      generatedPost <-
        callModel (v_githubToken v) (v_model v) (v_temperature v) (v_maxOutputTokens v)
          systemPrompt prompt ;;
      emit (Info (js "Publishing generated post to X...")) ;;
      xResponse <-
        postToX generatedPost (v_xBearerToken v)
          (if truthy (v_communityInput v) then Some (v_communityInput v) else None) ;;
      let postId :=
        opt_or (match xResponse with
                | Some d => match data d with Some p => id p | None => None end
                | None => None
                end) [] in
      let postUrl :=
        if truthy postId then js "https://x.com/i/web/status/" ++ postId else [] in
      emit (SetOutput (js "generated-post") generatedPost) ;;
      emit (SetOutput (js "post-id") postId) ;;
      emit (SetOutput (js "post-url") postUrl) ;;
      emit (SetOutput (js "community-id") (v_communityInput v)) ;;
      let markdown :=
        (js "## AI generated X post" ++ nl) ++ (generatedPost ++ nl)
          ++ (if truthy postUrl then js "Posted at " ++ postUrl
              else js "Publication succeeded without a retrievable URL.") in
      emit (SummaryWrite markdown) ;;
      lift (summary_write w markdown) ;;
      emit (Info (js "Post published successfully."))
  end.

(** Lines 204-322: the body of the [try] block of [run]. *)
Definition run_try (i : Inputs) : M unit :=
  v <- run_collect i ;; run_publish v.

(** Lines 203-326: [run], with the [catch] that reports a failure.  The
    result is everything the run did, in order. *)
Definition run (i : Inputs) : list event :=
  match run_try i with
  | (evs, Ok _) => evs
  | (evs, Err message) => evs ++ [SetFailed message]
  end.

End Program.

(** ** The specification's words

    The layouts below follow the wording of the specification; the
    theorems compare them with what the code builds. *)

(** A fragment that is present only when its field is. *)
Definition optional (present : bool) (fragment : jsstring) : list jsstring :=
  if present then [fragment] else [].

(** Summary sections: identifier line, title line, optional body,
    optional diff preview. *)
Definition summary_layout (commit title body diffText : jsstring) : list jsstring :=
  [js "Commit: " ++ commit] ++ [js "Title: " ++ title]
    ++ optional (truthy body) (js "Body:" ++ nl ++ body)
    ++ optional (truthy (trim diffText)) (js "Diff preview:" ++ nl ++ diffText).

Definition fixed_instruction : jsstring :=
  js "You are a concise social media writer for X. Compose a single post (no thread) under 280 characters.".

Definition count_and_range (c : PromptContext) : jsstring :=
  js "Summarize " ++ decimal (Z.of_nat (length (commitSummaries c)))
    ++ js " commit(s) between " ++ fromSha c ++ js " and " ++ toSha c
    ++ js " with a focus on what users will notice.".

Definition main_timeline_phrase : jsstring :=
  js "This message will post to the main timeline.".

Definition destination (c : PromptContext) : jsstring :=
  if truthy (community c)
  then js "This message will share with the " ++ dq ++ community c ++ dq ++ js " community."
  else main_timeline_phrase.

Definition tone_directive (t : jsstring) : jsstring :=
  js "Adopt a " ++ t ++ js " tone.".

Definition closing_directive : jsstring :=
  js "Stay actionable, friendly, and avoid overly technical jargon.".

(** Prompt fragments a-i, in the order of the specification. *)
Definition prompt_fragments (c : PromptContext) : list jsstring :=
  [fixed_instruction] ++ [count_and_range c] ++ [destination c]
    ++ optional (truthy (tone c)) (tone_directive (tone c))
    ++ optional (negb (Nat.eqb (length (hashtags c)) 0))
         (js "Incorporate these hashtags: " ++ join (js " ") (hashtags c))
    ++ optional (truthy (callToAction c)) (js "Finish with: " ++ callToAction c)
    ++ [js "Commit context:"; join commit_separator (commitSummaries c)]
    ++ optional (truthy (extraInstructions c))
         (js "Additional instructions: " ++ extraInstructions c)
    ++ [closing_directive].

(** The tokens of a string: its maximal non-empty runs of characters that
    are not separators; [cur] is the token being read, reversed. *)
Fixpoint words (sep : code_unit -> bool) (cur : jsstring) (s : jsstring)
  : list jsstring :=
  match s with
  | [] => optional (truthy cur) (rev cur)
  | x :: s' =>
      if sep x then optional (truthy cur) (rev cur) ++ words sep [] s'
      else words sep (x :: cur) s'
  end.

(** A token that starts with one [#] and not with two. *)
Definition hash_prefixed_once (t : jsstring) : bool :=
  match t with
  | 35%N :: rest => negb (startsWith (js "#") rest)
  | _ => false
  end.

(** The string parses to a number in the closed interval [0, 2]. *)
Definition temperature_in_range (s : jsstring) : Prop :=
  exists q, parseFloat s = Fin q /\ (0 <= q)%Q /\ (q <= 2)%Q.

Definition is_failure (e : event) : bool :=
  match e with SetFailed _ => true | _ => false end.

(** Events that stay on the runner: log lines and child processes. *)
Definition is_local (e : event) : bool :=
  match e with Debug _ | Info _ | Exec _ => true | _ => false end.

(** The inputs pass every check that [run] makes before it looks at the
    temperature (lines 205-249). *)
Definition reaches_temperature_check (i : Inputs) : Prop :=
  (exists from, input_from i = Ok from)
  /\ (exists include, input_include_start_commit i = Ok include)
  /\ opt_truthy (env_GITHUB_TOKEN i) = true
  /\ opt_truthy (env_X_BEARER_TOKEN i) = true
  /\ (exists n, checkMaxDiffChars (or_else (input_max_diff_chars i) (js "2000")) = Ok n)
  /\ (exists n, checkMaxOutputTokens (or_else (input_max_output_tokens i) (js "400")) = Ok n).

(** The HTTP requests of a trace, in order. *)
Definition fetches (evs : list event) : list request :=
  flat_map (fun e => match e with Fetch r => [r] | _ => [] end) evs.

(** The request [callModel] sends for the locals of [run] and the
    summaries collected. *)
Definition chatRequest (v : Locals) (prompt : jsstring) : request :=
  {| url := MODELS_ENDPOINT;
     authorization := js "Bearer " ++ v_githubToken v;
     payload := ChatBody (v_model v) (v_maxOutputTokens v) (v_temperature v)
                  (or_else (v_systemPromptInput v) DEFAULT_SYSTEM_PROMPT) prompt |}.

(** The request that publishes [post] at [endpoint]. *)
Definition publishRequest (v : Locals) (endpoint post : jsstring) : request :=
  {| url := endpoint;
     authorization := js "Bearer " ++ v_xBearerToken v;
     payload := PostBody post |}.

(** The outputs a trace sets, in order. *)
Definition outputs (evs : list event) : list (jsstring * jsstring) :=
  flat_map (fun e => match e with SetOutput n x => [(n, x)] | _ => [] end) evs.

(** The same inputs with another [community] value. *)
Definition with_community (i : Inputs) (c : jsstring) : Inputs :=
  {| input_from := input_from i;
     input_to := input_to i;
     input_include_start_commit := input_include_start_commit i;
     input_max_diff_chars := input_max_diff_chars i;
     input_max_output_tokens := input_max_output_tokens i;
     input_temperature := input_temperature i;
     input_model := input_model i;
     input_system_prompt := input_system_prompt i;
     input_extra_instructions := input_extra_instructions i;
     input_prompt := input_prompt i;
     input_tone := input_tone i;
     input_call_to_action := input_call_to_action i;
     input_community := c;
     input_hashtags := input_hashtags i;
     input_paths := input_paths i;
     env_GITHUB_TOKEN := env_GITHUB_TOKEN i;
     env_X_BEARER_TOKEN := env_X_BEARER_TOKEN i |}.

(** ** A deterministic fake of the collaborators, for concrete runs *)

Module Demo.

(** A shell that echoes the reference as its identifier, lists
    [rangeOutput] for the range, and answers fixed commit texts. *)
Definition exec (rangeOutput : jsstring) (command : jsstring) : result jsstring :=
  if startsWith (js "git rev-parse ") command then Ok (skipn 14 command ++ nl)
  else if startsWith (js "git rev-list ") command then Ok rangeOutput
  else if startsWith (js "git show -s --format=%s ") command then Ok (js "Add login" ++ nl)
  else if startsWith (js "git show -s --format=%b ") command then Ok nl
  else Ok (js "diff --git a/x b/x" ++ nl).

Definition completionOf (c : jsstring) : completion :=
  {| choices := Some [Some {| choice_message := Some {| content := Some c |} |}] |}.

Definition world (rangeOutput modelContent : jsstring) : World :=
  {| execSync := exec rangeOutput;
     fetch_models := fun _ =>
       Ok {| ok := true; status := 200; statusText := js "OK";
             response_text := Ok [];
             response_json := Ok (Some (completionOf modelContent)) |};
     fetch_x := fun _ =>
       Ok {| ok := true; status := 201; statusText := js "Created";
             response_text := Ok [];
             response_json :=
               Ok (Some {| errors := None; title := None;
                           data := Some {| id := Some (js "42") |} |}) |};
     summary_write := fun _ => Ok tt;
     encodeURIComponent := fun s => Ok s |}.

Definition inputs (includeStart : bool) (temperature community : jsstring) : Inputs :=
  {| input_from := Ok (js "v1");
     input_to := [];
     input_include_start_commit := Ok includeStart;
     input_max_diff_chars := [];
     input_max_output_tokens := [];
     input_temperature := temperature;
     input_model := [];
     input_system_prompt := [];
     input_extra_instructions := [];
     input_prompt := [];
     input_tone := [];
     input_call_to_action := [];
     input_community := community;
     input_hashtags := js "alpha, #beta gamma";
     input_paths := [];
     env_GITHUB_TOKEN := Some (js "gh");
     env_X_BEARER_TOKEN := Some (js "xb") |}.

Definition twoCommits : jsstring := js "c1" ++ nl ++ js "c2" ++ nl.

(** A model answer of 300 characters between two spaces. *)
Definition longAnswer : jsstring := js " " ++ repeat 120%N 300 ++ js " ".

Definition context (override toneText : jsstring) : PromptContext :=
  {| customPrompt := override;
     fromSha := js "a1";
     toSha := js "b2";
     commitSummaries := [js "Commit: c1"; js "Commit: c2"];
     community := [];
     tone := toneText;
     hashtags := [js "#alpha"];
     callToAction := [];
     extraInstructions := [] |}.

End Demo.

(** ** Proof steps used more than once *)

(** Equal traces up to the bracketing of [++]. *)
Ltac list_eq := rewrite <- ?app_assoc; cbn [app]; reflexivity.

(** One step of a successful run: [H] says that a sequence of actions
    returned a value, [unfold_bind] is the equation of the result of a
    [bind]; the next action returned a value too. *)
Ltac step_result unfold_bind H :=
  rewrite unfold_bind in H; cbn [lift snd] in H;
  match type of H with
  | match ?r with Ok _ => _ | Err _ => _ end = _ =>
      let E := fresh "E" in destruct r eqn:E; [| discriminate H]
  end.


(** ** More projections of a trace *)

(** The shell commands of a trace, in order. *)
Definition execs (evs : list event) : list jsstring :=
  flat_map (fun e => match e with Exec c => [c] | _ => [] end) evs.

(** The failures a trace reports, in order. *)
Definition failures (evs : list event) : list jsstring :=
  flat_map (fun e => match e with SetFailed m => [m] | _ => [] end) evs.

(** The commands that read one commit (lines 43, 47 and 55). *)
Definition commitReads (diffPaths : list jsstring) (sha : jsstring) : list jsstring :=
  [js "git show -s --format=%s " ++ sha;
   js "git show -s --format=%b " ++ sha;
   js "git show " ++ sha ++ js " --format= "
      ++ match diffPaths with
         | [] => []
         | _ :: _ => js " -- " ++ join (js " ") (map escapeShellArg diffPaths)
         end].

(** A string without white space at either end. *)
Definition tight (s : jsstring) : Prop :=
  trimStart s = s /\ trimStart (rev s) = rev s.

(** ** How the shell reads a command line

    [execSync] encodes the command as UTF-8 and hands it to [/bin/sh].
    It refuses a command that holds the character NUL, and the encoding
    puts U+FFFD in the place of a surrogate code unit that has no
    partner: such a command does not reach the shell as it was written.
    [Sh.words] follows a command line whose code units are neither NUL
    nor surrogates, each of which the shell receives unchanged, and
    gives up ([None]) on any other.

    The reader follows the quoting rules of the POSIX shell for a simple
    command: blanks separate words, a single quote opens a part that
    runs to the next single quote and is taken as it is, a backslash
    outside quotes takes the next character as it is.  Any other
    character with a meaning to the shell, outside quotes, makes the
    reader give up, as does a quote that is not closed: [Some words]
    says that the line is one simple command with exactly these words. *)

Module Sh.

(** A code unit that reaches the shell as it is: not NUL and not a
    surrogate. *)
Definition reaches (c : code_unit) : bool :=
  ((1 <=? c) && ((c <? 55296) || ((57343 <? c) && (c <=? 65535))))%N.

Definition special (c : code_unit) : bool :=
  existsb (N.eqb c)
    [10; 33; 34; 35; 36; 38; 40; 41; 42; 59; 60; 62; 63; 91; 93; 94; 96; 123; 124; 125; 126]%N.

Definition blank (c : code_unit) : bool := ((c =? 32) || (c =? 9))%N.

(** A character that stands for itself outside quotes. *)
Definition plain (c : code_unit) : bool :=
  reaches c && negb ((c =? 39)%N || (c =? 92)%N || blank c || special c).

(** The word being read, latest character first; [None] between words. *)
Definition grow (c : code_unit) (cur : option jsstring) : option jsstring :=
  match cur with
  | Some w => Some (c :: w)
  | None => Some [c]
  end.

Definition close (cur : option jsstring) : list jsstring :=
  match cur with
  | Some w => [rev w]
  | None => []
  end.

(** The reader, over the characters that the shell received. *)
Fixpoint read (quoted : bool) (cur : option jsstring) (s : jsstring)
  : option (list jsstring) :=
  match s with
  | [] => if quoted then None else Some (close cur)
  | c :: s' =>
      if quoted then
        if (c =? 39)%N then read false cur s'
        else read true (grow c cur) s'
      else if (c =? 39)%N then
        read true (match cur with Some w => Some w | None => Some [] end) s'
      else if (c =? 92)%N then
        match s' with
        | d :: s'' => if (d =? 10)%N then None else read false (grow d cur) s''
        | [] => None
        end
      else if blank c then
        match read false None s' with
        | Some ws => Some (close cur ++ ws)
        | None => None
        end
      else if special c then None
      else read false (grow c cur) s'
  end.

(** The words of a command line, when it reaches the shell as written. *)
Definition words (command : jsstring) : option (list jsstring) :=
  if forallb reaches command then read false None command else None.

End Sh.

(** ** Searching a string *)

(** Whether [needle] occurs in [hay], decided from left to right. *)
Fixpoint contains (needle hay : jsstring) : bool :=
  startsWith needle hay
  || match hay with
     | [] => false
     | _ :: hay' => contains needle hay'
     end.

(** ** More of the traces *)

(** The notices of a trace, in order. *)
Definition notices (evs : list event) : list jsstring :=
  flat_map (fun e => match e with Notice m => [m] | _ => [] end) evs.

(** Events of a run that goes on: neither the notice of the empty-range
    exit nor a reported failure. *)
Definition proceeds (e : event) : bool :=
  match e with Notice _ | SetFailed _ => false | _ => true end.

(** Line 308: the id of the published post. *)
Definition postIdOf (xResponse : option xdata) : jsstring :=
  opt_or (match xResponse with
          | Some d => match data d with Some p => id p | None => None end
          | None => None
          end) [].

(** Line 309: the public address of the published post. *)
Definition postUrlOf (postId : jsstring) : jsstring :=
  if truthy postId then js "https://x.com/i/web/status/" ++ postId else [].

(** Lines 316-319: the text written to the job summary. *)
Definition summaryMarkdown (generatedPost postUrl : jsstring) : jsstring :=
  (js "## AI generated X post" ++ nl) ++ (generatedPost ++ nl)
    ++ (if truthy postUrl then js "Posted at " ++ postUrl
        else js "Publication succeeded without a retrievable URL.").

(** Lines 194: the messages the platform listed, the empty ones left out. *)
Definition listedMessages (errs : list (option xerror)) : list jsstring :=
  filter truthy
    (flat_map (fun e => match e with
                        | Some x => match error_message x with
                                    | Some m => [m]
                                    | None => []
                                    end
                        | None => []
                        end) errs).

(** ** The trace of a run, written out

    The two lists below are the events of [run_publish] when there are
    commits to summarise, with one case per point of failure; the
    theorems prove that [run] produces them. *)

(** What [run] does after the publish request was answered with [x]
    (lines 308-322). *)
Definition reportTrace (w : World) (v : Locals) (post : jsstring) (x : option xdata)
  : list event :=
  [SetOutput (js "generated-post") post;
   SetOutput (js "post-id") (postIdOf x);
   SetOutput (js "post-url") (postUrlOf (postIdOf x));
   SetOutput (js "community-id") (v_communityInput v);
   SummaryWrite (summaryMarkdown post (postUrlOf (postIdOf x)))]
    ++ match summary_write w (summaryMarkdown post (postUrlOf (postIdOf x))) with
       | Ok _ => [Info (js "Post published successfully.")]
       | Err message => [SetFailed message]
       end.

(** What [run] does once the summaries are collected (lines 277-322). *)
Definition publishTrace (w : World) (v : Locals) (summaries : list jsstring)
  : list event :=
  Info (js "Requesting post copy from model " ++ dq ++ v_model v ++ dq ++ js "...")
    :: Fetch (chatRequest v (runPrompt v summaries))
    :: match snd (callModel w (v_githubToken v) (v_model v) (v_temperature v)
                    (v_maxOutputTokens v)
                    (or_else (v_systemPromptInput v) DEFAULT_SYSTEM_PROMPT)
                    (runPrompt v summaries)) with
       | Err message => [SetFailed message]
       | Ok post =>
           Info (js "Publishing generated post to X...")
             :: match postEndpoint w (if truthy (v_communityInput v)
                                      then Some (v_communityInput v) else None) with
                | Err message => [SetFailed message]
                | Ok endpoint =>
                    Fetch (publishRequest v endpoint post)
                      :: match snd (postToX w post (v_xBearerToken v)
                                      (if truthy (v_communityInput v)
                                       then Some (v_communityInput v) else None)) with
                         | Err message => [SetFailed message]
                         | Ok x => reportTrace w v post x
                         end
                end
       end.

(** ** More fakes of the collaborators *)

Module Cases.

Definition chatResponse (isOk : bool) (code : Z) (bodyText : jsstring)
  (json : result (option completion)) : response completion :=
  {| ok := isOk; status := code; statusText := [];
     response_text := Ok bodyText; response_json := json |}.

Definition xResponse (isOk : bool) (code : Z) (reason : jsstring)
  (json : result (option xdata)) : response xdata :=
  {| ok := isOk; status := code; statusText := reason;
     response_text := Ok []; response_json := json |}.

(** A world from the answers of its collaborators. *)
Definition world (exec : jsstring -> result jsstring)
  (models : result (response completion)) (x : result (response xdata))
  (summary : result unit) : World :=
  {| execSync := exec;
     fetch_models := fun _ => models;
     fetch_x := fun _ => x;
     summary_write := fun _ => summary;
     encodeURIComponent := fun s => Ok s |}.

Definition goodChat : result (response completion) :=
  Ok (chatResponse true 200 [] (Ok (Some (Demo.completionOf (js " Shipped login. "))))).

Definition goodX : result (response xdata) :=
  Ok (xResponse true 201 (js "Created")
        (Ok (Some {| errors := None; title := None;
                     data := Some {| id := Some (js "42") |} |}))).

(** A shell whose [git show] of the body fails. *)
Definition brokenBody (command : jsstring) : result jsstring :=
  if startsWith (js "git show -s --format=%b ") command then Err (js "Command failed")
  else Demo.exec Demo.twoCommits command.

(** The inputs of [Demo.inputs] with other credentials. *)
Definition withTokens (i : Inputs) (github x : option jsstring) : Inputs :=
  {| input_from := input_from i;
     input_to := input_to i;
     input_include_start_commit := input_include_start_commit i;
     input_max_diff_chars := input_max_diff_chars i;
     input_max_output_tokens := input_max_output_tokens i;
     input_temperature := input_temperature i;
     input_model := input_model i;
     input_system_prompt := input_system_prompt i;
     input_extra_instructions := input_extra_instructions i;
     input_prompt := input_prompt i;
     input_tone := input_tone i;
     input_call_to_action := input_call_to_action i;
     input_community := input_community i;
     input_hashtags := input_hashtags i;
     input_paths := input_paths i;
     env_GITHUB_TOKEN := github;
     env_X_BEARER_TOKEN := x |}.

(** A request that no run sends, for [nth]. *)
Definition noRequest : request :=
  {| url := []; authorization := []; payload := PostBody [] |}.

End Cases.
(** * Theorems *)

(** ** The built-ins on concrete inputs *)

Example is_space_samples :
  map is_space [9; 10; 13; 32; 160; 8200; 8232; 65279; 44; 97; 8203]%N
  = [true; true; true; true; true; true; true; true; false; false; false].
Proof. reflexivity. Qed.

Example trim_sample : trim (js "  ab c ") = js "ab c".
Proof. reflexivity. Qed.

Example split_at_samples :
  split_at 10%N (js "c1" ++ nl ++ nl ++ js "c2") = [js "c1"; []; js "c2"]
  /\ split_at 10%N [] = [[]].
Proof. split; reflexivity. Qed.

Example split_runs_samples :
  split_runs is_hashtag_separator false (js ", a ,,b ") = [[]; js "a"; js "b"; []]
  /\ split_runs is_hashtag_separator false [] = [[]].
Proof. split; reflexivity. Qed.

Example escapeShellArg_sample :
  escapeShellArg (js "it's") = js "'it'\''s'".
Proof. reflexivity. Qed.

Example readInt10_samples :
  map readInt10 [js "2000"; js "  -12ab"; js "+7"; js "1e3"; js "abc"; js "-"; []]
  = [Some 2000; Some (-12); Some 7; Some 1; None; None; None]%Z.
Proof. reflexivity. Qed.

(** Integers as the engine holds them: exact up to 2^53, the nearest
    double above (ties to even), [Infinity] for 400 digits. *)
Example parseInt10_samples :
  map parseInt10
    [js "400"; js " -12ab"; js "9007199254740992"; js "9007199254740993";
     js "9007199254740995"; repeat 57%N 400; js "x1"]
  = [Fin 400; Fin (-12); Fin 9007199254740992; Fin 9007199254740992;
     Fin 9007199254740996; PosInf; NaN].
Proof. vm_compute. reflexivity. Qed.

(** [0.5], [2], the double next to [2] when the literal is past the
    half-way point, [2] when it is not, and the literals without value. *)
Example parseFloat_samples :
  map parseFloat
    [js ".5e0x"; js "2"; js "2.0000000000000003"; js "2.0000000000000001";
     js "1e400"; js "-Infinity"; js "."; js "abc"]
  = [Fin (4503599627370496 # 9007199254740992);
     Fin (4503599627370496 # 2251799813685248);
     Fin (4503599627370497 # 2251799813685248);
     Fin (4503599627370496 # 2251799813685248);
     PosInf; NegInf; NaN; NaN].
Proof. vm_compute. reflexivity. Qed.

Example truncateContent_sample :
  truncateContent (js "hello world") (Some 5%Z)
  = {| text := js "hello" ++ nl ++ nl ++ js "[Diff truncated to the first 5 characters]";
       truncated := true |}.
Proof. reflexivity. Qed.

(** ** Strings *)

Lemma truthy_true_iff (s : jsstring) : truthy s = true <-> s <> [].
Proof. destruct s; simpl; split; congruence. Qed.

Lemma str_eqb_eq (a b : jsstring) : str_eqb a b = true <-> a = b.
Proof. unfold str_eqb. destruct (list_eq_dec N.eq_dec a b); split; congruence. Qed.

Lemma occurs_intro (pre needle post : jsstring) : occurs needle (pre ++ needle ++ post).
Proof. exists pre, post. reflexivity. Qed.

Lemma occurs_app_r (needle a b : jsstring) : occurs needle b -> occurs needle (a ++ b).
Proof.
  intros (pre & post & ->). exists (a ++ pre), post. now rewrite <- app_assoc.
Qed.

Lemma occurs_app_l (needle a b : jsstring) : occurs needle a -> occurs needle (a ++ b).
Proof.
  intros (pre & post & ->). exists pre, (post ++ b). now rewrite <- !app_assoc.
Qed.

(** ** Content truncator *)

Lemma truncateContent_off (content : jsstring) (limit : option Z) :
  (limit = None \/ exists L, limit = Some L /\ (L <= 0)%Z) ->
  truncateContent content limit = {| text := content; truncated := false |}.
Proof.
  intros [-> | (L & -> & HL)]; [reflexivity |].
  unfold truncateContent.
  destruct (Z.eqb_spec L 0); [reflexivity |].
  destruct (Z.leb_spec L 0); [reflexivity | lia].
Qed.

Lemma truncateContent_fits (content : jsstring) (L : Z) :
  (Z.of_nat (length content) <= L)%Z ->
  truncateContent content (Some L) = {| text := content; truncated := false |}.
Proof.
  intros H. unfold truncateContent.
  destruct ((L =? 0)%Z || (L <=? 0)%Z); [reflexivity |].
  destruct (Z.leb_spec (Z.of_nat (length content)) L); [reflexivity | lia].
Qed.

Lemma truncateContent_cuts (content : jsstring) (L : Z) :
  (0 < L)%Z -> (L < Z.of_nat (length content))%Z ->
  truncateContent content (Some L) =
    {| text := firstn (Z.to_nat L) content ++ truncation_marker L; truncated := true |}.
Proof.
  intros H0 H1. unfold truncateContent.
  destruct (Z.eqb_spec L 0); [lia |].
  destruct (Z.leb_spec L 0); [lia |]. simpl.
  destruct (Z.leb_spec (Z.of_nat (length content)) L); [lia | reflexivity].
Qed.

(** C1. [truncateContent] returns the content untouched, not flagged, when
    the limit is absent, zero or negative, and when the content is no
    longer than the limit; otherwise it returns the first [limit]
    characters followed by the marker that names the limit, flagged.
    So the flag is set exactly when the limit is positive and the length
    exceeds it, and for a positive limit the text is never longer than
    the limit plus the marker. *)
Theorem C1_truncateContent_spec (content : jsstring) (limit : option Z) :
  let r := truncateContent content limit in
  let n := Z.of_nat (length content) in
  ((limit = None \/ exists L, limit = Some L /\ (L <= 0)%Z) ->
     r = {| text := content; truncated := false |}) /\
  (forall L, limit = Some L -> (n <= L)%Z ->
     r = {| text := content; truncated := false |}) /\
  (forall L, limit = Some L -> (0 < L)%Z -> (L < n)%Z ->
     r = {| text := firstn (Z.to_nat L) content ++ truncation_marker L;
            truncated := true |}
     /\ length (firstn (Z.to_nat L) content) = Z.to_nat L
     /\ occurs (decimal L) (truncation_marker L)) /\
  (truncated r = true <-> exists L, limit = Some L /\ (0 < L)%Z /\ (L < n)%Z) /\
  (forall L, limit = Some L -> (0 < L)%Z ->
     (length (text r) <= Z.to_nat L + length (truncation_marker L))%nat).
Proof.
  cbv zeta. repeat split.
  - apply truncateContent_off.
  - intros L -> H. now apply truncateContent_fits.
  - subst. now apply truncateContent_cuts.
  - subst. rewrite length_firstn. lia.
  - unfold truncation_marker. rewrite !app_assoc, <- app_assoc. apply occurs_intro.
  - intros H. destruct limit as [L |]; [| discriminate].
    exists L. split; [reflexivity |].
    destruct (Z.le_gt_cases L 0) as [Hle | Hpos].
    + rewrite truncateContent_off in H; [discriminate | right; eauto].
    + destruct (Z.le_gt_cases (Z.of_nat (length content)) L) as [Hfit | Hcut].
      * rewrite truncateContent_fits in H by assumption. discriminate.
      * lia.
  - intros (L & -> & H0 & H1). now rewrite truncateContent_cuts.
  - intros L -> H0.
    destruct (Z.le_gt_cases (Z.of_nat (length content)) L) as [Hfit | Hcut].
    + rewrite truncateContent_fits by assumption. cbn [text]. lia.
    + rewrite truncateContent_cuts by assumption. cbn [text].
      rewrite length_app, length_firstn.
      pose proof (Nat.le_min_l (Z.to_nat L) (length content)). lia.
Qed.

(** ** Effects *)

Lemma bind_ok {A B} (evs : list event) (a : A) (k : A -> M B) :
  bind (evs, Ok a) k = (evs ++ fst (k a), snd (k a)).
Proof. unfold bind. now destruct (k a). Qed.

Lemma bind_err {A B} (evs : list event) (e : jsstring) (k : A -> M B) :
  bind (evs, Err e) k = (evs, Err e).
Proof. reflexivity. Qed.

Lemma snd_bind_ok {A B} (m : M A) (a : A) (k : A -> M B) :
  snd m = Ok a -> snd (bind m k) = snd (k a).
Proof. destruct m as [evs r]. simpl. intros ->. now destruct (k a). Qed.

Lemma snd_runCommand (w : World) (command : jsstring) :
  snd (runCommand w command) = execSync w command.
Proof. unfold runCommand. simpl. now destruct (execSync w command). Qed.

(** ** Commit summary builder *)

Lemma summarySections_layout (commit title body : jsstring) (d : TruncationResult) :
  summarySections commit title body d = summary_layout commit title body (text d).
Proof.
  unfold summarySections, summary_layout, optional, push.
  destruct (truthy body), (truthy (trim (text d))); reflexivity.
Qed.



(** ** Commit range collector *)

Lemma listCommitsInRange_empty (w : World) (fromSha toSha out : jsstring) :
  execSync w (js "git rev-list --reverse " ++ fromSha ++ js ".." ++ toSha) = Ok out ->
  trim out = [] ->
  snd (listCommitsInRange w fromSha toSha) = Ok [].
Proof.
  intros Hexec Hout. unfold listCommitsInRange, rethrow, runCommand.
  cbn [bind emit lift app]. rewrite Hexec, Hout. reflexivity.
Qed.

Lemma startsWith_app (needle post : jsstring) : startsWith needle (needle ++ post) = true.
Proof.
  unfold startsWith, str_eqb.
  rewrite firstn_app, Nat.sub_diag, firstn_all, firstn_O, app_nil_r.
  now destruct (list_eq_dec N.eq_dec needle needle).
Qed.

Lemma occurs_contains (needle hay : jsstring) :
  occurs needle hay -> contains needle hay = true.
Proof.
  intros (pre & post & ->). induction pre as [| c pre IH].
  - destruct needle as [| d needle]; [now destruct post |].
    cbn [app contains]. change (d :: needle ++ post) with ((d :: needle) ++ post).
    now rewrite startsWith_app.
  - cbn [app contains]. rewrite IH. apply orb_true_r.
Qed.

Lemma occurs_cons (needle : jsstring) (c : N) (hay : jsstring) :
  occurs needle hay -> occurs needle (c :: hay).
Proof. intros (pre & post & ->). now exists (c :: pre), post. Qed.

Lemma occurs_trimStart (needle s : jsstring) :
  occurs needle (trimStart s) -> occurs needle s.
Proof.
  induction s as [| c s IH]; [trivial |]. cbn [trimStart].
  destruct (is_space c); [| trivial]. intros H. apply occurs_cons. auto.
Qed.

Lemma occurs_rev (needle hay : jsstring) :
  occurs needle hay -> occurs (rev needle) (rev hay).
Proof.
  intros (pre & post & ->). exists (rev post), (rev pre).
  now rewrite !rev_app_distr, <- app_assoc.
Qed.

Lemma occurs_trim (needle s : jsstring) : occurs needle (trim s) -> occurs needle s.
Proof.
  unfold trim, trimEnd. intros H. apply occurs_trimStart.
  apply occurs_rev in H. rewrite rev_involutive in H.
  apply occurs_trimStart in H. apply occurs_rev in H.
  now rewrite !rev_involutive in H.
Qed.

(** The first piece of [s.split(c)] is a prefix of [s]. *)
Lemma split_at_prefix (c : N) (s : jsstring) :
  exists tok rest post, split_at c s = tok :: rest /\ s = tok ++ post.
Proof.
  induction s as [| x s IH]; [now exists [], [], [] |].
  cbn [split_at]. destruct (x =? c)%N; [now exists [], (split_at c s), (x :: s) |].
  destruct IH as (tok & rest & post & -> & Hs).
  exists (x :: tok), rest, post. split; [reflexivity |]. cbn [app]. now rewrite <- Hs.
Qed.

(** Every piece of [s.split(c)] is a part of [s]. *)
Lemma split_at_occurs (c : N) (s piece : jsstring) :
  In piece (split_at c s) -> occurs piece s.
Proof.
  revert piece. induction s as [| x s IH]; intros piece.
  - cbn [split_at In]. intros [<- | []]. now exists [], [].
  - cbn [split_at]. destruct (x =? c)%N.
    + intros [<- | H]; [now exists [], (x :: s) | now apply occurs_cons, IH].
    + destruct (split_at_prefix c s) as (tok & rest & post & Hsplit & Hs).
      rewrite Hsplit in *. intros [<- | H].
      * exists [], post. cbn [app]. now rewrite <- Hs.
      * apply occurs_cons, IH. now right.
Qed.

(** What the range collector returns is made of parts of what the range
    query printed. *)
Lemma listCommitsInRange_occurs (w : World) (fromSha toSha out : jsstring) :
  execSync w (js "git rev-list --reverse " ++ fromSha ++ js ".." ++ toSha) = Ok out ->
  exists commitsInRange,
    snd (listCommitsInRange w fromSha toSha) = Ok commitsInRange
    /\ forall sha, In sha commitsInRange -> occurs sha out.
Proof.
  intros Hexec. unfold listCommitsInRange, rethrow, runCommand.
  cbn [bind emit lift app]. rewrite Hexec.
  destruct (truthy (trim out)); cbn [negb ret snd].
  - eexists. split; [reflexivity |]. intros sha Hsha.
    apply filter_In in Hsha. destruct Hsha as [Hsha _].
    apply occurs_trim. now apply (split_at_occurs 10%N).
  - exists []. split; [reflexivity |]. intros sha [].
Qed.

(** C3. For every pair of commit ids and every output of the range
    query: without [includeStartCommit] the collected list never holds
    the from-id, and with [includeStartCommit] the from-id is put in
    front as the first element, also when the range query printed
    nothing, in which case the list is the from-id alone.

    The collector takes the commits as [git rev-list from..to] prints
    them.  That range leaves out [from]: it lists the commits reachable
    from [to] and not from [from], each by its full id, so the resolved
    from-id does not occur in the output.  This is the one thing taken
    from the range query, for the case without [includeStartCommit]. *)
Theorem C3_commitOrder_includeFrom (w : World) (fromSha toSha out : jsstring) :
  execSync w (js "git rev-list --reverse " ++ fromSha ++ js ".." ++ toSha) = Ok out ->
  exists commitsInRange,
    snd (listCommitsInRange w fromSha toSha) = Ok commitsInRange
    /\ (~ occurs fromSha out -> ~ In fromSha (commitOrder false fromSha commitsInRange))
    /\ commitOrder true fromSha commitsInRange = fromSha :: commitsInRange
    /\ hd_error (commitOrder true fromSha commitsInRange) = Some fromSha
    /\ (trim out = [] -> commitOrder true fromSha commitsInRange = [fromSha]).
Proof.
  intros Hexec.
  destruct (listCommitsInRange_occurs w fromSha toSha Hexec) as (commitsInRange & Hlist & Hparts).
  exists commitsInRange. split; [exact Hlist |].
  split; [| split; [reflexivity | split; [reflexivity |]]].
  - intros Hrange Hin. apply Hrange. apply Hparts. exact Hin.
  - intros Hout. rewrite (listCommitsInRange_empty w fromSha toSha Hexec Hout) in Hlist.
    now injection Hlist as <-.
Qed.

(** The range [v1..HEAD] of the fake repository, which prints [c1] and
    [c2]: the from-id [v1] is not collected unless it is asked for, and
    then it comes first. *)
Lemma C3_commitOrder_includeFrom_witness :
  exists commitsInRange,
    snd (listCommitsInRange (Demo.world Demo.twoCommits (js "Hi")) (js "v1") (js "HEAD"))
    = Ok commitsInRange
    /\ ~ In (js "v1") (commitOrder false (js "v1") commitsInRange)
    /\ hd_error (commitOrder true (js "v1") commitsInRange) = Some (js "v1").
Proof.
  destruct (@C3_commitOrder_includeFrom (Demo.world Demo.twoCommits (js "Hi"))
              (js "v1") (js "HEAD") Demo.twoCommits eq_refl)
    as (commitsInRange & Hlist & Hnot & _ & Hfirst & _).
  exists commitsInRange. split; [exact Hlist |]. split; [| exact Hfirst].
  apply Hnot. intros Hoccurs. apply occurs_contains in Hoccurs. discriminate Hoccurs.
Defined.

(** ** Prompt composer *)

(** C5. A non-empty prompt override is returned as it is, whatever the
    other fields hold: two contexts with the same non-empty override give
    the same prompt. *)
Theorem C5_buildPrompt_override (c : PromptContext) :
  customPrompt c <> [] ->
  buildPrompt c = customPrompt c
  /\ forall c', customPrompt c' = customPrompt c -> buildPrompt c' = buildPrompt c.
Proof.
  intros H. apply truthy_true_iff in H.
  split.
  - unfold buildPrompt. now rewrite H.
  - intros c' Heq. unfold buildPrompt. now rewrite Heq, H.
Qed.

(** An override next to a tone and a hashtag: the override comes back. *)
Lemma C5_buildPrompt_override_witness :
  buildPrompt (Demo.context (js "X") (js "bold")) = js "X".
Proof.
  refine (proj1 (C5_buildPrompt_override (Demo.context (js "X") (js "bold")) _)).
  discriminate.
Defined.

Lemma promptParts_fragments (c : PromptContext) : promptParts c = prompt_fragments c.
Proof.
  unfold promptParts, prompt_fragments, optional, push.
  destruct (truthy (tone c)), (hashtags c), (truthy (callToAction c)),
    (truthy (extraInstructions c)); reflexivity.
Qed.

Lemma buildPrompt_composed (c : PromptContext) :
  customPrompt c = [] -> buildPrompt c = join blank_line (prompt_fragments c).
Proof.
  intros H. unfold buildPrompt. rewrite H. cbn [truthy].
  now rewrite promptParts_fragments.
Qed.



(** ** Hashtag tokens *)

Section Splitting.

Variable sep : code_unit -> bool.

Lemma truthy_rev (s : jsstring) : truthy (rev s) = truthy s.
Proof.
  destruct s as [| c s]; [reflexivity |]. simpl.
  destruct (rev s); reflexivity.
Qed.

Lemma split_runs_skip (s : jsstring) :
  filter truthy (split_runs sep true s) = filter truthy (split_runs sep false s).
Proof. destruct s as [| x s]; simpl; [| destruct (sep x)]; reflexivity. Qed.

Lemma split_runs_nonempty (s : jsstring) (in_run : bool) :
  split_runs sep in_run s <> [].
Proof.
  revert in_run. induction s as [| x s IH]; intros in_run; simpl; [discriminate |].
  destruct (sep x); [destruct in_run; [apply IH | discriminate] |].
  destruct (split_runs sep false s); discriminate.
Qed.

Lemma split_runs_words (s cur : jsstring) :
  words sep cur s =
    filter truthy
      match split_runs sep false s with
      | tok :: rest => (rev cur ++ tok) :: rest
      | [] => []
      end.
Proof.
  revert cur. induction s as [| x s IH]; intros cur.
  - simpl. rewrite app_nil_r, truthy_rev. reflexivity.
  - simpl. destruct (sep x).
    + rewrite IH. simpl. rewrite app_nil_r, split_runs_skip.
      replace (match split_runs sep false s with
               | [] => []
               | tok :: rest => tok :: rest
               end) with (split_runs sep false s) by (now destruct (split_runs sep false s)).
      rewrite truthy_rev. unfold optional. destruct (truthy cur); reflexivity.
    + rewrite IH. destruct (split_runs sep false s) as [| tok rest] eqn:Es.
      * now destruct (split_runs_nonempty s false).
      * simpl. now rewrite <- app_assoc.
Qed.

Lemma split_runs_clean (s : jsstring) :
  forall in_run t, In t (split_runs sep in_run s) ->
    forallb (fun c => negb (sep c)) t = true.
Proof.
  induction s as [| x s IH]; intros in_run t Ht.
  - destruct Ht as [<- | []]. reflexivity.
  - simpl in Ht. destruct (sep x) eqn:Ex.
    + destruct in_run.
      * eapply IH; eassumption.
      * destruct Ht as [<- | Ht]; [reflexivity | eapply IH; eassumption].
    + destruct (split_runs sep false s) as [| tok rest] eqn:Es.
      * destruct Ht as [<- | []]. simpl. now rewrite Ex.
      * destruct Ht as [<- | Ht].
        -- simpl. rewrite Ex. simpl. apply (IH false). rewrite Es. now left.
        -- apply (IH false). rewrite Es. now right.
Qed.

Lemma words_clean (s : jsstring) :
  forall cur t, forallb (fun c => negb (sep c)) cur = true ->
    In t (words sep cur s) ->
    t <> [] /\ forallb (fun c => negb (sep c)) t = true.
Proof.
  assert (Hopt : forall cur t, forallb (fun c => negb (sep c)) cur = true ->
            In t (optional (truthy cur) (rev cur)) ->
            t <> [] /\ forallb (fun c => negb (sep c)) t = true).
  { intros cur t Hcur Ht. unfold optional in Ht.
    destruct (truthy cur) eqn:E; [| contradiction].
    destruct Ht as [<- | []]. split.
    - apply truthy_true_iff. now rewrite truthy_rev.
    - apply forallb_forall. intros c Hc. apply in_rev in Hc.
      now apply (proj1 (forallb_forall _ _) Hcur). }
  induction s as [| x s IH]; intros cur t Hcur Ht.
  - simpl in Ht. now apply (Hopt cur).
  - simpl in Ht. destruct (sep x) eqn:Ex.
    + apply in_app_or in Ht. destruct Ht as [Ht | Ht].
      * now apply (Hopt cur).
      * now apply (IH []).
    + apply (IH (x :: cur)); [| assumption]. simpl. now rewrite Ex.
Qed.

End Splitting.

Lemma trimStart_clean (t : jsstring) :
  forallb (fun c => negb (is_space c)) t = true -> trimStart t = t.
Proof.
  destruct t as [| c t]; [reflexivity |]. simpl.
  destruct (is_space c); [discriminate | reflexivity].
Qed.

Lemma trim_clean (t : jsstring) :
  forallb (fun c => negb (is_space c)) t = true -> trim t = t.
Proof.
  intros H. unfold trim, trimEnd. rewrite (trimStart_clean t H).
  rewrite trimStart_clean; [apply rev_involutive |].
  apply forallb_forall. intros c Hc. apply in_rev in Hc.
  now apply (proj1 (forallb_forall _ _) H).
Qed.

Lemma hashtag_piece_trim (t : jsstring) :
  forallb (fun c => negb (is_hashtag_separator c)) t = true -> trim t = t.
Proof.
  intros H. apply trim_clean. apply forallb_forall. intros c Hc.
  pose proof (proj1 (forallb_forall _ _) H c Hc) as Hsep.
  unfold is_hashtag_separator in Hsep. now destruct (is_space c).
Qed.

Lemma normalizeHashtags_words (input : jsstring) :
  normalizeHashtags input = map addHash (words is_hashtag_separator [] input).
Proof.
  unfold normalizeHashtags. f_equal.
  replace (or_else input []) with input by (now destruct input).
  rewrite split_runs_words. simpl.
  replace (match split_runs is_hashtag_separator false input with
           | [] => []
           | tok :: rest => tok :: rest
           end) with (split_runs is_hashtag_separator false input)
    by (now destruct (split_runs is_hashtag_separator false input)).
  f_equal. rewrite <- (map_id (split_runs is_hashtag_separator false input)) at 2.
  apply map_ext_in. intros t Ht. apply hashtag_piece_trim.
  eapply split_runs_clean; eassumption.
Qed.

Lemma startsWith_hash_cons (v : jsstring) : startsWith (js "#") (js "#" ++ v) = true.
Proof. unfold startsWith. simpl. now apply str_eqb_eq. Qed.

Lemma addHash_starts (v : jsstring) : startsWith (js "#") (addHash v) = true.
Proof.
  unfold addHash. destruct (startsWith (js "#") v) eqn:E; [exact E |].
  apply startsWith_hash_cons.
Qed.

(** C7 (as the code has it). The tokens are the maximal non-empty runs of
    characters that are neither commas nor white space, in order; a token
    that already starts with [#] is kept as it is, and any other token
    gets one [#] in front, so every resulting token starts with [#].
    The input [alpha, #beta gamma] gives [#alpha], [#beta], [#gamma]. *)
Theorem C7_normalizeHashtags_tokens (input : jsstring) :
  normalizeHashtags input = map addHash (words is_hashtag_separator [] input)
  /\ (forall v, In v (words is_hashtag_separator [] input) ->
        v <> [] /\ forallb (fun c => negb (is_hashtag_separator c)) v = true)
  /\ (forall v, startsWith (js "#") v = true -> addHash v = v)
  /\ (forall v, startsWith (js "#") v = false ->
        addHash v = js "#" ++ v /\ hash_prefixed_once (addHash v) = true)
  /\ (forall t, In t (normalizeHashtags input) -> startsWith (js "#") t = true)
  /\ normalizeHashtags (js "alpha, #beta gamma") = [js "#alpha"; js "#beta"; js "#gamma"].
Proof.
  split; [apply normalizeHashtags_words |].
  split; [intros v Hv; now apply (words_clean is_hashtag_separator input []) |].
  split; [intros v Hv; unfold addHash; now rewrite Hv |].
  split.
  { intros v Hv. unfold addHash. rewrite Hv. split; [reflexivity |].
    simpl. now rewrite Hv. }
  split; [| reflexivity].
  intros t Ht. rewrite normalizeHashtags_words in Ht.
  apply in_map_iff in Ht. destruct Ht as (v & <- & _). apply addHash_starts.
Qed.

(** C7, counterexample: a token typed with two [#] keeps both. *)
Lemma C7_counterexample_double_hash :
  normalizeHashtags (js "##a") = [js "##a"]
  /\ ~ (forall t, In t (normalizeHashtags (js "##a")) -> hash_prefixed_once t = true).
Proof.
  split; [reflexivity |].
  intros H. specialize (H (js "##a") (or_introl eq_refl)). discriminate H.
Qed.

(** ** Traces of the orchestrator *)

Lemma fst_bind {A B} (m : M A) (k : A -> M B) :
  fst (bind m k) = fst m ++ match snd m with Ok a => fst (k a) | Err _ => [] end.
Proof.
  destruct m as [evs [a | e]]; simpl; [now destruct (k a) | now rewrite app_nil_r].
Qed.

Lemma snd_bind {A B} (m : M A) (k : A -> M B) :
  snd (bind m k) = match snd m with Ok a => snd (k a) | Err e => Err e end.
Proof. destruct m as [evs [a | e]]; simpl; [now destruct (k a) | reflexivity]. Qed.

Lemma fst_rethrow {A} (m : M A) (h : jsstring -> jsstring) : fst (rethrow m h) = fst m.
Proof. now destruct m as [evs [a | e]]. Qed.

Lemma bind_lift_ok {A B} (a : A) (k : A -> M B) : bind (lift (Ok a)) k = k a.
Proof. unfold bind, lift. now destruct (k a). Qed.

Lemma bind_lift_err {A B} (e : jsstring) (k : A -> M B) :
  bind (lift (Err e)) k = ([], Err e).
Proof. reflexivity. Qed.

Lemma fetches_app (a b : list event) : fetches (a ++ b) = fetches a ++ fetches b.
Proof. apply flat_map_app. Qed.

Lemma outputs_app (a b : list event) : outputs (a ++ b) = outputs a ++ outputs b.
Proof. apply flat_map_app. Qed.

Lemma local_fetches (evs : list event) : forallb is_local evs = true -> fetches evs = [].
Proof.
  induction evs as [| e evs IH]; [reflexivity |]. simpl.
  destruct e; simpl; try discriminate; exact IH.
Qed.

Lemma local_failures (evs : list event) :
  forallb is_local evs = true -> forall e, In e evs -> is_failure e = false.
Proof.
  intros H e He. pose proof (proj1 (forallb_forall _ _) H e He) as Hl.
  now destruct e.
Qed.

Lemma local_bind {A B} (m : M A) (k : A -> M B) :
  forallb is_local (fst m) = true ->
  (forall a, snd m = Ok a -> forallb is_local (fst (k a)) = true) ->
  forallb is_local (fst (bind m k)) = true.
Proof.
  intros Hm Hk. rewrite fst_bind, forallb_app, Hm. simpl.
  destruct (snd m) as [a | e]; [now apply Hk | reflexivity].
Qed.

Section Local.

Variable w : World.

Lemma local_runCommand (command : jsstring) :
  forallb is_local (fst (runCommand w command)) = true.
Proof. unfold runCommand. now destruct (execSync w command). Qed.

Lemma local_resolveCommit (ref : jsstring) :
  forallb is_local (fst (resolveCommit w ref)) = true.
Proof.
  unfold resolveCommit. rewrite fst_rethrow.
  apply local_bind; [apply local_runCommand | reflexivity].
Qed.

Lemma local_listCommitsInRange (fromSha toSha : jsstring) :
  forallb is_local (fst (listCommitsInRange w fromSha toSha)) = true.
Proof.
  unfold listCommitsInRange. rewrite fst_rethrow.
  apply local_bind; [apply local_runCommand |].
  intros out _. now destruct (negb (truthy (trim out))).
Qed.

Lemma local_buildCommitSummary (commit : jsstring) (limit : option Z) (paths : list jsstring) :
  forallb is_local (fst (buildCommitSummary w commit limit paths)) = true.
Proof.
  unfold buildCommitSummary, readCommitTitle, readCommitBody, readCommitDiff.
  repeat (apply local_bind; [| intros ? _]);
    try apply local_runCommand; reflexivity.
Qed.

Lemma local_mapM_index {A B} (f : A -> nat -> M B) (xs : list A) :
  (forall x n, forallb is_local (fst (f x n)) = true) ->
  forall n, forallb is_local (fst (mapM_index f xs n)) = true.
Proof.
  intros Hf. induction xs as [| x xs IH]; intros n; [reflexivity |].
  simpl. apply local_bind; [apply Hf |]. intros y _.
  apply local_bind; [apply IH | reflexivity].
Qed.

Lemma local_collectSummaries (v : Locals) :
  forallb is_local (fst (collectSummaries w v)) = true.
Proof.
  unfold collectSummaries. apply local_mapM_index. intros sha n.
  apply local_bind; [reflexivity |]. intros _ _. apply local_buildCommitSummary.
Qed.

Lemma local_lift {A} (r : result A) : forallb is_local (fst (lift r)) = true.
Proof. reflexivity. Qed.

Lemma local_run_collect (i : Inputs) :
  forallb is_local (fst (run_collect w i)) = true.
Proof.
  unfold run_collect.
  repeat (apply local_bind; [| intros ? _]);
    try apply local_lift; try apply local_resolveCommit;
    try apply local_listCommitsInRange; reflexivity.
Qed.

End Local.

Lemma requireEnv_ok (value : option jsstring) (msg : jsstring) :
  opt_truthy value = true -> exists token, requireEnv value msg = Ok token.
Proof.
  destruct value as [token |]; [| discriminate]. simpl. intros ->. now exists token.
Qed.

(** What the locals of [run] hold once the collection has succeeded. *)
Lemma run_collect_locals (w : World) (i : Inputs) (pre : list event) (v : Locals) :
  run_collect w i = (pre, Ok v) ->
  v_communityInput v = trim (input_community i)
  /\ v_customPrompt v = input_prompt i
  /\ v_hashtags v = normalizeHashtags (input_hashtags i)
  /\ exists include commitsInRange,
       input_include_start_commit i = Ok include
       /\ snd (listCommitsInRange w (v_fromSha v) (v_toSha v)) = Ok commitsInRange
       /\ v_commitOrder v = commitOrder include (v_fromSha v) commitsInRange.
Proof.
  intros H. apply (f_equal snd) in H. cbn [snd] in H.
  unfold run_collect in H.
  repeat step_result @snd_bind H.
  injection H as <-. cbn.
  repeat split. eauto.
Qed.

(** C4 (as the code has it). When the collected commit list is empty the
    run ends after a notice and four outputs: [generated-post], [post-id]
    and [post-url] are set to the empty string and [community-id] to the
    trimmed community input.  It reports no failure and sends no HTTP
    request, neither to the completion service nor to the publish
    service. *)
Theorem C4_empty_range_short_circuit (w : World) (i : Inputs) (pre : list event)
  (v : Locals) :
  run_collect w i = (pre, Ok v) ->
  v_commitOrder v = [] ->
  run w i =
    pre ++ [Notice (js "No commits found between " ++ v_fromSha v ++ js " and "
                      ++ v_toSha v ++ js ". Skipping X post.");
            SetOutput (js "generated-post") [];
            SetOutput (js "post-id") [];
            SetOutput (js "post-url") [];
            SetOutput (js "community-id") (trim (input_community i))]
  /\ outputs (run w i) =
       [(js "generated-post", []); (js "post-id", []); (js "post-url", []);
        (js "community-id", trim (input_community i))]
  /\ fetches (run w i) = []
  /\ (forall e, In e (run w i) -> is_failure e = false).
Proof.
  intros Hcollect Hempty.
  destruct (run_collect_locals w i Hcollect) as (Hcommunity & _).
  pose proof (local_run_collect w i) as Hlocal. rewrite Hcollect in Hlocal.
  cbn [fst] in Hlocal.
  assert (Hrun : run w i =
    pre ++ [Notice (js "No commits found between " ++ v_fromSha v ++ js " and "
                      ++ v_toSha v ++ js ". Skipping X post.");
            SetOutput (js "generated-post") [];
            SetOutput (js "post-id") [];
            SetOutput (js "post-url") [];
            SetOutput (js "community-id") (trim (input_community i))]).
  { unfold run, run_try. rewrite Hcollect, bind_ok. unfold run_publish.
    rewrite Hempty, <- Hcommunity. reflexivity. }
  rewrite Hrun. split; [reflexivity |]. split; [| split].
  - rewrite outputs_app.
    replace (outputs pre) with (@nil (jsstring * jsstring)); [reflexivity |].
    clear - Hlocal. induction pre as [| e pre IH]; [reflexivity |].
    simpl in Hlocal. apply andb_prop in Hlocal. destruct Hlocal as [He Hpre].
    destruct e; try discriminate; simpl; now apply IH.
  - rewrite fetches_app, (local_fetches pre Hlocal). reflexivity.
  - intros e He. apply in_app_or in He. destruct He as [He | He].
    + now apply (local_failures pre Hlocal).
    + simpl in He. repeat (destruct He as [<- | He]; [reflexivity |]). contradiction.
Qed.

(** An empty range with the community input [ devs ]. *)
Lemma C4_empty_range_short_circuit_witness :
  outputs (run (Demo.world nl (js "Hi")) (Demo.inputs false [] (js " devs "))) =
    [(js "generated-post", []); (js "post-id", []); (js "post-url", []);
     (js "community-id", js "devs")].
Proof.
  refine (proj1 (proj2
    (@C4_empty_range_short_circuit (Demo.world nl (js "Hi"))
       (Demo.inputs false [] (js " devs ")) _ _ _ _))).
  - vm_compute. reflexivity.
  - reflexivity.
Defined.

(** C4, counterexample: with a community given and an empty range, the
    [community-id] output is not empty. *)
Lemma C4_counterexample_community_output :
  (exists pre v,
     run_collect (Demo.world nl (js "Hi")) (Demo.inputs false [] (js "devs")) = (pre, Ok v)
     /\ v_commitOrder v = [])
  /\ In (SetOutput (js "community-id") (js "devs"))
        (run (Demo.world nl (js "Hi")) (Demo.inputs false [] (js "devs")))
  /\ ~ (forall name value,
          In (SetOutput name value)
             (run (Demo.world nl (js "Hi")) (Demo.inputs false [] (js "devs"))) ->
          value = []).
Proof.
  split; [| split].
  - eexists. eexists. split; [vm_compute; reflexivity | reflexivity].
  - vm_compute. do 10 right. now left.
  - intros H.
    specialize (H (js "community-id") (js "devs")).
    assert (Hin : In (SetOutput (js "community-id") (js "devs"))
                     (run (Demo.world nl (js "Hi")) (Demo.inputs false [] (js "devs")))).
    { vm_compute. do 10 right. now left. }
    specialize (H Hin). discriminate H.
Qed.

(** ** Temperature validation *)

Lemma checkTemperature_ok_iff (s : jsstring) :
  (exists t, checkTemperature s = Ok t) <-> temperature_in_range s.
Proof.
  unfold checkTemperature, temperature_in_range.
  destruct (parseFloat s) as [| | | q]; cbn [num_isNaN num_lt orb].
  - split; [intros (t & H); discriminate | intros (q & H & _); discriminate].
  - split; [intros (t & H); discriminate | intros (q & H & _); discriminate].
  - split; [intros (t & H); discriminate | intros (q & H & _); discriminate].
  - destruct (Qle_bool 0 q) eqn:E0, (Qle_bool q 2) eqn:E2; cbn [negb orb];
      split;
      try (intros (t & H); discriminate);
      try (intros _; exists q; split; [reflexivity |];
           split; now apply Qle_bool_iff);
      try (intros _; eexists; reflexivity);
      intros (q' & Hq & H0 & H2); injection Hq as <-;
      apply Qle_bool_iff in H0; apply Qle_bool_iff in H2; congruence.
Qed.

Lemma checkTemperature_rejects (s : jsstring) :
  ~ temperature_in_range s -> checkTemperature s = Err (temperature_error s).
Proof.
  intros H. destruct (checkTemperature s) as [t |] eqn:E.
  - exfalso. apply H. apply checkTemperature_ok_iff. now exists t.
  - unfold checkTemperature in E.
    destruct (num_isNaN (parseFloat s) || num_lt (parseFloat s) (Fin 0)
              || num_lt (Fin 2) (parseFloat s)); [now symmetry | discriminate].
Qed.

Lemma default_temperature_in_range : temperature_in_range (js "0.2").
Proof.
  exists (7205759403792794 # 36028797018963968)%Q.
  split; [vm_compute; reflexivity |].
  split; unfold Qle; simpl; lia.
Qed.

Lemma temperature_error_names (s : jsstring) :
  occurs (js "temperature") (temperature_error s)
  /\ occurs (dq ++ s ++ dq) (temperature_error s).
Proof.
  unfold temperature_error. split.
  - apply occurs_app_r, occurs_app_l. exists [], []. now rewrite app_nil_r.
  - do 4 apply occurs_app_r.
    exists [], (js "."). now rewrite <- !app_assoc.
Qed.

(** C8. The temperature check passes exactly when the string parses to a
    number in the closed interval from 0 to 2.  When it does not, the
    input was given (the default passes), the check raises an error that
    names [temperature] and quotes the input as it was given, the run
    ends with one reported failure and sends no HTTP request; when the
    earlier checks pass, that failure is the temperature error. *)
Theorem C8_temperature_validation (w : World) (i : Inputs) :
  let temperatureInput := or_else (input_temperature i) (js "0.2") in
  ~ temperature_in_range temperatureInput ->
  temperatureInput = input_temperature i
  /\ checkTemperature temperatureInput = Err (temperature_error (input_temperature i))
  /\ occurs (js "temperature") (temperature_error (input_temperature i))
  /\ occurs (dq ++ input_temperature i ++ dq) (temperature_error (input_temperature i))
  /\ (exists message, run w i = [SetFailed message])
  /\ fetches (run w i) = []
  /\ (reaches_temperature_check i ->
        run w i = [SetFailed (temperature_error (input_temperature i))])
  /\ (forall s, (exists t, checkTemperature s = Ok t) <-> temperature_in_range s).
Proof.
  intros temperatureInput Hbad.
  assert (Hgiven : temperatureInput = input_temperature i).
  { subst temperatureInput. unfold or_else in *.
    destruct (truthy (input_temperature i)); [reflexivity |].
    destruct (Hbad default_temperature_in_range). }
  pose proof (checkTemperature_rejects Hbad) as Hcheck.
  assert (Hrun : exists message,
             run_collect w i = ([], Err message)
             /\ (reaches_temperature_check i ->
                 message = temperature_error (input_temperature i))).
  { unfold run_collect. fold temperatureInput. rewrite Hcheck, Hgiven.
    destruct (input_from i) as [from | e1] eqn:E1;
      [rewrite bind_lift_ok | eexists; split; [reflexivity |];
                              intros ((x & Hx) & _); congruence].
    destruct (input_include_start_commit i) as [include | e2] eqn:E2;
      [rewrite bind_lift_ok | eexists; split; [reflexivity |];
                              intros (_ & (x & Hx) & _); congruence].
    destruct (requireEnv (env_GITHUB_TOKEN i) _) as [gh | e3] eqn:E3;
      [rewrite bind_lift_ok |].
    2:{ eexists; split; [reflexivity |]. intros (_ & _ & Hgh & _).
        destruct (requireEnv_ok _ (js "GITHUB_TOKEN environment variable is required to call GitHub Models API.") Hgh) as (t & Ht).
        congruence. }
    destruct (requireEnv (env_X_BEARER_TOKEN i) _) as [xb | e4] eqn:E4;
      [rewrite bind_lift_ok |].
    2:{ eexists; split; [reflexivity |]. intros (_ & _ & _ & Hxb & _).
        destruct (requireEnv_ok _ (js "X_BEARER_TOKEN environment variable is required to post to X.") Hxb) as (t & Ht).
        congruence. }
    destruct (checkMaxDiffChars _) as [md | e5] eqn:E5;
      [rewrite bind_lift_ok | eexists; split; [reflexivity |];
                              intros (_ & _ & _ & _ & (x & Hx) & _); congruence].
    destruct (checkMaxOutputTokens _) as [mt | e6] eqn:E6;
      [rewrite bind_lift_ok | eexists; split; [reflexivity |];
                              intros (_ & _ & _ & _ & _ & (x & Hx)); congruence].
    rewrite bind_lift_err. eexists; split; reflexivity. }
  destruct Hrun as (message & Hcollect & Hmessage).
  assert (Hfail : run w i = [SetFailed message]).
  { unfold run, run_try. rewrite Hcollect. reflexivity. }
  split; [exact Hgiven |].
  split; [congruence |].
  split; [apply temperature_error_names |].
  split; [apply temperature_error_names |].
  split; [now exists message |].
  split; [now rewrite Hfail |].
  split; [intros Hreach; now rewrite Hfail, (Hmessage Hreach) |].
  apply checkTemperature_ok_iff.
Qed.

(** The temperature input [3]. *)
Lemma C8_temperature_validation_witness :
  run (Demo.world Demo.twoCommits (js "Hi")) (Demo.inputs false (js "3") []) =
    [SetFailed (dq ++ js "temperature" ++ dq
                  ++ js " must be a number between 0 and 2. Received "
                  ++ dq ++ js "3" ++ dq ++ js ".")].
Proof.
  refine (proj1 (proj2 (proj2 (proj2 (proj2 (proj2 (proj2
    (@C8_temperature_validation (Demo.world Demo.twoCommits (js "Hi"))
       (Demo.inputs false (js "3") []) _)))))))
    _).
  - intros (q & Hq & _ & H2). vm_compute in Hq. injection Hq as <-.
    revert H2. unfold Qle. simpl. lia.
  - unfold reaches_temperature_check. simpl.
    repeat split; eexists; vm_compute; reflexivity.
Defined.

(** ** Generation and publishing *)

Lemma bind_emit {B} (e : event) (k : unit -> M B) :
  bind (emit e) k = (e :: fst (k tt), snd (k tt)).
Proof. unfold bind, emit. now destruct (k tt). Qed.

Lemma callModel_content (w : World) (token model : jsstring) (temperature : jsnumber)
  (maxTokens : jsnumber) (systemPrompt prompt : jsstring)
  (resp : response completion) (d : completion) (c : jsstring) :
  let req := {| url := MODELS_ENDPOINT;
                authorization := js "Bearer " ++ token;
                payload := ChatBody model maxTokens temperature systemPrompt prompt |} in
  fetch_models w req = Ok resp ->
  ok resp = true ->
  response_json resp = Ok (Some d) ->
  firstChoiceContent d = Some c ->
  c <> [] ->
  callModel w token model temperature maxTokens systemPrompt prompt
  = ([Fetch req], Ok (trim c)).
Proof.
  intros req Hfetch Hok Hjson Hcontent Hc. apply truthy_true_iff in Hc.
  unfold callModel. fold req. rewrite bind_emit, Hfetch, bind_lift_ok, Hok.
  cbn [negb]. rewrite Hjson, bind_lift_ok, Hcontent, Hc. reflexivity.
Qed.

Lemma postToX_trace (w : World) (text token : jsstring) (communityId : option jsstring)
  (endpoint : jsstring) :
  postEndpoint w communityId = Ok endpoint ->
  exists r, postToX w text token communityId
            = ([Fetch {| url := endpoint;
                         authorization := js "Bearer " ++ token;
                         payload := PostBody text |}], r).
Proof.
  intros H. unfold postToX. rewrite H, bind_lift_ok, bind_emit.
  destruct (fetch_x w _) as [response | message];
    [rewrite bind_lift_ok | eexists; reflexivity].
  destruct (response_json response) as [x | message];
    [rewrite bind_lift_ok | eexists; reflexivity].
  destruct (negb (ok response)); eexists; reflexivity.
Qed.

Lemma postToX_refused (w : World) (text token : jsstring) (communityId : option jsstring)
  (message : jsstring) :
  postEndpoint w communityId = Err message ->
  postToX w text token communityId = ([], Err message).
Proof. intros H. unfold postToX. now rewrite H. Qed.

(** The tail of [run] after the publish request (lines 308-322) sends
    nothing more. *)
Lemma report_fetches (w : World) (v : Locals) (post : jsstring) (x : option xdata) :
  let postId :=
    opt_or (match x with
            | Some d => match data d with Some p => id p | None => None end
            | None => None
            end) [] in
  let postUrl :=
    if truthy postId then js "https://x.com/i/web/status/" ++ postId else [] in
  let markdown :=
    (js "## AI generated X post" ++ nl) ++ (post ++ nl)
      ++ (if truthy postUrl then js "Posted at " ++ postUrl
          else js "Publication succeeded without a retrievable URL.") in
  fetches
    (fst (emit (SetOutput (js "generated-post") post) ;;
          emit (SetOutput (js "post-id") postId) ;;
          emit (SetOutput (js "post-url") postUrl) ;;
          emit (SetOutput (js "community-id") (v_communityInput v)) ;;
          emit (SummaryWrite markdown) ;;
          lift (summary_write w markdown) ;;
          emit (Info (js "Post published successfully.")))) = [].
Proof.
  intros postId postUrl markdown. rewrite !bind_emit. cbn [fst fetches flat_map app].
  now destruct (summary_write w markdown) as [[] |].
Qed.

(** The run after a successful generation: the publish request follows
    when its endpoint can be computed, and nothing else is sent. *)
Lemma run_generated (w : World) (i : Inputs) (pre evs : list event) (v : Locals)
  (summaries : list jsstring) (post : jsstring) :
  run_collect w i = (pre, Ok v) ->
  v_commitOrder v <> [] ->
  collectSummaries w v = (evs, Ok summaries) ->
  callModel w (v_githubToken v) (v_model v) (v_temperature v) (v_maxOutputTokens v)
    (or_else (v_systemPromptInput v) DEFAULT_SYSTEM_PROMPT) (runPrompt v summaries)
    = ([Fetch (chatRequest v (runPrompt v summaries))], Ok post) ->
  match postEndpoint w (if truthy (v_communityInput v)
                        then Some (v_communityInput v) else None) with
  | Ok endpoint =>
      exists rest,
        run w i =
          pre ++ evs
            ++ [Info (js "Requesting post copy from model " ++ dq ++ v_model v ++ dq ++ js "...");
                Fetch (chatRequest v (runPrompt v summaries));
                Info (js "Publishing generated post to X...");
                Fetch (publishRequest v endpoint post)]
            ++ rest
        /\ fetches rest = []
  | Err message =>
      run w i =
        pre ++ evs
          ++ [Info (js "Requesting post copy from model " ++ dq ++ v_model v ++ dq ++ js "...");
              Fetch (chatRequest v (runPrompt v summaries));
              Info (js "Publishing generated post to X...");
              SetFailed message]
  end.
Proof.
  intros Hcollect Horder Hsum Hcall.
  unfold run, run_try. rewrite Hcollect, bind_ok. unfold run_publish.
  destruct (v_commitOrder v) as [| sha others]; [contradiction |].
  rewrite Hsum, bind_ok. cbv beta zeta.
  rewrite bind_emit, Hcall, bind_ok, bind_emit.
  destruct (postEndpoint w (if truthy (v_communityInput v)
                            then Some (v_communityInput v) else None))
    as [endpoint | message] eqn:Hend.
  - destruct (postToX_trace w post (v_xBearerToken v) _ Hend) as (r & Hpost).
    fold (publishRequest v endpoint post) in Hpost. rewrite Hpost.
    destruct r as [x | message].
    + rewrite bind_ok. cbn [fst snd].
      pose proof (report_fetches w v post x) as Hrest. cbv zeta in Hrest.
      match type of Hrest with
      | fetches (fst ?m) = [] => destruct m as [tail [u | message]] eqn:Em
      end; cbn [fst snd] in *.
      * exists tail. split; [list_eq | exact Hrest].
      * exists (tail ++ [SetFailed message]). split.
        -- list_eq.
        -- rewrite fetches_app, Hrest. reflexivity.
    + rewrite bind_err. cbn [fst snd].
      exists [SetFailed message]. split; [list_eq | reflexivity].
  - rewrite (postToX_refused w post (v_xBearerToken v) _ Hend), bind_err.
    cbn [fst snd]. list_eq.
Qed.

(** C9. When the completion answers with a non-empty content, the
    generated post is that content trimmed, and every publish request of
    the run carries exactly this string as its text, of any length.
    When the endpoint of the post can be computed the trace is the
    collection, the completion request, then the publish request with
    the trimmed content, and no other request. *)
Theorem C9_generated_post_published_verbatim (w : World) (i : Inputs)
  (pre evs : list event) (v : Locals) (summaries : list jsstring)
  (resp : response completion) (d : completion) (c : jsstring) :
  run_collect w i = (pre, Ok v) ->
  v_commitOrder v <> [] ->
  collectSummaries w v = (evs, Ok summaries) ->
  fetch_models w (chatRequest v (runPrompt v summaries)) = Ok resp ->
  ok resp = true ->
  response_json resp = Ok (Some d) ->
  firstChoiceContent d = Some c ->
  c <> [] ->
  callModel w (v_githubToken v) (v_model v) (v_temperature v) (v_maxOutputTokens v)
    (or_else (v_systemPromptInput v) DEFAULT_SYSTEM_PROMPT) (runPrompt v summaries)
    = ([Fetch (chatRequest v (runPrompt v summaries))], Ok (trim c))
  /\ (forall r post,
        In r (fetches (run w i)) -> payload r = PostBody post -> post = trim c)
  /\ (forall endpoint,
        postEndpoint w (if truthy (v_communityInput v)
                        then Some (v_communityInput v) else None) = Ok endpoint ->
        (exists rest,
           run w i =
             pre ++ evs
               ++ [Info (js "Requesting post copy from model " ++ dq ++ v_model v ++ dq ++ js "...");
                   Fetch (chatRequest v (runPrompt v summaries));
                   Info (js "Publishing generated post to X...");
                   Fetch (publishRequest v endpoint (trim c))]
               ++ rest
           /\ fetches rest = [])
        /\ fetches (run w i) =
             [chatRequest v (runPrompt v summaries); publishRequest v endpoint (trim c)]).
Proof.
  intros Hcollect Horder Hsum Hfetch Hok Hjson Hcontent Hc.
  pose proof (callModel_content w (v_githubToken v) (v_model v) (v_temperature v)
                (v_maxOutputTokens v)
                (or_else (v_systemPromptInput v) DEFAULT_SYSTEM_PROMPT)
                (runPrompt v summaries) Hfetch Hok Hjson Hcontent Hc) as Hcall.
  cbv zeta in Hcall. fold (chatRequest v (runPrompt v summaries)) in Hcall.
  pose proof (run_generated w i Hcollect Horder Hsum Hcall) as Hrun.
  pose proof (local_run_collect w i) as Hpre. rewrite Hcollect in Hpre.
  pose proof (local_collectSummaries w v) as Hevs. rewrite Hsum in Hevs.
  cbn [fst] in Hpre, Hevs.
  split; [exact Hcall |]. split.
  - intros r post Hr Hpayload.
    destruct (postEndpoint w _) as [endpoint | message].
    + destruct Hrun as (rest & Hrun & Hrest). rewrite Hrun in Hr.
      rewrite !fetches_app, (local_fetches pre Hpre), (local_fetches evs Hevs), Hrest in Hr.
      destruct Hr as [<- | [<- | []]]; [discriminate Hpayload |].
      now injection Hpayload as <-.
    + rewrite Hrun in Hr.
      rewrite !fetches_app, (local_fetches pre Hpre), (local_fetches evs Hevs) in Hr.
      destruct Hr as [<- | []]. discriminate Hpayload.
  - intros endpoint Hend. rewrite Hend in Hrun.
    split; [exact Hrun |].
    destruct Hrun as (rest & -> & Hrest).
    rewrite !fetches_app, (local_fetches pre Hpre), (local_fetches evs Hevs), Hrest.
    reflexivity.
Qed.

(** A model answer of 300 characters is published whole. *)
Lemma C9_generated_post_published_verbatim_witness :
  (280 < length (repeat 120%N 300))%nat
  /\ exists v summaries,
       fetches (run (Demo.world Demo.twoCommits Demo.longAnswer) (Demo.inputs false [] []))
       = [chatRequest v (runPrompt v summaries);
          publishRequest v TWEETS_ENDPOINT (repeat 120%N 300)].
Proof.
  split; [vm_compute; lia |].
  eexists. eexists.
  refine (proj2 (proj2 (proj2
    (@C9_generated_post_published_verbatim
       (Demo.world Demo.twoCommits Demo.longAnswer) (Demo.inputs false [] [])
       _ _ _ _ _ _ Demo.longAnswer _ _ _ _ _ _ _ _)) TWEETS_ENDPOINT _)).
  - vm_compute. reflexivity.
  - discriminate.
  - vm_compute. reflexivity.
  - reflexivity.
  - reflexivity.
  - reflexivity.
  - reflexivity.
  - discriminate.
  - reflexivity.
Defined.

Lemma callModel_trace (w : World) (token model : jsstring) (temperature : jsnumber)
  (maxTokens : jsnumber) (systemPrompt prompt : jsstring) :
  exists r, callModel w token model temperature maxTokens systemPrompt prompt
            = ([Fetch {| url := MODELS_ENDPOINT;
                         authorization := js "Bearer " ++ token;
                         payload := ChatBody model maxTokens temperature systemPrompt prompt |}],
               r).
Proof.
  unfold callModel. rewrite bind_emit.
  destruct (fetch_models w _) as [response | message];
    [rewrite bind_lift_ok | eexists; reflexivity].
  destruct (negb (ok response)).
  - destruct (response_text response); eexists; reflexivity.
  - destruct (response_json response) as [[d |] | message];
      try (eexists; reflexivity).
    rewrite bind_lift_ok.
    destruct (firstChoiceContent d) as [content |]; [| eexists; reflexivity].
    destruct (truthy content); eexists; reflexivity.
Qed.

Lemma fetches_cons (e : event) (evs : list event) :
  fetches (e :: evs) = match e with Fetch r => [r] | _ => [] end ++ fetches evs.
Proof. reflexivity. Qed.

(** Every request of a run is the completion request for the collected
    summaries or the publish request at the computed endpoint. *)
Lemma run_fetches (w : World) (i : Inputs) (pre : list event) (v : Locals) :
  run_collect w i = (pre, Ok v) ->
  forall r, In r (fetches (run w i)) ->
    (exists summaries, r = chatRequest v (runPrompt v summaries))
    \/ (exists endpoint post,
          postEndpoint w (if truthy (v_communityInput v)
                          then Some (v_communityInput v) else None) = Ok endpoint
          /\ r = publishRequest v endpoint post).
Proof.
  intros Hcollect r.
  pose proof (local_run_collect w i) as Hpre. rewrite Hcollect in Hpre.
  cbn [fst] in Hpre.
  assert (Hfetches : fetches (run w i) = fetches (fst (run_publish w v))).
  { unfold run, run_try. rewrite Hcollect, bind_ok.
    destruct (run_publish w v) as [evs [u | message]]; cbn [fst snd];
      rewrite ?fetches_app, (local_fetches pre Hpre); [reflexivity |].
    cbn. now rewrite app_nil_r. }
  rewrite Hfetches. clear Hfetches. unfold run_publish.
  destruct (v_commitOrder v) as [| sha others]; [intros [] |].
  pose proof (local_collectSummaries w v) as Hevs.
  destruct (collectSummaries w v) as [evs [summaries | message]]; cbn [fst] in Hevs.
  2:{ rewrite bind_err. cbn [fst]. rewrite (local_fetches evs Hevs). intros []. }
  rewrite bind_ok. cbv beta zeta. rewrite bind_emit.
  destruct (callModel_trace w (v_githubToken v) (v_model v) (v_temperature v)
              (v_maxOutputTokens v)
              (or_else (v_systemPromptInput v) DEFAULT_SYSTEM_PROMPT)
              (runPrompt v summaries)) as (rc & Hcall).
  fold (chatRequest v (runPrompt v summaries)) in Hcall. rewrite Hcall.
  destruct rc as [post | message].
  2:{ rewrite bind_err. cbn [fst]. rewrite fetches_app, (local_fetches evs Hevs).
      intros [<- | []]. left. now exists summaries. }
  rewrite bind_ok, bind_emit.
  destruct (postEndpoint w (if truthy (v_communityInput v)
                            then Some (v_communityInput v) else None))
    as [endpoint | message] eqn:Hend.
  - destruct (postToX_trace w post (v_xBearerToken v) _ Hend) as (rp & Hpost).
    fold (publishRequest v endpoint post) in Hpost. rewrite Hpost.
    destruct rp as [x | message].
    + rewrite bind_ok. cbn [fst snd].
      pose proof (report_fetches w v post x) as Hrest. cbv zeta in Hrest.
      match type of Hrest with fetches ?t = [] => set (T := t) in * end.
      rewrite ?fetches_app, ?fetches_cons, ?fetches_app, ?fetches_cons, ?fetches_app,
        (local_fetches evs Hevs), Hrest.
      cbn [app fetches flat_map].
      intros [<- | [<- | []]]; [left; now exists summaries |].
      right. now exists endpoint, post.
    + rewrite bind_err. cbn [fst].
      rewrite !fetches_app, (local_fetches evs Hevs).
      intros [<- | [<- | []]]; [left; now exists summaries |].
      right. now exists endpoint, post.
  - rewrite (postToX_refused w post (v_xBearerToken v) _ Hend), bind_err. cbn [fst].
    rewrite !fetches_app, (local_fetches evs Hevs).
    intros [<- | []]. left. now exists summaries.
Qed.

Lemma run_fetches_failed (w : World) (i : Inputs) (pre : list event) (message : jsstring) :
  run_collect w i = (pre, Err message) -> fetches (run w i) = [].
Proof.
  intros Hcollect.
  pose proof (local_run_collect w i) as Hpre. rewrite Hcollect in Hpre.
  cbn [fst] in Hpre.
  unfold run, run_try. rewrite Hcollect, bind_err, fetches_app, (local_fetches pre Hpre).
  reflexivity.
Qed.

(** C10. The community local of [run] is the trimmed input.  A value that is empty
    after trimming gives the same run as no community at all; in that run
    the community local is empty, the prompt (when it is composed) has
    the main-timeline phrase as its destination fragment, the endpoint
    computed for the post is the main-timeline one, and every request
    that carries a post goes there. *)
Theorem C10_blank_community_is_no_community (w : World) (i : Inputs) (c : jsstring) :
  trim c = [] ->
  (forall given pre v, run_collect w (with_community i given) = (pre, Ok v) ->
     v_communityInput v = trim given)
  /\ run w (with_community i c) = run w (with_community i [])
  /\ (forall r post,
        In r (fetches (run w (with_community i c))) ->
        payload r = PostBody post -> url r = TWEETS_ENDPOINT)
  /\ (forall pre v, run_collect w (with_community i c) = (pre, Ok v) ->
        v_communityInput v = []
        /\ postEndpoint w (if truthy (v_communityInput v)
                           then Some (v_communityInput v) else None) = Ok TWEETS_ENDPOINT
        /\ (forall summaries,
              destination (runContext v summaries) = main_timeline_phrase
              /\ nth 2 (prompt_fragments (runContext v summaries)) [] = main_timeline_phrase
              /\ (input_prompt i = [] ->
                  runPrompt v summaries
                  = join blank_line (prompt_fragments (runContext v summaries))))).
Proof.
  intros Hblank.
  assert (Hlocals : forall pre v, run_collect w (with_community i c) = (pre, Ok v) ->
            v_communityInput v = [] /\ v_customPrompt v = input_prompt i).
  { intros pre v Hcollect.
    destruct (run_collect_locals w _ Hcollect) as (Hcommunity & Hprompt & _).
    cbn [with_community input_community input_prompt] in *.
    split; congruence. }
  split; [| split; [| split]].
  - intros given pre v Hcollect.
    now destruct (run_collect_locals w _ Hcollect) as (Hcommunity & _).
  - unfold run, run_try, run_collect.
    cbn [with_community input_from input_to input_include_start_commit
         input_max_diff_chars input_max_output_tokens input_temperature input_model
         input_system_prompt input_extra_instructions input_prompt input_tone
         input_call_to_action input_community input_hashtags input_paths
         env_GITHUB_TOKEN env_X_BEARER_TOKEN].
    rewrite Hblank. reflexivity.
  - intros r post Hr Hpayload.
    destruct (run_collect w (with_community i c)) as [pre [v | message]] eqn:Hcollect.
    + destruct (Hlocals pre v eq_refl) as (Hcommunity & _).
      destruct (run_fetches w _ Hcollect r Hr)
        as [(summaries & ->) | (endpoint & post' & Hend & ->)].
      * discriminate Hpayload.
      * rewrite Hcommunity in Hend. cbn in Hend. now injection Hend as <-.
    + rewrite (run_fetches_failed w _ Hcollect) in Hr. destruct Hr.
  - intros pre v Hcollect.
    destruct (Hlocals pre v Hcollect) as (Hcommunity & Hprompt).
    split; [exact Hcommunity |].
    split; [now rewrite Hcommunity |].
    intros summaries.
    assert (Hdest : destination (runContext v summaries) = main_timeline_phrase).
    { unfold destination. cbn [runContext community]. now rewrite Hcommunity. }
    split; [exact Hdest |]. split; [exact Hdest |].
    intros Hnone.
    apply buildPrompt_composed. cbn [runContext customPrompt]. congruence.
Qed.

(** A community input of two spaces. *)
Lemma C10_blank_community_is_no_community_witness :
  run (Demo.world Demo.twoCommits (js "Hi")) (Demo.inputs false [] (js "  "))
  = run (Demo.world Demo.twoCommits (js "Hi")) (Demo.inputs false [] []).
Proof.
  exact (proj1 (proj2 (@C10_blank_community_is_no_community
                  (Demo.world Demo.twoCommits (js "Hi")) (Demo.inputs false [] [])
                  (js "  ") eq_refl))).
Defined.

(** * Further properties of the code *)

(** ** Shell quoting *)

Lemma sh_read_quoted_body (s rest cur : jsstring) :
  Sh.read true (Some cur)
    (replace_all 39%N (sq ++ js "\" ++ sq ++ sq) s ++ rest)
  = Sh.read true (Some (rev s ++ cur)) rest.
Proof.
  revert cur. induction s as [| c s IH]; intros cur; [reflexivity |].
  unfold replace_all in *. cbn [flat_map].
  destruct (N.eqb_spec c 39) as [-> | Hc].
  - cbn [sq js app map list_ascii_of_string N_of_ascii].
    change (Sh.read true (Some cur)
              (39 :: 92 :: 39 :: 39
                 :: flat_map (fun x => if (x =? 39) then [39; 92; 39; 39] else [x]) s ++ rest)%N
            = Sh.read true (Some (rev (39%N :: s) ++ cur)) rest).
    cbn [Sh.read N.eqb Pos.eqb Sh.grow].
    rewrite IH. cbn [rev]. now rewrite <- app_assoc.
  - cbn [app Sh.read]. rewrite (proj2 (N.eqb_neq c 39) Hc). cbn [Sh.grow].
    rewrite IH. cbn [rev]. now rewrite <- app_assoc.
Qed.

Lemma sh_read_escapeShellArg (value rest : jsstring) (cur : option jsstring) :
  Sh.read false cur (escapeShellArg value ++ rest)
  = Sh.read false
      (Some (rev value ++ match cur with Some w => w | None => [] end)) rest.
Proof.
  unfold escapeShellArg. rewrite <- !app_assoc.
  change (sq ++ ?x) with (39%N :: x). cbn [Sh.read N.eqb Pos.eqb].
  replace (match cur with Some w => Some w | None => Some [] end)
    with (Some (match cur with Some w => w | None => [] end)) by (now destruct cur).
  rewrite sh_read_quoted_body. reflexivity.
Qed.

Lemma sh_read_plain (w rest : jsstring) :
  forallb Sh.plain w = true ->
  forall cur,
    Sh.read false cur (w ++ rest)
    = Sh.read false
        (match w with
         | [] => cur
         | _ :: _ => Some (rev w ++ match cur with Some v => v | None => [] end)
         end) rest.
Proof.
  induction w as [| c w IH]; intros Hw cur; [reflexivity |].
  cbn [forallb] in Hw. apply andb_prop in Hw. destruct Hw as [Hc Hw].
  unfold Sh.plain in Hc. apply andb_prop in Hc. destruct Hc as [_ Hc].
  apply negb_true_iff in Hc.
  apply orb_false_iff in Hc. destruct Hc as [Hc Hspecial].
  apply orb_false_iff in Hc. destruct Hc as [Hc Hblank].
  apply orb_false_iff in Hc. destruct Hc as [Hquote Hslash].
  cbn [app Sh.read]. rewrite Hquote, Hslash, Hblank, Hspecial.
  rewrite (IH Hw). destruct w as [| d w]; destruct cur as [v |]; cbn [Sh.grow rev app];
    rewrite <- ?app_assoc; reflexivity.
Qed.

Lemma sh_read_escaped_list (paths : list jsstring) :
  paths <> [] ->
  Sh.read false None (join (js " ") (map escapeShellArg paths)) = Some paths.
Proof.
  induction paths as [| p ps IH]; [congruence |]. intros _.
  destruct ps as [| q qs].
  - cbn [map join]. rewrite <- (app_nil_r (escapeShellArg p)).
    rewrite sh_read_escapeShellArg. cbn [Sh.read Sh.close].
    now rewrite app_nil_r, rev_involutive.
  - change (join (js " ") (map escapeShellArg (p :: q :: qs)))
      with (escapeShellArg p ++ 32%N :: join (js " ") (map escapeShellArg (q :: qs))).
    rewrite sh_read_escapeShellArg. cbn [Sh.read N.eqb Pos.eqb Sh.blank orb].
    rewrite IH by discriminate. cbn [Sh.close app].
    now rewrite app_nil_r, rev_involutive.
Qed.

Lemma reaches_escapeShellArg (value : jsstring) :
  forallb Sh.reaches value = true -> forallb Sh.reaches (escapeShellArg value) = true.
Proof.
  intros H. unfold escapeShellArg, replace_all. rewrite !forallb_app.
  apply andb_true_intro. split; [reflexivity |].
  apply andb_true_intro. split; [| reflexivity].
  induction value as [| c value IH]; [reflexivity |].
  cbn [forallb] in H. apply andb_prop in H. destruct H as [Hc H].
  cbn [flat_map]. rewrite forallb_app, (IH H), andb_true_r.
  destruct (c =? 39)%N; [reflexivity |]. cbn [forallb]. now rewrite Hc.
Qed.

Lemma reaches_join (sep : jsstring) (l : list jsstring) :
  forallb Sh.reaches sep = true ->
  forallb (forallb Sh.reaches) l = true ->
  forallb Sh.reaches (join sep l) = true.
Proof.
  intros Hsep. induction l as [| x l IH]; intros Hl; [reflexivity |].
  cbn [forallb] in Hl. apply andb_prop in Hl. destruct Hl as [Hx Hl].
  destruct l as [| y l]; [exact Hx |].
  change (join sep (x :: y :: l)) with (x ++ sep ++ join sep (y :: l)).
  now rewrite !forallb_app, Hx, Hsep, (IH Hl).
Qed.

Lemma plain_reaches (s : jsstring) :
  forallb Sh.plain s = true -> forallb Sh.reaches s = true.
Proof.
  induction s as [| c s IH]; [reflexivity |]. cbn [forallb]. intros H.
  apply andb_prop in H. destruct H as [Hc H]. rewrite (IH H), andb_true_r.
  unfold Sh.plain in Hc. apply andb_prop in Hc. tauto.
Qed.

(** X1. The shell reads [escapeShellArg value] back as the single word
    [value], for every value that reaches the shell as it is (one
    without the character NUL and without surrogate code units): quotes,
    blanks, dollars, semicolons and line feeds of the value are not left
    for the shell to interpret. *)
Theorem X1_escapeShellArg_one_word (value : jsstring) :
  forallb Sh.reaches value = true ->
  Sh.words (escapeShellArg value) = Some [value].
Proof.
  intros Hvalue. unfold Sh.words. rewrite (reaches_escapeShellArg value Hvalue).
  rewrite <- (app_nil_r (escapeShellArg value)).
  rewrite sh_read_escapeShellArg. cbn [Sh.read Sh.close].
  now rewrite app_nil_r, rev_involutive.
Qed.

(** A value with a quote, blanks, a command substitution and a line
    feed. *)
Lemma X1_escapeShellArg_one_word_witness :
  Sh.words (escapeShellArg (js "it's $(rm -rf .);" ++ nl ++ js "x"))
  = Some [js "it's $(rm -rf .);" ++ nl ++ js "x"].
Proof.
  apply (@X1_escapeShellArg_one_word (js "it's $(rm -rf .);" ++ nl ++ js "x")).
  reflexivity.
Defined.

Lemma escapeShellArg_length (value : jsstring) :
  length (escapeShellArg value)
  = (2 + length value + 3 * length (filter (N.eqb 39) value))%nat.
Proof.
  unfold escapeShellArg, replace_all. rewrite !length_app. cbn [sq length].
  assert (H : length (flat_map (fun x => if (x =? 39)%N
                                         then sq ++ js "\" ++ sq ++ sq else [x]) value)
              = (length value + 3 * length (filter (N.eqb 39) value))%nat).
  { induction value as [| c value IH]; [reflexivity |].
    cbn [flat_map filter]. rewrite length_app, IH.
    rewrite (N.eqb_sym 39 c).
    destruct (c =? 39)%N; cbn [length app sq js map list_ascii_of_string]; lia. }
  rewrite H. lia.
Qed.

(** X2. [escapeShellArg] loses nothing: different values give different
    quoted words.  The quoted word is the value between two quotes with
    three more characters for each single quote of the value. *)
Theorem X2_escapeShellArg_injective (a b : jsstring) :
  (escapeShellArg a = escapeShellArg b -> a = b)
  /\ length (escapeShellArg a)
     = (2 + length a + 3 * length (filter (N.eqb 39) a))%nat.
Proof.
  split; [| apply escapeShellArg_length].
  intros H.
  pose proof (sh_read_escapeShellArg a [] None) as Ha.
  pose proof (sh_read_escapeShellArg b [] None) as Hb.
  rewrite H, Hb in Ha. cbn [Sh.read Sh.close] in Ha.
  rewrite !app_nil_r, !rev_involutive in Ha. congruence.
Qed.

(** X3. The command [readCommitDiff] runs for a commit id made of plain
    characters is read by the shell as [git show <id> --format=],
    followed, when there is a path filter, by [--] and exactly the paths
    of the filter, one word each, for paths that reach the shell as they
    are (without the character NUL and without surrogate code units). *)
Theorem X3_readCommitDiff_command_words (w : World) (sha : jsstring)
  (diffPaths : list jsstring) :
  sha <> [] ->
  forallb Sh.plain sha = true ->
  forallb (forallb Sh.reaches) diffPaths = true ->
  exists command,
    execs (fst (readCommitDiff w sha diffPaths)) = [command]
    /\ Sh.words command =
         Some ([js "git"; js "show"; sha; js "--format="]
                 ++ match diffPaths with
                    | [] => []
                    | _ :: _ => js "--" :: diffPaths
                    end).
Proof.
  intros Hne Hplain Hpaths. eexists. split.
  - unfold readCommitDiff, runCommand. rewrite !bind_emit. reflexivity.
  - unfold Sh.words.
    assert (Hreach : forallb Sh.reaches
                       (js "git show " ++ sha ++ js " --format= "
                          ++ match diffPaths with
                             | [] => []
                             | _ :: _ => js " -- " ++ join (js " ") (map escapeShellArg diffPaths)
                             end) = true).
    { rewrite !forallb_app, (plain_reaches sha Hplain).
      apply andb_true_intro. split; [reflexivity |].
      apply andb_true_intro. split; [reflexivity |].
      apply andb_true_intro. split; [reflexivity |].
      destruct diffPaths as [| p ps]; [reflexivity |].
      rewrite forallb_app. apply andb_true_intro. split; [reflexivity |].
      apply reaches_join; [reflexivity |].
      clear - Hpaths. induction (p :: ps) as [| x l IH]; [reflexivity |].
      cbn [forallb map] in *. apply andb_prop in Hpaths. destruct Hpaths as [Hx Hl].
      now rewrite (reaches_escapeShellArg x Hx), (IH Hl). }
    rewrite Hreach.
    change (js "git show " ++ ?x) with
      (103 :: 105 :: 116 :: 32 :: 115 :: 104 :: 111 :: 119 :: 32 :: x)%N.
    cbn [Sh.read N.eqb Pos.eqb Sh.blank Sh.special existsb orb Sh.grow Sh.close rev app].
    rewrite (sh_read_plain sha _ Hplain).
    destruct sha as [| c sha]; [congruence |].
    change (js " --format= " ++ ?x) with
      (32 :: 45 :: 45 :: 102 :: 111 :: 114 :: 109 :: 97 :: 116 :: 61 :: 32 :: x)%N.
    cbn [Sh.read N.eqb Pos.eqb Sh.blank Sh.special existsb orb Sh.grow Sh.close].
    destruct diffPaths as [| p ps].
    + rewrite app_nil_r, rev_involutive. reflexivity.
    + change (js " -- " ++ ?x) with (32 :: 45 :: 45 :: 32 :: x)%N.
      cbn [Sh.read N.eqb Pos.eqb Sh.blank Sh.special existsb orb Sh.grow Sh.close].
      rewrite sh_read_escaped_list by discriminate.
      rewrite app_nil_r, rev_involutive. reflexivity.
Qed.

(** A hexadecimal id and a filter of two paths, one with a quote and a
    blank in it. *)
Lemma X3_readCommitDiff_command_words_witness :
  exists command,
    execs (fst (readCommitDiff (Demo.world Demo.twoCommits (js "Hi")) (js "a1b2c3")
                  [js "src/my file.js"; js "it's"])) = [command]
    /\ Sh.words command =
         Some [js "git"; js "show"; js "a1b2c3"; js "--format=";
               js "--"; js "src/my file.js"; js "it's"].
Proof.
  refine (@X3_readCommitDiff_command_words (Demo.world Demo.twoCommits (js "Hi"))
            (js "a1b2c3") [js "src/my file.js"; js "it's"] _ _ _).
  - discriminate.
  - reflexivity.
  - reflexivity.
Defined.

(** ** White space *)

Lemma trimStart_idempotent (s : jsstring) : trimStart (trimStart s) = trimStart s.
Proof.
  induction s as [| c s IH]; [reflexivity |]. simpl.
  destruct (is_space c) eqn:E; [exact IH |]. simpl. now rewrite E.
Qed.

Lemma trimStart_nil_iff (s : jsstring) :
  trimStart s = [] <-> forallb is_space s = true.
Proof.
  induction s as [| c s IH]; [now split |]. simpl.
  destruct (is_space c); [exact IH | split; discriminate].
Qed.

Lemma trimStart_keeps_last (u : jsstring) (c : N) :
  is_space c = false -> exists u', trimStart (u ++ [c]) = u' ++ [c].
Proof.
  intros Hc. induction u as [| d u IH].
  - exists []. simpl. now rewrite Hc.
  - simpl. destruct (is_space d); [exact IH | now exists (d :: u)].
Qed.

Lemma trim_tight_id (s : jsstring) : tight s -> trim s = s.
Proof.
  intros [H1 H2]. unfold trim, trimEnd. now rewrite H1, H2, rev_involutive.
Qed.

Lemma trim_is_tight (s : jsstring) : tight (trim s).
Proof.
  unfold tight, trim, trimEnd. split.
  - pose proof (trimStart_idempotent s) as Hidem.
    destruct (trimStart s) as [| c t] eqn:Ea; [reflexivity |].
    assert (Hc : is_space c = false).
    { simpl in Hidem. destruct (is_space c); [| reflexivity].
      exfalso. clear - Hidem.
      assert (Hlen : (length (trimStart t) <= length t)%nat).
      { clear. induction t as [| d t IH]; simpl; [lia |].
        destruct (is_space d); simpl; lia. }
      rewrite Hidem in Hlen. simpl in Hlen. lia. }
    cbn [rev]. destruct (@trimStart_keeps_last (rev t) c Hc) as (u' & ->).
    rewrite rev_app_distr. simpl. now rewrite Hc.
  - rewrite rev_involutive. apply trimStart_idempotent.
Qed.

Lemma trim_idempotent (s : jsstring) : trim (trim s) = trim s.
Proof. apply trim_tight_id, trim_is_tight. Qed.

Lemma forallb_rev {A} (p : A -> bool) (l : list A) :
  forallb p (rev l) = forallb p l.
Proof.
  induction l as [| x l IH]; [reflexivity |]. simpl.
  rewrite forallb_app, IH. simpl. rewrite andb_true_r. apply andb_comm.
Qed.

Lemma trim_nil_iff (s : jsstring) : trim s = [] <-> forallb is_space s = true.
Proof.
  unfold trim, trimEnd. split.
  - intros H. apply (f_equal (@rev N)) in H. rewrite rev_involutive in H.
    cbn [rev] in H. apply trimStart_nil_iff in H. rewrite forallb_rev in H.
    pose proof (trimStart_idempotent s) as Hidem.
    destruct (trimStart s) as [| c t] eqn:Ea; [now apply trimStart_nil_iff |].
    simpl in H, Hidem. apply andb_prop in H. destruct H as [Hc _].
    rewrite Hc in Hidem. exfalso.
    assert (Hlen : (length (trimStart t) <= length t)%nat).
    { clear. induction t as [| d t IH]; simpl; [lia |].
      destruct (is_space d); simpl; lia. }
    rewrite Hidem in Hlen. simpl in Hlen. lia.
  - intros H. apply trimStart_nil_iff in H. now rewrite H.
Qed.

(** ** Reference resolution and range listing *)

Lemma runCommand_outcome (w : World) (command : jsstring) :
  runCommand w command
  = ([Debug (js "Executing: " ++ command); Exec command], execSync w command).
Proof. unfold runCommand. now rewrite !bind_emit. Qed.

(** X4. [resolveCommit] logs and runs [git rev-parse <ref>], nothing
    else.  When the command succeeds the id is its output without the
    white space around it, so trimming the id again changes nothing; when
    it fails the error names the reference between quotes and ends with
    the message of the failed command. *)
Theorem X4_resolveCommit_outcome (w : World) (ref : jsstring) :
  let command := js "git rev-parse " ++ ref in
  fst (resolveCommit w ref) = [Debug (js "Executing: " ++ command); Exec command]
  /\ (forall out, execSync w command = Ok out ->
        snd (resolveCommit w ref) = Ok (trim out)
        /\ trim (trim out) = trim out)
  /\ (forall message, execSync w command = Err message ->
        snd (resolveCommit w ref)
        = Err (js "Failed to resolve commit reference " ++ dq ++ ref ++ dq
                 ++ js ": " ++ message)).
Proof.
  cbv zeta. unfold resolveCommit. rewrite runCommand_outcome.
  split; [| split].
  - now destruct (execSync w (js "git rev-parse " ++ ref)).
  - intros out ->. split; [reflexivity | apply trim_idempotent].
  - now intros message ->.
Qed.

Lemma split_at_pieces (s : jsstring) :
  forall piece, In piece (split_at 10%N s) -> ~ In 10%N piece.
Proof.
  induction s as [| x s IH]; intros piece Hp.
  - destruct Hp as [<- | []]. intros [].
  - simpl in Hp. destruct (N.eqb_spec x 10) as [-> | Hx].
    + destruct Hp as [<- | Hp]; [intros [] | now apply IH].
    + destruct (split_at 10%N s) as [| tok rest] eqn:Es.
      * destruct Hp as [<- | []]. intros [H | []]. congruence.
      * destruct Hp as [<- | Hp].
        -- intros [H | H]; [congruence |]. apply (IH tok); [now left | exact H].
        -- apply IH. now right.
Qed.

Lemma split_at_first (s : jsstring) (c : N) :
  c <> 10%N -> exists tok rest, split_at 10%N (c :: s) = (c :: tok) :: rest.
Proof.
  intros Hc. simpl. rewrite (proj2 (N.eqb_neq c 10) Hc).
  destruct (split_at 10%N s) as [| tok rest]; eauto.
Qed.

(** X5. When [git rev-list] succeeds, [listCommitsInRange] returns ids of
    which none is empty and none holds a line feed, and it returns no id
    exactly when the output is blank.  When the command fails the error
    names both ids and ends with the message of the failed command. *)
Theorem X5_listCommitsInRange_outcome (w : World) (fromSha toSha : jsstring) :
  let command := js "git rev-list --reverse " ++ fromSha ++ js ".." ++ toSha in
  (forall out, execSync w command = Ok out ->
     exists ids,
       snd (listCommitsInRange w fromSha toSha) = Ok ids
       /\ (ids = [] <-> forallb is_space out = true)
       /\ forall id, In id ids -> id <> [] /\ ~ In 10%N id)
  /\ (forall message, execSync w command = Err message ->
        snd (listCommitsInRange w fromSha toSha)
        = Err (js "Failed to list commits between " ++ fromSha ++ js " and " ++ toSha
                 ++ js ": " ++ message)).
Proof.
  cbv zeta. unfold listCommitsInRange. rewrite runCommand_outcome. split.
  - intros out ->. rewrite bind_ok. cbn [rethrow fst snd].
    destruct (trim out) as [| c t] eqn:Et.
    + exists []. cbn. split; [reflexivity |].
      split; [| intros id []].
      split; [intros _; now apply trim_nil_iff | reflexivity].
    + cbn [truthy negb]. eexists. split; [reflexivity |].
      split.
      * assert (Hc : c <> 10%N).
        { pose proof (trim_is_tight out) as [Htight _]. rewrite Et in Htight.
          simpl in Htight. intros ->. simpl in Htight.
          apply (f_equal (@length N)) in Htight. simpl in Htight.
          assert (Hlen : (length (trimStart t) <= length t)%nat).
          { clear. induction t as [| d t IH]; simpl; [lia |].
            destruct (is_space d); simpl; lia. }
          lia. }
        destruct (@split_at_first t c Hc) as (tok & rest & ->). cbn [filter truthy].
        split; [discriminate |].
        intros Hblank. apply trim_nil_iff in Hblank. congruence.
      * intros id Hid. apply filter_In in Hid. destruct Hid as [Hin Hne].
        split; [now apply truthy_true_iff | now apply (split_at_pieces (c :: t))].
  - now intros message ->.
Qed.

Lemma split_at_app_line (x s : jsstring) :
  ~ In 10%N x -> split_at 10%N (x ++ 10%N :: s) = x :: split_at 10%N s.
Proof.
  induction x as [| c x IH]; intros Hx; [reflexivity |].
  cbn [app split_at].
  destruct (N.eqb_spec c 10) as [-> | Hc]; [destruct Hx; now left |].
  rewrite IH; [reflexivity |]. intros H. apply Hx. now right.
Qed.

Lemma split_at_one_line (x : jsstring) : ~ In 10%N x -> split_at 10%N x = [x].
Proof.
  induction x as [| c x IH]; intros Hx; [reflexivity |].
  cbn [split_at].
  destruct (N.eqb_spec c 10) as [-> | Hc]; [destruct Hx; now left |].
  rewrite IH; [reflexivity |]. intros H. apply Hx. now right.
Qed.

Lemma split_at_join_lines (ids : list jsstring) :
  (forall id, In id ids -> ~ In 10%N id) ->
  ids <> [] ->
  split_at 10%N (join nl ids) = ids.
Proof.
  induction ids as [| x ids IH]; intros Hids Hne; [congruence |].
  destruct ids as [| y ids].
  - apply split_at_one_line, Hids. now left.
  - change (join nl (x :: y :: ids)) with (x ++ 10%N :: join nl (y :: ids)).
    rewrite split_at_app_line by (apply Hids; now left).
    rewrite IH; [reflexivity | | discriminate].
    intros id Hid. apply Hids. now right.
Qed.

Lemma join_lines_ends (ids : list jsstring) :
  (forall id, In id ids ->
     id <> [] /\ forallb (fun c => negb (is_space c)) id = true) ->
  ids <> [] ->
  (exists c t, join nl ids = c :: t /\ is_space c = false)
  /\ (exists body d, join nl ids = body ++ [d] /\ is_space d = false).
Proof.
  induction ids as [| x ids IH]; intros Hids Hne; [congruence |].
  destruct (Hids x (or_introl eq_refl)) as [Hx Hclean].
  split.
  - destruct x as [| c x]; [congruence |].
    simpl in Hclean. apply andb_prop in Hclean. destruct Hclean as [Hc _].
    apply negb_true_iff in Hc.
    destruct ids; [now exists c, x |]. eexists c, _. split; [reflexivity | exact Hc].
  - destruct ids as [| y ids].
    + destruct (exists_last Hx) as (body & d & ->).
      exists body, d. split; [reflexivity |].
      rewrite forallb_app in Hclean. apply andb_prop in Hclean.
      destruct Hclean as [_ Hd]. simpl in Hd. rewrite andb_true_r in Hd.
      now apply negb_true_iff.
    + destruct IH as [_ (body & d & Hbody & Hd)]; [| discriminate |].
      { intros id Hid. apply Hids. now right. }
      exists (x ++ nl ++ body), d. split; [| exact Hd].
      change (join nl (x :: y :: ids)) with (x ++ nl ++ join nl (y :: ids)).
      rewrite Hbody. now rewrite <- !app_assoc.
Qed.

Lemma trim_line (m : jsstring) : tight m -> m <> [] -> trim (m ++ nl) = m.
Proof.
  intros [H1 H2] Hne. unfold trim, trimEnd.
  destruct m as [| c t]; [congruence |].
  assert (Hc : is_space c = false).
  { simpl in H1. destruct (is_space c); [| reflexivity]. exfalso.
    assert (Hlen : (length (trimStart t) <= length t)%nat).
    { clear. induction t as [| d t IH]; simpl; [lia |].
      destruct (is_space d); simpl; lia. }
    rewrite H1 in Hlen. simpl in Hlen. lia. }
  assert (Hstart : trimStart ((c :: t) ++ nl) = (c :: t) ++ nl).
  { simpl. now rewrite Hc. }
  rewrite Hstart, rev_app_distr.
  assert (Hend : trimStart (rev nl ++ rev (c :: t)) = trimStart (rev (c :: t))).
  { reflexivity. }
  rewrite Hend, H2. apply rev_involutive.
Qed.

Lemma filter_truthy_id (l : list jsstring) :
  (forall s, In s l -> s <> []) -> filter truthy l = l.
Proof.
  induction l as [| y l IH]; intros Hl; [reflexivity |].
  cbn [filter]. rewrite (proj2 (truthy_true_iff y)) by (apply Hl; now left).
  f_equal. apply IH. intros s Hs. apply Hl. now right.
Qed.

(** X6. When [git rev-list] prints ids one per line, each line ended by a
    line feed and each id free of white space, [listCommitsInRange]
    returns exactly these ids in the order printed. *)
Theorem X6_listCommitsInRange_lines (w : World) (fromSha toSha : jsstring)
  (ids : list jsstring) :
  (forall id, In id ids ->
     id <> [] /\ forallb (fun c => negb (is_space c)) id = true) ->
  execSync w (js "git rev-list --reverse " ++ fromSha ++ js ".." ++ toSha)
    = Ok (join nl ids ++ nl) ->
  snd (listCommitsInRange w fromSha toSha) = Ok ids.
Proof.
  intros Hids Hexec. unfold listCommitsInRange.
  rewrite runCommand_outcome, Hexec, bind_ok. cbn [rethrow fst snd].
  destruct ids as [| x ids]; [reflexivity |].
  destruct (join_lines_ends Hids) as [(c & t & Hhead & Hc) (body & d & Hlast & Hd)];
    [discriminate |].
  assert (Htight : tight (join nl (x :: ids))).
  { split.
    - rewrite Hhead. simpl. now rewrite Hc.
    - rewrite Hlast, rev_app_distr. simpl. now rewrite Hd. }
  rewrite trim_line; [| exact Htight | rewrite Hhead; discriminate].
  rewrite Hhead. cbn [truthy negb]. rewrite <- Hhead.
  rewrite split_at_join_lines; [| | discriminate].
  - rewrite filter_truthy_id; [reflexivity |]. intros id Hid. now apply Hids.
  - intros id Hid Hnl. destruct (Hids id Hid) as [_ Hclean].
    pose proof (proj1 (forallb_forall _ _) Hclean 10%N Hnl) as H. discriminate H.
Qed.

(** Two ids on two lines. *)
Lemma X6_listCommitsInRange_lines_witness :
  snd (listCommitsInRange (Demo.world Demo.twoCommits (js "Hi")) (js "v1") (js "HEAD"))
  = Ok [js "c1"; js "c2"].
Proof.
  refine (@X6_listCommitsInRange_lines (Demo.world Demo.twoCommits (js "Hi"))
            (js "v1") (js "HEAD") [js "c1"; js "c2"] _ eq_refl).
  intros id [<- | [<- | []]]; split; (discriminate || reflexivity).
Defined.

(** ** Path filter and hashtag tokens *)

(** X7. The path filter keeps, in order, the trimmed form of every input
    line that is not blank: no path of the filter is empty, none has
    white space around it, and filtering a filter again changes
    nothing. *)
Theorem X7_normalizePaths_clean (diffPathsInput : list jsstring) :
  (forall p, In p (normalizePaths diffPathsInput) <->
     p <> [] /\ exists raw, In raw diffPathsInput /\ trim raw = p)
  /\ (forall p, In p (normalizePaths diffPathsInput) -> trim p = p)
  /\ normalizePaths (normalizePaths diffPathsInput) = normalizePaths diffPathsInput
  /\ (length (normalizePaths diffPathsInput) <= length diffPathsInput)%nat.
Proof.
  assert (Hin : forall p, In p (normalizePaths diffPathsInput) <->
            p <> [] /\ exists raw, In raw diffPathsInput /\ trim raw = p).
  { intros p. unfold normalizePaths. rewrite filter_In, in_map_iff, truthy_true_iff.
    split.
    - intros [(raw & Hraw & Hr) Hp]. split; [exact Hp | now exists raw].
    - intros [Hp (raw & Hraw & Hr)]. split; [now exists raw | exact Hp]. }
  assert (Htrim : forall p, In p (normalizePaths diffPathsInput) -> trim p = p).
  { intros p Hp. apply Hin in Hp. destruct Hp as [_ (raw & _ & <-)].
    apply trim_idempotent. }
  split; [exact Hin |]. split; [exact Htrim |]. split.
  - unfold normalizePaths at 1.
    rewrite (map_ext_in trim (fun p => p) _ Htrim), map_id.
    apply filter_truthy_id. intros p Hp. now apply Hin in Hp.
  - unfold normalizePaths.
    pose proof (filter_length_le truthy (map trim diffPathsInput)) as H.
    now rewrite length_map in H.
Qed.

Lemma words_nil_iff (sep : N -> bool) (s cur : jsstring) :
  words sep cur s = [] <-> cur = [] /\ forallb sep s = true.
Proof.
  revert cur. induction s as [| x s IH]; intros cur.
  - simpl. unfold optional. destruct cur; simpl.
    + now split.
    + split; [discriminate | intros [H _]; discriminate].
  - simpl. destruct (sep x).
    + unfold optional. destruct cur as [| c cur]; simpl.
      * rewrite IH. split; [intros [_ H]; now split | intros [_ H]; now split].
      * split; [discriminate | intros [H _]; discriminate].
    + rewrite IH. split; [intros [H _]; discriminate | intros [_ H]; discriminate].
Qed.

(** X8. The hashtag list is empty exactly when the input holds nothing
    but commas and white space (the empty input included). *)
Theorem X8_normalizeHashtags_empty (hashtagsInput : jsstring) :
  normalizeHashtags hashtagsInput = []
  <-> forallb is_hashtag_separator hashtagsInput = true.
Proof.
  rewrite normalizeHashtags_words. split.
  - intros H. apply map_eq_nil in H. now apply words_nil_iff in H.
  - intros H. replace (words is_hashtag_separator [] hashtagsInput) with (@nil jsstring);
      [reflexivity |]. symmetry. now apply words_nil_iff.
Qed.

Lemma words_app_clean (sep : N -> bool) (t rest : jsstring) :
  forallb (fun c => negb (sep c)) t = true ->
  forall cur, words sep cur (t ++ rest) = words sep (rev t ++ cur) rest.
Proof.
  induction t as [| c t IH]; intros Ht cur; [reflexivity |].
  simpl in Ht. apply andb_prop in Ht. destruct Ht as [Hc Ht].
  apply negb_true_iff in Hc. cbn [app words]. rewrite Hc, (IH Ht).
  cbn [rev]. now rewrite <- app_assoc.
Qed.

Lemma words_join_tokens (sep : N -> bool) (tokens : list jsstring) :
  sep 32%N = true ->
  (forall t, In t tokens -> t <> [] /\ forallb (fun c => negb (sep c)) t = true) ->
  words sep [] (join (js " ") tokens) = tokens.
Proof.
  intros Hsp. induction tokens as [| x tokens IH]; intros Htokens; [reflexivity |].
  destruct (Htokens x (or_introl eq_refl)) as [Hx Hclean].
  assert (Hopt : optional (truthy (rev x ++ [])) (rev (rev x ++ [])) = [x]).
  { rewrite app_nil_r, truthy_rev, rev_involutive.
    now rewrite (proj2 (truthy_true_iff x) Hx). }
  destruct tokens as [| y tokens].
  - cbn [join]. rewrite <- (app_nil_r x) at 1. rewrite (words_app_clean sep x [] Hclean).
    cbn [words]. exact Hopt.
  - change (join (js " ") (x :: y :: tokens))
      with (x ++ 32%N :: join (js " ") (y :: tokens)).
    rewrite (words_app_clean sep x _ Hclean). cbn [words]. rewrite Hsp, Hopt.
    rewrite IH; [reflexivity |]. intros t Ht. apply Htokens. now right.
Qed.

Lemma addHash_idempotent (v : jsstring) : addHash (addHash v) = addHash v.
Proof. unfold addHash at 1. now rewrite addHash_starts. Qed.

Lemma addHash_clean (v : jsstring) :
  forallb (fun c => negb (is_hashtag_separator c)) v = true ->
  addHash v <> [] /\ forallb (fun c => negb (is_hashtag_separator c)) (addHash v) = true.
Proof.
  intros Hv. unfold addHash. destruct (startsWith (js "#") v) eqn:E.
  - split; [| exact Hv]. intros ->. discriminate E.
  - split; [discriminate |]. simpl. exact Hv.
Qed.

(** X9. Reading the hashtag directive back gives the same tokens: the
    tokens joined by a blank, given to the normaliser again, come out
    unchanged, in the same order and with no [#] added. *)
Theorem X9_normalizeHashtags_stable (hashtagsInput : jsstring) :
  normalizeHashtags (join (js " ") (normalizeHashtags hashtagsInput))
  = normalizeHashtags hashtagsInput.
Proof.
  rewrite (normalizeHashtags_words (join _ _)), (normalizeHashtags_words hashtagsInput).
  rewrite words_join_tokens.
  - rewrite map_map. apply map_ext. apply addHash_idempotent.
  - reflexivity.
  - intros t Ht. apply in_map_iff in Ht. destruct Ht as (v & <- & Hv).
    apply addHash_clean.
    now apply (words_clean is_hashtag_separator hashtagsInput []).
Qed.

(** ** Integer limits *)

Lemma digit_not_space (c : N) : is_digit c = true -> is_space c = false.
Proof.
  unfold is_digit. intros H. apply andb_prop in H. destruct H as [H1 H2].
  apply N.leb_le in H1. apply N.leb_le in H2.
  assert (Hc : (c = 48 \/ c = 49 \/ c = 50 \/ c = 51 \/ c = 52 \/ c = 53 \/ c = 54
                \/ c = 55 \/ c = 56 \/ c = 57)%N) by lia.
  repeat (destruct Hc as [-> | Hc]; [reflexivity |]). now subst.
Qed.

Lemma digit_not_sign (c : N) (s : jsstring) :
  is_digit c = true -> read_sign (c :: s) = (false, c :: s).
Proof.
  unfold is_digit. intros H. apply andb_prop in H. destruct H as [H1 H2].
  apply N.leb_le in H1. apply N.leb_le in H2.
  assert (Hc : (c = 48 \/ c = 49 \/ c = 50 \/ c = 51 \/ c = 52 \/ c = 53 \/ c = 54
                \/ c = 55 \/ c = 56 \/ c = 57)%N) by lia.
  repeat (destruct Hc as [-> | Hc]; [reflexivity |]). now subst.
Qed.

Lemma span_digits (ds junk : jsstring) :
  forallb is_digit ds = true ->
  match junk with [] => True | c :: _ => is_digit c = false end ->
  span is_digit (ds ++ junk) = (ds, junk).
Proof.
  intros Hds Hjunk. induction ds as [| d ds IH].
  - destruct junk as [| c junk]; [reflexivity |]. simpl. now rewrite Hjunk.
  - simpl in Hds. apply andb_prop in Hds. destruct Hds as [Hd Hds].
    cbn [app span]. now rewrite Hd, (IH Hds).
Qed.

Lemma digits_value_nonneg (ds : jsstring) :
  forallb is_digit ds = true -> (0 <= digits_value ds)%Z.
Proof.
  unfold digits_value. intros Hds.
  assert (H : forall acc, (0 <= acc)%Z ->
            (0 <= fold_left (fun a c => a * 10 + (Z.of_N c - 48)) ds acc)%Z).
  { induction ds as [| d ds IH]; intros acc Hacc; [exact Hacc |].
    simpl in Hds. apply andb_prop in Hds. destruct Hds as [Hd Hds].
    cbn [fold_left]. apply (IH Hds).
    unfold is_digit in Hd. apply andb_prop in Hd. destruct Hd as [H1 _].
    apply N.leb_le in H1. lia. }
  apply H. lia.
Qed.


Lemma Qred_inject_Z (n : Z) : Qred (inject_Z n) = inject_Z n.
Proof.
  unfold Qred, inject_Z.
  generalize (Z.ggcd_gcd n 1) (Z.ggcd_correct_divisors n 1).
  destruct (Z.ggcd n 1) as [g [aa bb]]. cbn [fst snd].
  rewrite Z.gcd_1_r. intros -> [Ha Hb].
  rewrite Z.mul_1_l in Ha, Hb. subst aa bb. reflexivity.
Qed.

(** The exponent that [round_binary64] finds for a positive integer. *)
Lemma round_binary64_int (n : Z) :
  (0 < n)%Z ->
  round_binary64 n 1
  = (let ex := Z.log2 n - 52 in
     let num := if ex <? 0 then n * 2 ^ (- ex) else n in
     let den := if ex <? 0 then 1 else 1 * 2 ^ ex in
     let m := num / den in
     let r := num mod den in
     let m' := if 2 * r <? den then m
               else if den <? 2 * r then m + 1
               else if Z.even m then m else m + 1 in
     if (971 <? ex) || ((ex =? 971) && (2 ^ 53 <=? m')) then PosInf
     else Fin (if ex <? 0 then Qmake m' (Z.to_pos (2 ^ (- ex)))
               else Qmake (m' * 2 ^ ex) 1))%Z.
Proof.
  intros Hn. unfold round_binary64.
  rewrite (proj2 (Z.eqb_neq n 0)) by lia.
  change (Z.log2 1) with 0%Z. rewrite Z.sub_0_r.
  pose proof (Z.log2_nonneg n) as Hl.
  destruct (Z.log2_spec n Hn) as [Hlow _].
  cbv zeta.
  rewrite (proj2 (Z.leb_le 0 (Z.log2 n)) Hl).
  rewrite Z.mul_1_l, (proj2 (Z.leb_le _ _) Hlow).
  rewrite (Z.max_l (Z.log2 n - 52) (-1074)) by lia.
  reflexivity.
Qed.

Lemma round_binary64_int_positive (n : Z) :
  (0 < n)%Z -> num_lt (Fin 0) (round_binary64 n 1) = true.
Proof.
  intros Hn. rewrite (round_binary64_int Hn). cbv zeta.
  pose proof (Z.log2_nonneg n) as Hl.
  destruct (Z.log2_spec n Hn) as [Hlow _].
  set (ex := (Z.log2 n - 52)%Z) in *.
  assert (Hm : (0 < (if ex <? 0 then n * 2 ^ (- ex) else n)
                    / (if ex <? 0 then 1 else 1 * 2 ^ ex))%Z).
  { destruct (ex <? 0)%Z eqn:Hex.
    - rewrite Z.div_1_r. apply Z.mul_pos_pos; [exact Hn |].
      apply Z.pow_pos_nonneg; lia.
    - apply Z.ltb_ge in Hex. rewrite Z.mul_1_l.
      apply Z.div_str_pos. split; [apply Z.pow_pos_nonneg; lia |].
      apply Z.le_trans with (2 ^ Z.log2 n)%Z; [| exact Hlow].
      apply Z.pow_le_mono_r; lia. }
  set (m := ((if ex <? 0 then n * 2 ^ (- ex) else n)
             / (if ex <? 0 then 1 else 1 * 2 ^ ex))%Z) in *.
  set (r := ((if ex <? 0 then n * 2 ^ (- ex) else n)
             mod (if ex <? 0 then 1 else 1 * 2 ^ ex))%Z).
  set (den := (if (ex <? 0)%Z then 1%Z else (1 * 2 ^ ex)%Z)).
  set (m' := if (2 * r <? den)%Z then m
             else if (den <? 2 * r)%Z then (m + 1)%Z
             else if Z.even m then m else (m + 1)%Z).
  assert (Hm' : (0 < m')%Z).
  { unfold m'. destruct (2 * r <? den)%Z; [exact Hm |].
    destruct (den <? 2 * r)%Z; [lia |]. destruct (Z.even m); lia. }
  destruct ((971 <? ex)%Z || ((ex =? 971)%Z && (2 ^ 53 <=? m')%Z)); [reflexivity |].
  cbn [num_lt]. apply negb_true_iff. unfold Qle_bool. cbn [Qnum Qden].
  apply Z.leb_gt.
  destruct (ex <? 0)%Z eqn:Hex; cbn [Qnum Qden].
  - lia.
  - apply Z.ltb_ge in Hex. rewrite Z.mul_0_l, Z.mul_1_r.
    apply Z.mul_pos_pos; [exact Hm' |]. apply Z.pow_pos_nonneg; lia.
Qed.

Lemma round_binary64_int_safe (n : Z) :
  (0 < n <= 2 ^ 53)%Z ->
  exists q, round_binary64 n 1 = Fin q /\ Qeq q (inject_Z n).
Proof.
  intros [Hn Hmax]. rewrite (round_binary64_int Hn). cbv zeta.
  pose proof (Z.log2_nonneg n) as Hl.
  assert (Hup : (Z.log2 n < 54)%Z).
  { apply Z.log2_lt_pow2; [exact Hn |].
    apply Z.le_lt_trans with (2 ^ 53)%Z; [exact Hmax | reflexivity]. }
  set (ex := (Z.log2 n - 52)%Z) in *.
  assert (Hcase : (ex < 0 \/ ex = 0 \/ ex = 1)%Z) by lia.
  destruct Hcase as [Hneg | [Hzero | Hone]].
  - rewrite (proj2 (Z.ltb_lt ex 0) Hneg).
    rewrite Z.div_1_r, Z.mod_1_r. cbn [Z.mul Z.ltb Z.compare].
    rewrite (proj2 (Z.ltb_ge 971 ex)) by lia.
    rewrite (proj2 (Z.eqb_neq ex 971)) by lia.
    cbn [orb andb]. eexists. split; [reflexivity |].
    unfold Qeq, inject_Z. cbn [Qnum Qden].
    rewrite Z2Pos.id by (apply Z.pow_pos_nonneg; lia). lia.
  - rewrite Hzero. cbn [Z.ltb Z.compare Z.pow Z.pow_pos Pos.iter Z.mul Pos.mul Z.eqb Z.leb orb andb].
    rewrite Z.div_1_r, Z.mod_1_r. cbn [Z.mul Z.ltb Z.compare].
    eexists. split; [reflexivity |].
    unfold Qeq, inject_Z. cbn [Qnum Qden]. lia.
  - assert (Hn53 : n = (2 ^ 53)%Z).
    { destruct (Z.log2_spec n Hn) as [Hlow _].
      replace (Z.log2 n) with 53%Z in Hlow by lia. lia. }
    subst n. rewrite Hone. eexists. split; [vm_compute; reflexivity |].
    vm_compute. reflexivity.
Qed.

Lemma number_of_int_positive (n : Z) :
  (0 < n)%Z -> num_isNaN (number_of_int n) = false /\ num_le (number_of_int n) (Fin 0) = false.
Proof.
  intros Hn. unfold number_of_int.
  rewrite (proj2 (Z.ltb_ge n 0)) by lia.
  pose proof (round_binary64_int_positive Hn) as Hpos.
  destruct (round_binary64 n 1) as [| | | q]; try discriminate Hpos.
  - split; reflexivity.
  - split; [reflexivity |]. cbn [num_le num_lt] in *.
    apply negb_true_iff in Hpos. apply negb_false_iff, negb_true_iff.
    destruct (Qle_bool (Qred q) 0) eqn:Hq; [| reflexivity].
    apply Qle_bool_iff in Hq.
    assert (Hle : Qle q 0) by (rewrite <- (Qred_correct q); exact Hq).
    apply Qle_bool_iff in Hle. congruence.
Qed.

Lemma number_of_int_negative (n : Z) :
  (n < 0)%Z -> num_le (number_of_int n) (Fin 0) = true.
Proof.
  intros Hn. unfold number_of_int.
  rewrite (proj2 (Z.ltb_lt n 0)) by lia.
  pose proof (@round_binary64_int_positive (- n) ltac:(lia)) as Hpos.
  destruct (round_binary64 (- n) 1) as [| | | q]; try discriminate Hpos.
  - reflexivity.
  - cbn [num_neg num_le num_lt] in *. rewrite negb_involutive.
    apply negb_true_iff in Hpos.
    apply Qle_bool_iff. rewrite Qred_correct.
    destruct (Qlt_le_dec 0 q) as [Hq | Hq].
    + apply Qlt_le_weak in Hq. apply Qopp_le_compat in Hq. exact Hq.
    + apply Qle_bool_iff in Hq. congruence.
Qed.

Lemma number_of_int_safe (n : Z) :
  (0 <= n <= 2 ^ 53)%Z -> number_of_int n = Fin (inject_Z n).
Proof.
  intros [Hn Hmax]. unfold number_of_int.
  rewrite (proj2 (Z.ltb_ge n 0)) by lia.
  destruct (Z.eq_dec n 0) as [-> | Hnz]; [reflexivity |].
  destruct (@round_binary64_int_safe n ltac:(lia)) as (q & -> & Hq).
  f_equal. rewrite (Qred_complete _ _ Hq). apply Qred_inject_Z.
Qed.

Lemma readInt10_digits (ds junk : jsstring) :
  ds <> [] ->
  forallb is_digit ds = true ->
  match junk with [] => True | c :: _ => is_digit c = false end ->
  readInt10 (ds ++ junk) = Some (digits_value ds).
Proof.
  intros Hne Hds Hjunk. unfold readInt10.
  destruct ds as [| d ds]; [congruence |].
  pose proof Hds as Hall. simpl in Hds. apply andb_prop in Hds. destruct Hds as [Hd _].
  cbn [app trimStart]. rewrite (@digit_not_space d Hd), (@digit_not_sign d (ds ++ junk) Hd).
  change (d :: ds ++ junk) with ((d :: ds) ++ junk).
  now rewrite (@span_digits (d :: ds) junk Hall Hjunk).
Qed.

(** X10. Both integer limits are read as the leading run of digits:
    whatever follows the digits is ignored.  [max_output_tokens] fails
    when the value of the digits is zero, with an error that names the
    input and quotes the whole text given; otherwise it hands on the
    number that the engine makes of that value, the nearest double.  Up
    to 2^53 that number is the value itself, and [max_diff_chars]
    accepts the input, zero included, with this value. *)
Theorem X10_integer_limits_read_leading_digits (ds junk : jsstring) :
  ds <> [] ->
  forallb is_digit ds = true ->
  match junk with [] => True | c :: _ => is_digit c = false end ->
  (digits_value ds = 0%Z ->
     checkMaxOutputTokens (ds ++ junk)
     = Err (dq ++ js "max_output_tokens" ++ dq
              ++ js " must be a positive integer. Received "
              ++ dq ++ (ds ++ junk) ++ dq ++ js "."))
  /\ (digits_value ds <> 0%Z ->
        checkMaxOutputTokens (ds ++ junk) = Ok (number_of_int (digits_value ds)))
  /\ ((digits_value ds <= 2 ^ 53)%Z ->
        number_of_int (digits_value ds) = Fin (inject_Z (digits_value ds))
        /\ checkMaxDiffChars (ds ++ junk) = Ok (digits_value ds)).
Proof.
  intros Hne Hds Hjunk.
  pose proof (@readInt10_digits ds junk Hne Hds Hjunk) as Hparse.
  pose proof (@digits_value_nonneg ds Hds) as Hpos.
  unfold checkMaxDiffChars, checkMaxOutputTokens, parseInt10. rewrite Hparse.
  split; [| split].
  - intros Hz. rewrite Hz. reflexivity.
  - intros Hnz. cbv zeta.
    destruct (@number_of_int_positive (digits_value ds) ltac:(lia)) as [-> ->].
    reflexivity.
  - intros Hsafe. split.
    + apply number_of_int_safe. lia.
    + destruct (Z.ltb_spec (digits_value ds) 0); [lia | reflexivity].
Qed.

(** The input [12abc]. *)
Lemma X10_integer_limits_read_leading_digits_witness :
  checkMaxOutputTokens (js "12abc") = Ok (Fin 12)
  /\ checkMaxDiffChars (js "12abc") = Ok 12%Z.
Proof.
  pose proof (@X10_integer_limits_read_leading_digits (js "12") (js "abc")
                ltac:(discriminate) eq_refl eq_refl) as (_ & H2 & H3).
  split; [apply H2; discriminate | apply H3; vm_compute; discriminate].
Defined.

(** ** What a run does before it reads a commit *)

Lemma requireEnv_missing (value : option jsstring) (msg : jsstring) :
  opt_truthy value = false -> requireEnv value msg = Err msg.
Proof. destruct value as [v |]; simpl; [intros -> |]; reflexivity. Qed.

(** X11. When a credential is missing or empty the run is one reported
    failure: no command is run and no request is sent.  When the two
    inputs that can throw were read, the failure names [GITHUB_TOKEN] if
    that one is missing, else [X_BEARER_TOKEN]. *)
Theorem X11_missing_credential_stops_run (w : World) (i : Inputs) :
  opt_truthy (env_GITHUB_TOKEN i) = false \/ opt_truthy (env_X_BEARER_TOKEN i) = false ->
  (exists message, run w i = [SetFailed message])
  /\ ((exists from, input_from i = Ok from) ->
      (exists include, input_include_start_commit i = Ok include) ->
      run w i =
        [SetFailed
           (if opt_truthy (env_GITHUB_TOKEN i)
            then js "X_BEARER_TOKEN environment variable is required to post to X."
            else js "GITHUB_TOKEN environment variable is required to call GitHub Models API.")]).
Proof.
  intros Hmissing.
  assert (H : exists message,
            run_collect w i = ([], Err message)
            /\ ((exists from, input_from i = Ok from) ->
                (exists include, input_include_start_commit i = Ok include) ->
                message =
                  if opt_truthy (env_GITHUB_TOKEN i)
                  then js "X_BEARER_TOKEN environment variable is required to post to X."
                  else js "GITHUB_TOKEN environment variable is required to call GitHub Models API.")).
  { unfold run_collect.
    destruct (input_from i) as [from | e1];
      [rewrite bind_lift_ok | eexists; split; [reflexivity |];
                              intros (x & Hx) _; discriminate].
    destruct (input_include_start_commit i) as [include | e2];
      [rewrite bind_lift_ok | eexists; split; [reflexivity |];
                              intros _ (x & Hx); discriminate].
    destruct (opt_truthy (env_GITHUB_TOKEN i)) eqn:Egh.
    - destruct (requireEnv_ok _ (js "GITHUB_TOKEN environment variable is required to call GitHub Models API.") Egh) as (gh & ->).
      rewrite bind_lift_ok.
      destruct Hmissing as [Hgh | Hxb]; [discriminate |].
      rewrite (requireEnv_missing _ _ Hxb), bind_lift_err.
      eexists; split; reflexivity.
    - rewrite (requireEnv_missing _ _ Egh), bind_lift_err.
      eexists; split; reflexivity. }
  destruct H as (message & Hcollect & Hmessage).
  assert (Hrun : run w i = [SetFailed message]).
  { unfold run, run_try. now rewrite Hcollect. }
  split; [now exists message |].
  intros Hfrom Hinclude. now rewrite Hrun, (Hmessage Hfrom Hinclude).
Qed.

(** No token for the publish service. *)
Lemma X11_missing_credential_stops_run_witness :
  run (Demo.world Demo.twoCommits (js "Hi"))
      (Cases.withTokens (Demo.inputs false [] []) (Some (js "gh")) None)
  = [SetFailed (js "X_BEARER_TOKEN environment variable is required to post to X.")].
Proof.
  refine (proj2 (@X11_missing_credential_stops_run
                   (Demo.world Demo.twoCommits (js "Hi"))
                   (Cases.withTokens (Demo.inputs false [] []) (Some (js "gh")) None)
                   (or_intror eq_refl)) _ _).
  - eexists. reflexivity.
  - eexists. reflexivity.
Defined.

Lemma resolveCommit_trace (w : World) (ref : jsstring) :
  resolveCommit w ref
  = ([Debug (js "Executing: " ++ js "git rev-parse " ++ ref);
      Exec (js "git rev-parse " ++ ref)],
     snd (resolveCommit w ref)).
Proof.
  unfold resolveCommit. rewrite runCommand_outcome.
  now destruct (execSync w (js "git rev-parse " ++ ref)).
Qed.

Lemma listCommitsInRange_trace (w : World) (fromSha toSha : jsstring) :
  listCommitsInRange w fromSha toSha
  = ([Debug (js "Executing: " ++ js "git rev-list --reverse " ++ fromSha ++ js ".." ++ toSha);
      Exec (js "git rev-list --reverse " ++ fromSha ++ js ".." ++ toSha)],
     snd (listCommitsInRange w fromSha toSha)).
Proof.
  unfold listCommitsInRange. rewrite runCommand_outcome.
  destruct (execSync w _) as [out |]; [| reflexivity].
  rewrite bind_ok. cbn [rethrow fst snd].
  now destruct (negb (truthy (trim out))).
Qed.

(** X12. A run whose collection succeeds has run exactly three commands,
    in this order: [git rev-parse] of the trimmed [from] input,
    [git rev-parse] of the trimmed [to] input or of [HEAD] when that is
    empty, and [git rev-list --reverse] of the two ids these returned. *)
Theorem X12_collection_commands (w : World) (i : Inputs) (pre : list event) (v : Locals) :
  run_collect w i = (pre, Ok v) ->
  exists from,
    input_from i = Ok from
    /\ snd (resolveCommit w (trim from)) = Ok (v_fromSha v)
    /\ snd (resolveCommit w (or_else (trim (input_to i)) (js "HEAD"))) = Ok (v_toSha v)
    /\ execs pre =
         [js "git rev-parse " ++ trim from;
          js "git rev-parse " ++ or_else (trim (input_to i)) (js "HEAD");
          js "git rev-list --reverse " ++ v_fromSha v ++ js ".." ++ v_toSha v].
Proof.
  intros H. unfold run_collect in H.
  destruct (input_from i) as [from |]; [rewrite bind_lift_ok in H | discriminate].
  destruct (input_include_start_commit i) as [include |];
    [rewrite bind_lift_ok in H | discriminate].
  destruct (requireEnv (env_GITHUB_TOKEN i) _); [rewrite bind_lift_ok in H | discriminate].
  destruct (requireEnv (env_X_BEARER_TOKEN i) _); [rewrite bind_lift_ok in H | discriminate].
  destruct (checkMaxDiffChars _); [rewrite bind_lift_ok in H | discriminate].
  destruct (checkMaxOutputTokens _); [rewrite bind_lift_ok in H | discriminate].
  destruct (checkTemperature _); [rewrite bind_lift_ok in H | discriminate].
  rewrite (resolveCommit_trace w (trim from)) in H.
  destruct (snd (resolveCommit w (trim from))) as [fromSha |] eqn:Efrom;
    [rewrite bind_ok in H | discriminate].
  cbv beta zeta in H.
  rewrite (resolveCommit_trace w (or_else (trim (input_to i)) (js "HEAD"))) in H.
  destruct (snd (resolveCommit w (or_else (trim (input_to i)) (js "HEAD"))))
    as [toSha |] eqn:Eto; [rewrite bind_ok in H | discriminate].
  cbv beta zeta in H.
  rewrite (listCommitsInRange_trace w fromSha toSha) in H.
  destruct (snd (listCommitsInRange w fromSha toSha)) as [range |];
    [rewrite bind_ok in H | discriminate].
  cbn [ret fst snd app] in H. injection H as <- <-.
  exists from. cbn [v_fromSha v_toSha]. repeat split; assumption || reflexivity.
Qed.

(** The fake repository, [from] given as [ v1 ] and no [to]. *)
Lemma X12_collection_commands_witness :
  exists pre,
    fst (run_collect (Demo.world Demo.twoCommits (js "Hi")) (Demo.inputs false [] [])) = pre
    /\ execs pre = [js "git rev-parse v1"; js "git rev-parse HEAD";
                    js "git rev-list --reverse v1..HEAD"].
Proof.
  destruct (@X12_collection_commands (Demo.world Demo.twoCommits (js "Hi"))
              (Demo.inputs false [] [])
              (fst (run_collect (Demo.world Demo.twoCommits (js "Hi"))
                      (Demo.inputs false [] [])))
              _ eq_refl) as (from & Hfrom & _ & _ & Hexecs).
  eexists. split; [reflexivity |].
  injection Hfrom as <-. exact Hexecs.
Defined.

(** ** The whole trace of a run that has commits to summarise *)

Lemma failures_app (a b : list event) : failures (a ++ b) = failures a ++ failures b.
Proof. apply flat_map_app. Qed.

Lemma notices_app (a b : list event) : notices (a ++ b) = notices a ++ notices b.
Proof. apply flat_map_app. Qed.

Lemma execs_app (a b : list event) : execs (a ++ b) = execs a ++ execs b.
Proof. apply flat_map_app. Qed.

Lemma local_outputs (evs : list event) : forallb is_local evs = true -> outputs evs = [].
Proof.
  induction evs as [| e evs IH]; [reflexivity |]. simpl.
  destruct e; simpl; try discriminate; exact IH.
Qed.

Lemma local_notices (evs : list event) : forallb is_local evs = true -> notices evs = [].
Proof.
  induction evs as [| e evs IH]; [reflexivity |]. simpl.
  destruct e; simpl; try discriminate; exact IH.
Qed.

Lemma local_no_failures (evs : list event) :
  forallb is_local evs = true -> failures evs = [].
Proof.
  induction evs as [| e evs IH]; [reflexivity |]. simpl.
  destruct e; simpl; try discriminate; exact IH.
Qed.

Lemma run_publish_trace (w : World) (v : Locals) :
  v_commitOrder v <> [] ->
  fst (run_publish w v)
  ++ match snd (run_publish w v) with Ok _ => [] | Err message => [SetFailed message] end
  = fst (collectSummaries w v)
      ++ match snd (collectSummaries w v) with
         | Err message => [SetFailed message]
         | Ok summaries => publishTrace w v summaries
         end.
Proof.
  intros Horder. unfold run_publish.
  destruct (v_commitOrder v) as [| sha others]; [congruence |].
  destruct (collectSummaries w v) as [evs [summaries | message]];
    [| rewrite bind_err; reflexivity].
  rewrite bind_ok. cbv beta zeta. cbn [fst snd]. rewrite <- app_assoc. f_equal.
  unfold publishTrace. rewrite bind_emit. cbn [fst snd app]. f_equal.
  destruct (callModel_trace w (v_githubToken v) (v_model v) (v_temperature v)
              (v_maxOutputTokens v)
              (or_else (v_systemPromptInput v) DEFAULT_SYSTEM_PROMPT)
              (runPrompt v summaries)) as (rc & Hcall).
  fold (chatRequest v (runPrompt v summaries)) in Hcall. rewrite Hcall.
  destruct rc as [post | message]; [| rewrite bind_err; reflexivity].
  rewrite bind_ok, bind_emit. cbn [fst snd app]. do 2 f_equal.
  destruct (postEndpoint w (if truthy (v_communityInput v)
                            then Some (v_communityInput v) else None))
    as [endpoint | message] eqn:Hend.
  2:{ rewrite (postToX_refused w post (v_xBearerToken v) _ Hend), bind_err.
      reflexivity. }
  destruct (postToX_trace w post (v_xBearerToken v) _ Hend) as (rp & Hpost).
  fold (publishRequest v endpoint post) in Hpost. rewrite Hpost.
  destruct rp as [x | message]; [| rewrite bind_err; reflexivity].
  rewrite bind_ok. cbn [fst snd app]. f_equal.
  unfold reportTrace. fold (postIdOf x). fold (postUrlOf (postIdOf x)).
  fold (summaryMarkdown post (postUrlOf (postIdOf x))).
  rewrite !bind_emit. cbn [fst snd app].
  now destruct (summary_write w (summaryMarkdown post (postUrlOf (postIdOf x)))) as [[] |].
Qed.

(** The events of a run whose collection gave commits to summarise. *)
Lemma run_proceeds (w : World) (i : Inputs) (pre : list event) (v : Locals) :
  run_collect w i = (pre, Ok v) ->
  v_commitOrder v <> [] ->
  run w i =
    pre ++ fst (collectSummaries w v)
      ++ match snd (collectSummaries w v) with
         | Err message => [SetFailed message]
         | Ok summaries => publishTrace w v summaries
         end.
Proof.
  intros Hcollect Horder.
  rewrite <- (run_publish_trace w v Horder).
  unfold run, run_try. rewrite Hcollect, bind_ok.
  destruct (run_publish w v) as [evs [u | message]]; cbn [fst snd];
    [now rewrite app_nil_r | now rewrite app_assoc].
Qed.

Lemma run_empty_range (w : World) (i : Inputs) (pre : list event) (v : Locals) :
  run_collect w i = (pre, Ok v) ->
  v_commitOrder v = [] ->
  run w i =
    pre ++ [Notice (js "No commits found between " ++ v_fromSha v ++ js " and "
                      ++ v_toSha v ++ js ". Skipping X post.");
            SetOutput (js "generated-post") [];
            SetOutput (js "post-id") [];
            SetOutput (js "post-url") [];
            SetOutput (js "community-id") (v_communityInput v)].
Proof.
  intros Hcollect Hempty. unfold run, run_try. rewrite Hcollect, bind_ok.
  unfold run_publish. rewrite Hempty. reflexivity.
Qed.

Lemma collected_is_local (w : World) (i : Inputs) (pre : list event) (r : result Locals) :
  run_collect w i = (pre, r) -> forallb is_local pre = true.
Proof.
  intros H. pose proof (local_run_collect w i) as Hl. now rewrite H in Hl.
Qed.

(** X13. A run sends at most two requests.  The first is always the
    completion request for the prompt built from the collected
    summaries; the publish request comes second, only after the
    completion returned a post, and carries that post. *)
Theorem X13_requests_of_a_run (w : World) (i : Inputs) :
  fetches (run w i) = []
  \/ exists pre v summaries,
       run_collect w i = (pre, Ok v)
       /\ snd (collectSummaries w v) = Ok summaries
       /\ (fetches (run w i) = [chatRequest v (runPrompt v summaries)]
           \/ exists post endpoint,
                snd (callModel w (v_githubToken v) (v_model v) (v_temperature v)
                       (v_maxOutputTokens v)
                       (or_else (v_systemPromptInput v) DEFAULT_SYSTEM_PROMPT)
                       (runPrompt v summaries)) = Ok post
                /\ postEndpoint w (if truthy (v_communityInput v)
                                   then Some (v_communityInput v) else None) = Ok endpoint
                /\ fetches (run w i) =
                     [chatRequest v (runPrompt v summaries);
                      publishRequest v endpoint post]).
Proof.
  destruct (run_collect w i) as [pre [v | message]] eqn:Hcollect;
    [| left; now apply (run_fetches_failed w i Hcollect)].
  pose proof (collected_is_local w i Hcollect) as Hpre.
  destruct (v_commitOrder v) as [| sha others] eqn:Horder.
  { left. rewrite (run_empty_range w i Hcollect Horder), fetches_app.
    now rewrite (local_fetches pre Hpre). }
  assert (Hne : v_commitOrder v <> []) by (rewrite Horder; discriminate).
  rewrite (run_proceeds w i Hcollect Hne).
  pose proof (local_collectSummaries w v) as Hevs.
  rewrite !fetches_app, (local_fetches pre Hpre), (local_fetches _ Hevs).
  destruct (snd (collectSummaries w v)) as [summaries | message] eqn:Hsum;
    [| now left].
  right. exists pre, v, summaries. split; [reflexivity |]. split; [exact Hsum |].
  unfold publishTrace.
  destruct (snd (callModel w _ _ _ _ _ _)) as [post | message]; [| now left].
  destruct (postEndpoint w _) as [endpoint | message]; [| now left].
  right. exists post, endpoint. split; [reflexivity |]. split; [reflexivity |].
  cbn [app fetches flat_map]. do 2 f_equal.
  destruct (snd (postToX w _ _ _)) as [x | message]; [| reflexivity].
  unfold reportTrace. cbn [app fetches flat_map].
  now destruct (summary_write w _).
Qed.

(** X14. When the completion fails, for whatever reason, the run stops
    there: the completion request is the only request, nothing is
    published, no output is set, and the failure reported is the error
    of the completion. *)
Theorem X14_failed_completion_publishes_nothing (w : World) (i : Inputs)
  (pre evs : list event) (v : Locals) (summaries : list jsstring) (message : jsstring) :
  run_collect w i = (pre, Ok v) ->
  v_commitOrder v <> [] ->
  collectSummaries w v = (evs, Ok summaries) ->
  snd (callModel w (v_githubToken v) (v_model v) (v_temperature v) (v_maxOutputTokens v)
         (or_else (v_systemPromptInput v) DEFAULT_SYSTEM_PROMPT) (runPrompt v summaries))
    = Err message ->
  run w i =
    pre ++ evs
      ++ [Info (js "Requesting post copy from model " ++ dq ++ v_model v ++ dq ++ js "...");
          Fetch (chatRequest v (runPrompt v summaries));
          SetFailed message]
  /\ fetches (run w i) = [chatRequest v (runPrompt v summaries)]
  /\ outputs (run w i) = [].
Proof.
  intros Hcollect Horder Hsum Hcall.
  pose proof (collected_is_local w i Hcollect) as Hpre.
  pose proof (local_collectSummaries w v) as Hevs. rewrite Hsum in Hevs.
  cbn [fst] in Hevs.
  assert (Hrun : run w i =
    pre ++ evs
      ++ [Info (js "Requesting post copy from model " ++ dq ++ v_model v ++ dq ++ js "...");
          Fetch (chatRequest v (runPrompt v summaries));
          SetFailed message]).
  { rewrite (run_proceeds w i Hcollect Horder), Hsum. cbn [fst snd].
    unfold publishTrace. now rewrite Hcall. }
  rewrite Hrun. split; [reflexivity |]. split.
  - now rewrite !fetches_app, (local_fetches pre Hpre), (local_fetches evs Hevs).
  - now rewrite !outputs_app, (local_outputs pre Hpre), (local_outputs evs Hevs).
Qed.

(** The completion service answers 500. *)
Lemma X14_failed_completion_publishes_nothing_witness :
  outputs (run (Cases.world (Demo.exec Demo.twoCommits)
                  (Ok (Cases.chatResponse false 500 (js "overloaded") (Err [])))
                  Cases.goodX (Ok tt))
               (Demo.inputs false [] [])) = []
  /\ failures (run (Cases.world (Demo.exec Demo.twoCommits)
                      (Ok (Cases.chatResponse false 500 (js "overloaded") (Err [])))
                      Cases.goodX (Ok tt))
                   (Demo.inputs false [] []))
     = [js "Model request failed with status 500: overloaded"].
Proof.
  destruct (@X14_failed_completion_publishes_nothing
              (Cases.world (Demo.exec Demo.twoCommits)
                 (Ok (Cases.chatResponse false 500 (js "overloaded") (Err [])))
                 Cases.goodX (Ok tt))
              (Demo.inputs false [] []) _ _ _ _
              (js "Model request failed with status 500: overloaded")
              ltac:(vm_compute; reflexivity) ltac:(discriminate)
              ltac:(vm_compute; reflexivity) ltac:(reflexivity))
    as (Hrun & _ & Hout).
  split; [exact Hout |]. rewrite Hrun. vm_compute. reflexivity.
Defined.

(** X20. When a read of any commit fails the run stops before it asks
    for anything: no request is sent, no output is set, and the failure
    reported is the error of the read; there is no partial prompt. *)
Theorem X20_failed_read_stops_run (w : World) (i : Inputs)
  (pre evs : list event) (v : Locals) (message : jsstring) :
  run_collect w i = (pre, Ok v) ->
  v_commitOrder v <> [] ->
  collectSummaries w v = (evs, Err message) ->
  run w i = pre ++ evs ++ [SetFailed message]
  /\ fetches (run w i) = []
  /\ outputs (run w i) = [].
Proof.
  intros Hcollect Horder Hsum.
  pose proof (collected_is_local w i Hcollect) as Hpre.
  pose proof (local_collectSummaries w v) as Hevs. rewrite Hsum in Hevs.
  cbn [fst] in Hevs.
  assert (Hrun : run w i = pre ++ evs ++ [SetFailed message]).
  { now rewrite (run_proceeds w i Hcollect Horder), Hsum. }
  rewrite Hrun. split; [reflexivity |]. split.
  - now rewrite !fetches_app, (local_fetches pre Hpre), (local_fetches evs Hevs).
  - now rewrite !outputs_app, (local_outputs pre Hpre), (local_outputs evs Hevs).
Qed.

(** The body of the first commit cannot be read. *)
Lemma X20_failed_read_stops_run_witness :
  fetches (run (Cases.world Cases.brokenBody Cases.goodChat Cases.goodX (Ok tt))
               (Demo.inputs false [] [])) = []
  /\ failures (run (Cases.world Cases.brokenBody Cases.goodChat Cases.goodX (Ok tt))
                   (Demo.inputs false [] [])) = [js "Command failed"].
Proof.
  destruct (@X20_failed_read_stops_run
              (Cases.world Cases.brokenBody Cases.goodChat Cases.goodX (Ok tt))
              (Demo.inputs false [] []) _ _ _ (js "Command failed")
              ltac:(vm_compute; reflexivity) ltac:(discriminate)
              ltac:(vm_compute; reflexivity))
    as (Hrun & Hfetch & _).
  split; [exact Hfetch |]. rewrite Hrun. vm_compute. reflexivity.
Defined.

(** X15. A completion content made only of white space passes the
    content check, because it is not the empty string; the generated
    post is then the empty string, and this empty post is what the
    publish request carries. *)
Theorem X15_blank_content_publishes_empty_post (w : World) (i : Inputs)
  (pre evs : list event) (v : Locals) (summaries : list jsstring)
  (resp : response completion) (d : completion) (c endpoint : jsstring) :
  run_collect w i = (pre, Ok v) ->
  v_commitOrder v <> [] ->
  collectSummaries w v = (evs, Ok summaries) ->
  fetch_models w (chatRequest v (runPrompt v summaries)) = Ok resp ->
  ok resp = true ->
  response_json resp = Ok (Some d) ->
  firstChoiceContent d = Some c ->
  c <> [] ->
  forallb is_space c = true ->
  postEndpoint w (if truthy (v_communityInput v) then Some (v_communityInput v) else None)
    = Ok endpoint ->
  snd (callModel w (v_githubToken v) (v_model v) (v_temperature v) (v_maxOutputTokens v)
         (or_else (v_systemPromptInput v) DEFAULT_SYSTEM_PROMPT) (runPrompt v summaries))
    = Ok []
  /\ fetches (run w i) =
       [chatRequest v (runPrompt v summaries); publishRequest v endpoint []].
Proof.
  intros Hcollect Horder Hsum Hfetch Hok Hjson Hcontent Hc Hblank Hend.
  pose proof (callModel_content w (v_githubToken v) (v_model v) (v_temperature v)
                (v_maxOutputTokens v)
                (or_else (v_systemPromptInput v) DEFAULT_SYSTEM_PROMPT)
                (runPrompt v summaries) Hfetch Hok Hjson Hcontent Hc) as Hcall.
  cbv zeta in Hcall. rewrite (proj2 (trim_nil_iff c) Hblank) in Hcall.
  split; [now rewrite Hcall |].
  pose proof (collected_is_local w i Hcollect) as Hpre.
  pose proof (local_collectSummaries w v) as Hevs.
  rewrite (run_proceeds w i Hcollect Horder), Hsum.
  rewrite Hsum in Hevs. cbn [fst snd] in *.
  rewrite !fetches_app, (local_fetches pre Hpre), (local_fetches evs Hevs).
  unfold publishTrace. rewrite Hcall, Hend. cbn [snd app fetches flat_map].
  do 2 f_equal.
  destruct (snd (postToX w _ _ _)) as [x | message]; [| reflexivity].
  unfold reportTrace. cbn [app fetches flat_map].
  now destruct (summary_write w _).
Qed.

(** The model answers with three blanks. *)
Lemma X15_blank_content_publishes_empty_post_witness :
  exists v summaries,
    fetches (run (Demo.world Demo.twoCommits (js "   ")) (Demo.inputs false [] []))
    = [chatRequest v (runPrompt v summaries); publishRequest v TWEETS_ENDPOINT []].
Proof.
  eexists. eexists.
  refine (proj2
    (@X15_blank_content_publishes_empty_post
       (Demo.world Demo.twoCommits (js "   ")) (Demo.inputs false [] [])
       _ _ _ _ _ _ (js "   ") TWEETS_ENDPOINT _ _ _ _ _ _ _ _ _ _)).
  - vm_compute. reflexivity.
  - discriminate.
  - vm_compute. reflexivity.
  - reflexivity.
  - reflexivity.
  - reflexivity.
  - reflexivity.
  - discriminate.
  - reflexivity.
  - reflexivity.
Defined.

Lemma truthy_join_comma (l : list jsstring) :
  (forall s, In s l -> s <> []) -> truthy (join (js ", ") l) = truthy (hd [] l).
Proof.
  intros Hl. destruct l as [| x l]; [reflexivity |].
  assert (Hx : x <> []) by (apply Hl; now left).
  destruct x as [| c x]; [congruence |]. destruct l; reflexivity.
Qed.

(** X16. The message of a refused publish request is taken from the
    first of three places that has something to say: the non-empty
    messages the platform listed, joined by a comma and a blank in the
    order listed; else the title of the payload; else the status text of
    the response.  A payload that is [null], lists no error, or lists
    only errors without a message falls through to the next place. *)
Theorem X16_xErrorMessage_precedence (payload : option xdata) (statusText : jsstring) :
  let listed :=
    match payload with
    | Some d => match errors d with Some l => listedMessages l | None => [] end
    | None => []
    end in
  let heading :=
    match payload with Some d => opt_or (title d) [] | None => [] end in
  (listed <> [] -> xErrorMessage payload statusText = join (js ", ") listed)
  /\ (listed = [] -> heading <> [] -> xErrorMessage payload statusText = heading)
  /\ (listed = [] -> heading = [] -> xErrorMessage payload statusText = statusText)
  /\ (forall m, In m listed -> m <> []).
Proof.
  cbv zeta.
  assert (Hlisted : forall l m, In m (listedMessages l) -> m <> []).
  { intros l m Hm. unfold listedMessages in Hm. apply filter_In in Hm.
    now apply truthy_true_iff. }
  unfold xErrorMessage. destruct payload as [d |]; cbn [opt_or].
  2:{ repeat split; try congruence; try reflexivity. intros m []. }
  destruct (errors d) as [l |].
  - fold (listedMessages l). cbn [opt_or]. rewrite (truthy_join_comma _ (Hlisted l)).
    destruct (listedMessages l) as [| m ms] eqn:El.
    + cbn [hd truthy]. repeat split; try congruence.
      * intros _ Hh. unfold opt_or in *. destruct (title d) as [t |]; [| congruence].
        destruct (truthy t); [reflexivity | congruence].
      * intros _ Hh. unfold opt_or in *. destruct (title d) as [t |]; [| reflexivity].
        destruct (truthy t) eqn:Et; [| reflexivity]. subst t. discriminate Et.
      * intros m [].
    + assert (Hm : m <> []) by (apply (Hlisted l); rewrite El; now left).
      cbn [hd]. rewrite (proj2 (truthy_true_iff m) Hm).
      repeat split; try congruence. intros x Hx. apply (Hlisted l). now rewrite El.
  - cbn [opt_or]. repeat split; try congruence.
    + intros _ Hh. unfold opt_or in *. destruct (title d) as [t |]; [| congruence].
      destruct (truthy t); [reflexivity | congruence].
    + intros _ Hh. unfold opt_or in *. destruct (title d) as [t |]; [| reflexivity].
      destruct (truthy t) eqn:Et; [| reflexivity]. subst t. discriminate Et.
    + intros m [].
Qed.

(** ** After the publish request *)

(** The events of a run up to and including the publish request. *)
Lemma run_published (w : World) (i : Inputs) (pre evs : list event) (v : Locals)
  (summaries : list jsstring) (post endpoint : jsstring) :
  run_collect w i = (pre, Ok v) ->
  v_commitOrder v <> [] ->
  collectSummaries w v = (evs, Ok summaries) ->
  snd (callModel w (v_githubToken v) (v_model v) (v_temperature v) (v_maxOutputTokens v)
         (or_else (v_systemPromptInput v) DEFAULT_SYSTEM_PROMPT) (runPrompt v summaries))
    = Ok post ->
  postEndpoint w (if truthy (v_communityInput v) then Some (v_communityInput v) else None)
    = Ok endpoint ->
  run w i =
    pre ++ evs
      ++ [Info (js "Requesting post copy from model " ++ dq ++ v_model v ++ dq ++ js "...");
          Fetch (chatRequest v (runPrompt v summaries));
          Info (js "Publishing generated post to X...");
          Fetch (publishRequest v endpoint post)]
      ++ match snd (postToX w post (v_xBearerToken v)
                      (if truthy (v_communityInput v)
                       then Some (v_communityInput v) else None)) with
         | Err message => [SetFailed message]
         | Ok x => reportTrace w v post x
         end.
Proof.
  intros Hcollect Horder Hsum Hcall Hend.
  rewrite (run_proceeds w i Hcollect Horder), Hsum. cbn [fst snd].
  unfold publishTrace. now rewrite Hcall, Hend.
Qed.

(** X17. When the publish request is refused or its answer cannot be
    read, the run reports that error after both requests were sent and
    sets no output at all: the generated post is not reported either. *)
Theorem X17_failed_publish_sets_no_output (w : World) (i : Inputs)
  (pre evs : list event) (v : Locals) (summaries : list jsstring)
  (post endpoint message : jsstring) :
  run_collect w i = (pre, Ok v) ->
  v_commitOrder v <> [] ->
  collectSummaries w v = (evs, Ok summaries) ->
  snd (callModel w (v_githubToken v) (v_model v) (v_temperature v) (v_maxOutputTokens v)
         (or_else (v_systemPromptInput v) DEFAULT_SYSTEM_PROMPT) (runPrompt v summaries))
    = Ok post ->
  postEndpoint w (if truthy (v_communityInput v) then Some (v_communityInput v) else None)
    = Ok endpoint ->
  snd (postToX w post (v_xBearerToken v)
         (if truthy (v_communityInput v) then Some (v_communityInput v) else None))
    = Err message ->
  run w i =
    pre ++ evs
      ++ [Info (js "Requesting post copy from model " ++ dq ++ v_model v ++ dq ++ js "...");
          Fetch (chatRequest v (runPrompt v summaries));
          Info (js "Publishing generated post to X...");
          Fetch (publishRequest v endpoint post);
          SetFailed message]
  /\ outputs (run w i) = []
  /\ fetches (run w i) =
       [chatRequest v (runPrompt v summaries); publishRequest v endpoint post].
Proof.
  intros Hcollect Horder Hsum Hcall Hend Hpost.
  pose proof (collected_is_local w i Hcollect) as Hpre.
  pose proof (local_collectSummaries w v) as Hevs. rewrite Hsum in Hevs.
  cbn [fst] in Hevs.
  rewrite (run_published w i Hcollect Horder Hsum Hcall Hend), Hpost.
  split; [reflexivity |]. split.
  - now rewrite !outputs_app, (local_outputs pre Hpre), (local_outputs evs Hevs).
  - now rewrite !fetches_app, (local_fetches pre Hpre), (local_fetches evs Hevs).
Qed.

(** The platform answers 403 and lists two errors, one without text. *)
Lemma X17_failed_publish_sets_no_output_witness :
  outputs (run (Cases.world (Demo.exec Demo.twoCommits) Cases.goodChat
                  (Ok (Cases.xResponse false 403 (js "Forbidden")
                         (Ok (Some {| errors := Some [Some {| error_message := Some (js "denied") |};
                                                      Some {| error_message := None |};
                                                      Some {| error_message := Some (js "try later") |}];
                                      title := Some (js "Refused");
                                      data := None |}))))
                  (Ok tt))
               (Demo.inputs false [] [])) = []
  /\ failures (run (Cases.world (Demo.exec Demo.twoCommits) Cases.goodChat
                      (Ok (Cases.xResponse false 403 (js "Forbidden")
                             (Ok (Some {| errors := Some [Some {| error_message := Some (js "denied") |};
                                                          Some {| error_message := None |};
                                                          Some {| error_message := Some (js "try later") |}];
                                          title := Some (js "Refused");
                                          data := None |}))))
                      (Ok tt))
                   (Demo.inputs false [] []))
     = [js "X API request failed (403): denied, try later"].
Proof.
  destruct (@X17_failed_publish_sets_no_output
              (Cases.world (Demo.exec Demo.twoCommits) Cases.goodChat
                 (Ok (Cases.xResponse false 403 (js "Forbidden")
                        (Ok (Some {| errors := Some [Some {| error_message := Some (js "denied") |};
                                                     Some {| error_message := None |};
                                                     Some {| error_message := Some (js "try later") |}];
                                     title := Some (js "Refused");
                                     data := None |}))))
                 (Ok tt))
              (Demo.inputs false [] []) _ _ _ _ _ TWEETS_ENDPOINT
              (js "X API request failed (403): denied, try later")
              ltac:(vm_compute; reflexivity) ltac:(discriminate)
              ltac:(vm_compute; reflexivity) ltac:(vm_compute; reflexivity)
              ltac:(reflexivity) ltac:(vm_compute; reflexivity))
    as (Hrun & Hout & _).
  split; [exact Hout |]. rewrite Hrun. vm_compute. reflexivity.
Defined.

(** X18. When the post is published and the summary is written, the run
    ends without a failure after setting four outputs in this order: the
    generated post, the id the platform returned (empty when it returned
    none), the public address built from that id (empty exactly when the
    id is empty), and the trimmed community input. *)
Theorem X18_published_outputs (w : World) (i : Inputs)
  (pre evs : list event) (v : Locals) (summaries : list jsstring)
  (post endpoint : jsstring) (x : option xdata) :
  run_collect w i = (pre, Ok v) ->
  v_commitOrder v <> [] ->
  collectSummaries w v = (evs, Ok summaries) ->
  snd (callModel w (v_githubToken v) (v_model v) (v_temperature v) (v_maxOutputTokens v)
         (or_else (v_systemPromptInput v) DEFAULT_SYSTEM_PROMPT) (runPrompt v summaries))
    = Ok post ->
  postEndpoint w (if truthy (v_communityInput v) then Some (v_communityInput v) else None)
    = Ok endpoint ->
  snd (postToX w post (v_xBearerToken v)
         (if truthy (v_communityInput v) then Some (v_communityInput v) else None))
    = Ok x ->
  summary_write w (summaryMarkdown post (postUrlOf (postIdOf x))) = Ok tt ->
  outputs (run w i) =
    [(js "generated-post", post);
     (js "post-id", postIdOf x);
     (js "post-url", postUrlOf (postIdOf x));
     (js "community-id", trim (input_community i))]
  /\ failures (run w i) = []
  /\ (postUrlOf (postIdOf x) = [] <-> postIdOf x = [])
  /\ (postIdOf x <> [] ->
        postUrlOf (postIdOf x) = js "https://x.com/i/web/status/" ++ postIdOf x)
  /\ exists before,
       run w i = before ++ [SummaryWrite (summaryMarkdown post (postUrlOf (postIdOf x)));
                            Info (js "Post published successfully.")].
Proof.
  intros Hcollect Horder Hsum Hcall Hend Hpost Hwrite.
  pose proof (collected_is_local w i Hcollect) as Hpre.
  pose proof (local_collectSummaries w v) as Hevs. rewrite Hsum in Hevs.
  cbn [fst] in Hevs.
  destruct (run_collect_locals w i Hcollect) as (Hcommunity & _).
  rewrite (run_published w i Hcollect Horder Hsum Hcall Hend), Hpost.
  unfold reportTrace. rewrite Hwrite, <- Hcommunity.
  split; [| split; [| split; [| split]]].
  - now rewrite !outputs_app, (local_outputs pre Hpre), (local_outputs evs Hevs).
  - now rewrite !failures_app, (local_no_failures pre Hpre), (local_no_failures evs Hevs).
  - unfold postUrlOf. destruct (postIdOf x); cbn; split; congruence.
  - intros Hid. unfold postUrlOf. now rewrite (proj2 (truthy_true_iff _) Hid).
  - exists (pre ++ evs
              ++ [Info (js "Requesting post copy from model " ++ dq ++ v_model v ++ dq ++ js "...");
                  Fetch (chatRequest v (runPrompt v summaries));
                  Info (js "Publishing generated post to X...");
                  Fetch (publishRequest v endpoint post);
                  SetOutput (js "generated-post") post;
                  SetOutput (js "post-id") (postIdOf x);
                  SetOutput (js "post-url") (postUrlOf (postIdOf x));
                  SetOutput (js "community-id") (v_communityInput v)]).
    list_eq.
Qed.

(** The published run of the fake repository. *)
Lemma X18_published_outputs_witness :
  outputs (run (Demo.world Demo.twoCommits (js " Shipped. ")) (Demo.inputs false [] (js " devs ")))
  = [(js "generated-post", js "Shipped.");
     (js "post-id", js "42");
     (js "post-url", js "https://x.com/i/web/status/42");
     (js "community-id", js "devs")].
Proof.
  refine (proj1
    (@X18_published_outputs
       (Demo.world Demo.twoCommits (js " Shipped. ")) (Demo.inputs false [] (js " devs "))
       _ _ _ _ (js "Shipped.") (js "https://api.twitter.com/2/communities/devs/posts")
       (Some {| errors := None; title := None; data := Some {| id := Some (js "42") |} |})
       _ _ _ _ _ _ _)).
  - vm_compute. reflexivity.
  - discriminate.
  - vm_compute. reflexivity.
  - vm_compute. reflexivity.
  - reflexivity.
  - vm_compute. reflexivity.
  - reflexivity.
Defined.

(** X19. When the job summary cannot be written, the post is already
    published and the four outputs are already set; the run then reports
    the error of the summary as its failure. *)
Theorem X19_summary_failure_after_publish (w : World) (i : Inputs)
  (pre evs : list event) (v : Locals) (summaries : list jsstring)
  (post endpoint message : jsstring) (x : option xdata) :
  run_collect w i = (pre, Ok v) ->
  v_commitOrder v <> [] ->
  collectSummaries w v = (evs, Ok summaries) ->
  snd (callModel w (v_githubToken v) (v_model v) (v_temperature v) (v_maxOutputTokens v)
         (or_else (v_systemPromptInput v) DEFAULT_SYSTEM_PROMPT) (runPrompt v summaries))
    = Ok post ->
  postEndpoint w (if truthy (v_communityInput v) then Some (v_communityInput v) else None)
    = Ok endpoint ->
  snd (postToX w post (v_xBearerToken v)
         (if truthy (v_communityInput v) then Some (v_communityInput v) else None))
    = Ok x ->
  summary_write w (summaryMarkdown post (postUrlOf (postIdOf x))) = Err message ->
  failures (run w i) = [message]
  /\ fetches (run w i) =
       [chatRequest v (runPrompt v summaries); publishRequest v endpoint post]
  /\ outputs (run w i) =
       [(js "generated-post", post);
        (js "post-id", postIdOf x);
        (js "post-url", postUrlOf (postIdOf x));
        (js "community-id", trim (input_community i))]
  /\ exists before, run w i = before ++ [SetFailed message].
Proof.
  intros Hcollect Horder Hsum Hcall Hend Hpost Hwrite.
  pose proof (collected_is_local w i Hcollect) as Hpre.
  pose proof (local_collectSummaries w v) as Hevs. rewrite Hsum in Hevs.
  cbn [fst] in Hevs.
  destruct (run_collect_locals w i Hcollect) as (Hcommunity & _).
  rewrite (run_published w i Hcollect Horder Hsum Hcall Hend), Hpost.
  unfold reportTrace. rewrite Hwrite, <- Hcommunity.
  split; [| split; [| split]].
  - now rewrite !failures_app, (local_no_failures pre Hpre), (local_no_failures evs Hevs).
  - now rewrite !fetches_app, (local_fetches pre Hpre), (local_fetches evs Hevs).
  - now rewrite !outputs_app, (local_outputs pre Hpre), (local_outputs evs Hevs).
  - exists (pre ++ evs
              ++ [Info (js "Requesting post copy from model " ++ dq ++ v_model v ++ dq ++ js "...");
                  Fetch (chatRequest v (runPrompt v summaries));
                  Info (js "Publishing generated post to X...");
                  Fetch (publishRequest v endpoint post);
                  SetOutput (js "generated-post") post;
                  SetOutput (js "post-id") (postIdOf x);
                  SetOutput (js "post-url") (postUrlOf (postIdOf x));
                  SetOutput (js "community-id") (v_communityInput v);
                  SummaryWrite (summaryMarkdown post (postUrlOf (postIdOf x)))]).
    list_eq.
Qed.

(** The summary file is missing. *)
Lemma X19_summary_failure_after_publish_witness :
  failures (run (Cases.world (Demo.exec Demo.twoCommits) Cases.goodChat Cases.goodX
                   (Err (js "Unable to find environment variable for file command")))
                (Demo.inputs false [] []))
  = [js "Unable to find environment variable for file command"].
Proof.
  refine (proj1
    (@X19_summary_failure_after_publish
       (Cases.world (Demo.exec Demo.twoCommits) Cases.goodChat Cases.goodX
          (Err (js "Unable to find environment variable for file command")))
       (Demo.inputs false [] [])
       _ _ _ _ (js "Shipped login.") TWEETS_ENDPOINT
       (js "Unable to find environment variable for file command")
       (Some {| errors := None; title := None; data := Some {| id := Some (js "42") |} |})
       _ _ _ _ _ _ _)).
  - vm_compute. reflexivity.
  - discriminate.
  - vm_compute. reflexivity.
  - vm_compute. reflexivity.
  - reflexivity.
  - vm_compute. reflexivity.
  - reflexivity.
Defined.

(** ** Reading the commits *)

Lemma buildCommitSummary_reads (w : World) (sha : jsstring) (limit : option Z)
  (paths : list jsstring) (summary : jsstring) :
  snd (buildCommitSummary w sha limit paths) = Ok summary ->
  execs (fst (buildCommitSummary w sha limit paths)) = commitReads paths sha.
Proof.
  unfold buildCommitSummary, readCommitTitle, readCommitBody, readCommitDiff.
  rewrite !runCommand_outcome.
  destruct (execSync w (js "git show -s --format=%s " ++ sha)) as [t |];
    [| discriminate].
  rewrite bind_ok. cbn [ret fst snd app]. rewrite bind_ok. cbn [fst snd].
  destruct (execSync w (js "git show -s --format=%b " ++ sha)) as [b |];
    [| discriminate].
  rewrite bind_ok. cbn [ret fst snd app]. rewrite bind_ok. cbn [fst snd].
  destruct (execSync w (js "git show " ++ sha ++ js " --format= " ++ _)) as [d |];
    [| discriminate].
  intros _. reflexivity.
Qed.

Lemma collect_each (w : World) (v : Locals) (total : nat) (l : list jsstring) :
  forall n evs summaries,
    mapM_index
      (fun sha index =>
         emit (Info (js "Collecting commit " ++ decimal (Z.of_nat index + 1) ++ js "/"
                       ++ decimal (Z.of_nat total) ++ js ": " ++ sha)) ;;
         buildCommitSummary w sha (Some (v_maxDiffChars v)) (v_diffPaths v))
      l n = (evs, Ok summaries) ->
    Forall2 (fun sha s =>
               snd (buildCommitSummary w sha (Some (v_maxDiffChars v)) (v_diffPaths v))
               = Ok s) l summaries
    /\ execs evs = flat_map (commitReads (v_diffPaths v)) l.
Proof.
  induction l as [| sha l IH]; intros n evs summaries H.
  - cbn in H. injection H as <- <-. split; [constructor | reflexivity].
  - cbn [mapM_index] in H. rewrite bind_emit in H.
    destruct (buildCommitSummary w sha (Some (v_maxDiffChars v)) (v_diffPaths v))
      as [e1 [s |]] eqn:Eb; [| discriminate].
    cbn [fst snd] in H. rewrite bind_ok in H.
    match type of H with
    | context [mapM_index ?f l (S n)] =>
        destruct (mapM_index f l (S n)) as [e2 [ss |]] eqn:Em; [| discriminate]
    end.
    rewrite bind_ok in H. cbn [ret fst snd app] in H. injection H as <- <-.
    destruct (IH (S n) e2 ss Em) as [Hall Hexecs].
    split.
    + constructor; [now rewrite Eb | exact Hall].
    + rewrite app_nil_r. cbn [execs flat_map app].
      change (flat_map _ (e1 ++ e2)) with (execs (e1 ++ e2)).
      rewrite execs_app, Hexecs. f_equal.
      pose proof (buildCommitSummary_reads w sha (Some (v_maxDiffChars v)) (v_diffPaths v)) as Hr.
      rewrite Eb in Hr. now apply (Hr s).
Qed.

(** X21. When the summaries are collected, there is exactly one summary
    per collected commit, in the order of the commits, each the summary
    [buildCommitSummary] gives for its commit; the commands run are, for
    each commit in turn, the reads of its title, its body and its
    diff. *)
Theorem X21_one_summary_per_commit (w : World) (v : Locals) (evs : list event)
  (summaries : list jsstring) :
  collectSummaries w v = (evs, Ok summaries) ->
  Forall2 (fun sha s =>
             snd (buildCommitSummary w sha (Some (v_maxDiffChars v)) (v_diffPaths v))
             = Ok s) (v_commitOrder v) summaries
  /\ length summaries = length (v_commitOrder v)
  /\ execs evs = flat_map (commitReads (v_diffPaths v)) (v_commitOrder v).
Proof.
  intros H. unfold collectSummaries in H.
  destruct (collect_each w v _ _ _ H) as [Hall Hexecs].
  split; [exact Hall |]. split; [| exact Hexecs].
  symmetry. eapply Forall2_length. exact Hall.
Qed.

(** The two commits of the fake repository. *)
Lemma X21_one_summary_per_commit_witness :
  exists evs summaries,
    collectSummaries (Demo.world Demo.twoCommits (js "Hi"))
      {| v_model := []; v_systemPromptInput := []; v_extraInstructions := [];
         v_customPrompt := []; v_tone := []; v_callToAction := [];
         v_communityInput := []; v_diffPaths := [js "src"]; v_hashtags := [];
         v_githubToken := []; v_xBearerToken := []; v_maxDiffChars := 4;
         v_maxOutputTokens := Fin 1; v_temperature := Fin 0;
         v_fromSha := js "v1"; v_toSha := js "HEAD";
         v_commitOrder := [js "c1"; js "c2"] |} = (evs, Ok summaries)
    /\ length summaries = 2%nat
    /\ execs evs =
         [js "git show -s --format=%s c1"; js "git show -s --format=%b c1";
          js "git show c1 --format=  -- 'src'";
          js "git show -s --format=%s c2"; js "git show -s --format=%b c2";
          js "git show c2 --format=  -- 'src'"].
Proof.
  eexists. eexists. split; [vm_compute; reflexivity |].
  refine (proj2 (@X21_one_summary_per_commit (Demo.world Demo.twoCommits (js "Hi"))
            {| v_model := []; v_systemPromptInput := []; v_extraInstructions := [];
               v_customPrompt := []; v_tone := []; v_callToAction := [];
               v_communityInput := []; v_diffPaths := [js "src"]; v_hashtags := [];
               v_githubToken := []; v_xBearerToken := []; v_maxDiffChars := 4;
               v_maxOutputTokens := Fin 1; v_temperature := Fin 0;
               v_fromSha := js "v1"; v_toSha := js "HEAD";
               v_commitOrder := [js "c1"; js "c2"] |} _ _ _)).
  vm_compute. reflexivity.
Defined.

Lemma blank_marker (prefix : jsstring) (limit : Z) :
  truthy (trim (prefix ++ truncation_marker limit)) = true.
Proof.
  apply truthy_true_iff. intros H. apply trim_nil_iff in H.
  rewrite forallb_app in H. apply andb_prop in H. destruct H as [_ H].
  unfold truncation_marker in H. discriminate H.
Qed.

(** X24. A diff longer than a positive limit always shows in the
    summary: the last section is the diff preview, made of the first
    [limit] characters of the diff as read (not trimmed) and the marker
    that prints the limit. *)
Theorem X24_truncated_diff_preview (w : World) (commit : jsstring) (limit : Z)
  (diffPaths : list jsstring) (rawTitle rawBody diff : jsstring) :
  execSync w (js "git show -s --format=%s " ++ commit) = Ok rawTitle ->
  execSync w (js "git show -s --format=%b " ++ commit) = Ok rawBody ->
  snd (readCommitDiff w commit diffPaths) = Ok diff ->
  (0 < limit)%Z ->
  (limit < Z.of_nat (length diff))%Z ->
  snd (buildCommitSummary w commit (Some limit) diffPaths)
  = Ok (join blank_line
          ([js "Commit: " ++ commit; js "Title: " ++ trim rawTitle]
             ++ optional (truthy (trim rawBody)) (js "Body:" ++ nl ++ trim rawBody)
             ++ [js "Diff preview:" ++ nl
                   ++ firstn (Z.to_nat limit) diff ++ truncation_marker limit])).
Proof.
  intros Ht Hb Hd Hpos Hlong.
  unfold buildCommitSummary, readCommitTitle, readCommitBody.
  erewrite snd_bind_ok
    by (erewrite snd_bind_ok by (rewrite snd_runCommand; exact Ht); reflexivity).
  erewrite snd_bind_ok
    by (erewrite snd_bind_ok by (rewrite snd_runCommand; exact Hb); reflexivity).
  erewrite snd_bind_ok by exact Hd.
  cbn [ret snd]. rewrite summarySections_layout.
  rewrite (truncateContent_cuts diff Hpos Hlong). cbn [text].
  unfold summary_layout. rewrite blank_marker. reflexivity.
Qed.

(** A limit of 4 on the diff of the fake repository. *)
Lemma X24_truncated_diff_preview_witness :
  snd (buildCommitSummary (Demo.world Demo.twoCommits (js "Hi")) (js "c1") (Some 4%Z) [])
  = Ok (js "Commit: c1" ++ blank_line ++ js "Title: Add login" ++ blank_line
          ++ js "Diff preview:" ++ nl ++ js "diff" ++ nl ++ nl
          ++ js "[Diff truncated to the first 4 characters]").
Proof.
  refine (@X24_truncated_diff_preview (Demo.world Demo.twoCommits (js "Hi")) (js "c1") 4 []
            (js "Add login" ++ nl) nl (js "diff --git a/x b/x" ++ nl)
            eq_refl eq_refl eq_refl _ _).
  - reflexivity.
  - reflexivity.
Defined.

(** ** The end of a run *)

Lemma run_failed_collection (w : World) (i : Inputs) (pre : list event) (message : jsstring) :
  run_collect w i = (pre, Err message) -> run w i = pre ++ [SetFailed message].
Proof. intros H. unfold run, run_try. now rewrite H, bind_err. Qed.

Lemma publishTrace_end (w : World) (v : Locals) (summaries : list jsstring) :
  notices (publishTrace w v summaries) = []
  /\ (failures (publishTrace w v summaries) = []
      \/ exists before message,
           publishTrace w v summaries = before ++ [SetFailed message]
           /\ failures before = []).
Proof.
  unfold publishTrace.
  destruct (snd (callModel w _ _ _ _ _ _)) as [post | m1].
  2:{ split; [reflexivity |]. right. eexists [_; _], m1. split; reflexivity. }
  destruct (postEndpoint w _) as [endpoint | m2].
  2:{ split; [reflexivity |]. right. eexists [_; _; _], m2. split; reflexivity. }
  destruct (snd (postToX w _ _ _)) as [x | m3].
  2:{ split; [reflexivity |]. right. eexists [_; _; _; _], m3. split; reflexivity. }
  unfold reportTrace.
  destruct (summary_write w _) as [[] | m4].
  - split; [reflexivity |]. left. reflexivity.
  - split; [reflexivity |]. right. eexists [_; _; _; _; _; _; _; _; _], m4.
    split; reflexivity.
Qed.

(** X22. A run reports at most one failure, and a reported failure is
    the last thing the run does. *)
Theorem X22_failure_reported_once_at_end (w : World) (i : Inputs) :
  failures (run w i) = []
  \/ exists before message,
       run w i = before ++ [SetFailed message] /\ failures before = [].
Proof.
  destruct (run_collect w i) as [pre [v | message]] eqn:Hcollect.
  2:{ right. exists pre, message. split; [now apply run_failed_collection |].
      apply local_no_failures. now apply (collected_is_local w i Hcollect). }
  pose proof (collected_is_local w i Hcollect) as Hpre.
  destruct (v_commitOrder v) as [| sha others] eqn:Horder.
  { left. rewrite (run_empty_range w i Hcollect Horder), failures_app.
    now rewrite (local_no_failures pre Hpre). }
  assert (Hne : v_commitOrder v <> []) by (rewrite Horder; discriminate).
  rewrite (run_proceeds w i Hcollect Hne).
  pose proof (local_collectSummaries w v) as Hevs.
  destruct (snd (collectSummaries w v)) as [summaries | message].
  - destruct (publishTrace_end w v summaries) as [_ [Hnone | (before & m & Htrace & Hbefore)]].
    + left. now rewrite !failures_app, (local_no_failures pre Hpre),
        (local_no_failures _ Hevs), Hnone.
    + right. exists (pre ++ fst (collectSummaries w v) ++ before), m.
      split; [rewrite Htrace; now rewrite <- !app_assoc |].
      now rewrite !failures_app, (local_no_failures pre Hpre),
        (local_no_failures _ Hevs), Hbefore.
  - right. exists (pre ++ fst (collectSummaries w v)), message.
    split; [now rewrite <- !app_assoc |].
    now rewrite !failures_app, (local_no_failures pre Hpre), (local_no_failures _ Hevs).
Qed.

Lemma collectSummaries_first (w : World) (v : Locals) (sha : jsstring)
  (others : list jsstring) :
  v_commitOrder v = sha :: others ->
  exists rest,
    fst (collectSummaries w v)
    = Info (js "Collecting commit 1/" ++ decimal (Z.of_nat (length (v_commitOrder v)))
              ++ js ": " ++ sha) :: rest.
Proof.
  intros Horder. unfold collectSummaries.
  remember (length (v_commitOrder v)) as total. rewrite Horder.
  cbn [mapM_index]. rewrite fst_bind, bind_emit. cbn [fst app].
  eexists. reflexivity.
Qed.

(** X25. With [include_start_commit] the run never takes the
    empty-range exit: no notice is issued, the collected list starts
    with the from-id, and the first commit the run reads is the from-id,
    also when the range itself is empty. *)
Theorem X25_include_start_never_skips (w : World) (i : Inputs) :
  input_include_start_commit i = Ok true ->
  notices (run w i) = []
  /\ (forall pre v, run_collect w i = (pre, Ok v) ->
        hd_error (v_commitOrder v) = Some (v_fromSha v)
        /\ exists rest,
             run w i =
               pre ++ Info (js "Collecting commit 1/"
                              ++ decimal (Z.of_nat (length (v_commitOrder v)))
                              ++ js ": " ++ v_fromSha v) :: rest).
Proof.
  intros Hinclude.
  assert (Horder : forall pre v, run_collect w i = (pre, Ok v) ->
            exists range, v_commitOrder v = v_fromSha v :: range).
  { intros pre v Hcollect.
    destruct (run_collect_locals w i Hcollect)
      as (_ & _ & _ & include & range & Hi & _ & Ho).
    rewrite Hinclude in Hi. injection Hi as <-. now exists range. }
  split.
  - destruct (run_collect w i) as [pre [v | message]] eqn:Hcollect.
    + pose proof (collected_is_local w i Hcollect) as Hpre.
      destruct (Horder pre v eq_refl) as (range & Hrange).
      assert (Hne : v_commitOrder v <> []) by (rewrite Hrange; discriminate).
      rewrite (run_proceeds w i Hcollect Hne).
      pose proof (local_collectSummaries w v) as Hevs.
      rewrite !notices_app, (local_notices pre Hpre), (local_notices _ Hevs).
      destruct (snd (collectSummaries w v)) as [summaries | message]; [| reflexivity].
      now destruct (publishTrace_end w v summaries) as [-> _].
    + rewrite (run_failed_collection w i Hcollect), notices_app.
      now rewrite (local_notices pre (collected_is_local w i Hcollect)).
  - intros pre v Hcollect. destruct (Horder pre v Hcollect) as (range & Hrange).
    split; [now rewrite Hrange |].
    assert (Hne : v_commitOrder v <> []) by (rewrite Hrange; discriminate).
    rewrite (run_proceeds w i Hcollect Hne).
    destruct (collectSummaries_first w v Hrange) as (rest & ->).
    eexists. cbn [app]. reflexivity.
Qed.

(** An empty range, with the start commit included. *)
Lemma X25_include_start_never_skips_witness :
  notices (run (Demo.world nl (js "Hi")) (Demo.inputs true [] [])) = []
  /\ execs (run (Demo.world nl (js "Hi")) (Demo.inputs true [] []))
     = [js "git rev-parse v1"; js "git rev-parse HEAD";
        js "git rev-list --reverse v1..HEAD";
        js "git show -s --format=%s v1"; js "git show -s --format=%b v1";
        js "git show v1 --format= "].
Proof.
  split.
  - exact (proj1 (@X25_include_start_never_skips (Demo.world nl (js "Hi"))
                    (Demo.inputs true [] []) eq_refl)).
  - vm_compute. reflexivity.
Defined.

(** ** What the prompt holds *)

Lemma occurs_refl (s : jsstring) : occurs s s.
Proof. exists [], []. now rewrite app_nil_r. Qed.

Lemma occurs_trans (a b c : jsstring) : occurs a b -> occurs b c -> occurs a c.
Proof.
  intros (p1 & q1 & ->) (p2 & q2 & ->). exists (p2 ++ p1), (q1 ++ q2).
  now rewrite <- !app_assoc.
Qed.

Lemma occurs_join (sep x : jsstring) (l : list jsstring) :
  In x l -> occurs x (join sep l).
Proof.
  induction l as [| y l IH]; [intros [] |]. intros [-> | Hx].
  - destruct l; [apply occurs_refl | apply occurs_app_l, occurs_refl].
  - destruct l as [| z l]; [destruct Hx |].
    change (join sep (y :: z :: l)) with (y ++ sep ++ join sep (z :: l)).
    now apply occurs_app_r, occurs_app_r, IH.
Qed.

(** X23. A composed prompt (no override) holds, as contiguous text, every
    commit summary, every hashtag, both commit ids, and each of tone,
    call to action and extra instructions that was given. *)
Theorem X23_prompt_holds_its_inputs (c : PromptContext) :
  customPrompt c = [] ->
  (forall s, In s (commitSummaries c) -> occurs s (buildPrompt c))
  /\ (forall h, In h (hashtags c) -> occurs h (buildPrompt c))
  /\ occurs (fromSha c) (buildPrompt c)
  /\ occurs (toSha c) (buildPrompt c)
  /\ (tone c <> [] -> occurs (tone c) (buildPrompt c))
  /\ (callToAction c <> [] -> occurs (callToAction c) (buildPrompt c))
  /\ (extraInstructions c <> [] -> occurs (extraInstructions c) (buildPrompt c)).
Proof.
  intros Hnone. rewrite (buildPrompt_composed c Hnone).
  assert (Hfrag : forall f x, In f (prompt_fragments c) -> occurs x f ->
            occurs x (join blank_line (prompt_fragments c))).
  { intros f x Hf Hx. eapply occurs_trans; [exact Hx | now apply occurs_join]. }
  unfold prompt_fragments in *.
  split; [| split; [| split; [| split; [| split; [| split]]]]].
  - intros s Hs. apply (Hfrag (join commit_separator (commitSummaries c))).
    + rewrite !in_app_iff. cbn [In]. intuition auto.
    + now apply occurs_join.
  - intros h Hh.
    apply (Hfrag (js "Incorporate these hashtags: " ++ join (js " ") (hashtags c))).
    + destruct (hashtags c) as [| h0 hs]; [destruct Hh |].
      cbn [length Nat.eqb negb optional]. rewrite !in_app_iff. cbn [In]. intuition auto.
    + now apply occurs_app_r, occurs_join.
  - apply (Hfrag (count_and_range c)).
    + rewrite !in_app_iff. cbn [In]. intuition auto.
    + unfold count_and_range. do 3 apply occurs_app_r. apply occurs_app_l, occurs_refl.
  - apply (Hfrag (count_and_range c)).
    + rewrite !in_app_iff. cbn [In]. intuition auto.
    + unfold count_and_range. do 5 apply occurs_app_r. apply occurs_app_l, occurs_refl.
  - intros Ht. apply (Hfrag (tone_directive (tone c))).
    + rewrite (proj2 (truthy_true_iff _) Ht). cbn [optional].
      rewrite !in_app_iff. cbn [In]. intuition auto.
    + unfold tone_directive. apply occurs_app_r, occurs_app_l, occurs_refl.
  - intros Ht. apply (Hfrag (js "Finish with: " ++ callToAction c)).
    + rewrite (proj2 (truthy_true_iff _) Ht). cbn [optional].
      rewrite !in_app_iff. cbn [In]. intuition auto.
    + apply occurs_app_r, occurs_refl.
  - intros Ht. apply (Hfrag (js "Additional instructions: " ++ extraInstructions c)).
    + rewrite (proj2 (truthy_true_iff _) Ht). cbn [optional].
      rewrite !in_app_iff. cbn [In]. intuition auto.
    + apply occurs_app_r, occurs_refl.
Qed.

(** The prompt of two summaries and one hashtag. *)
Lemma X23_prompt_holds_its_inputs_witness :
  occurs (js "Commit: c2") (buildPrompt (Demo.context [] (js "bold")))
  /\ occurs (js "bold") (buildPrompt (Demo.context [] (js "bold"))).
Proof.
  pose proof (@X23_prompt_holds_its_inputs (Demo.context [] (js "bold")) eq_refl)
    as (Hs & _ & _ & _ & Ht & _).
  split; [apply Hs; right; now left | apply Ht; discriminate].
Defined.

(** ** What the requests carry *)

Lemma requireEnv_value (value : option jsstring) (msg token : jsstring) :
  requireEnv value msg = Ok token -> value = Some token /\ token <> [].
Proof.
  destruct value as [t |]; simpl; [| discriminate].
  destruct t as [| c t]; simpl; [discriminate |].
  intros H. injection H as <-. split; [reflexivity | discriminate].
Qed.

Lemma or_else_default (a b : jsstring) : b <> [] -> or_else a b <> [].
Proof. intros Hb. unfold or_else. now destruct a. Qed.

(** What the checks of [run] guarantee about its locals. *)
Lemma run_collect_checked (w : World) (i : Inputs) (pre : list event) (v : Locals) :
  run_collect w i = (pre, Ok v) ->
  env_GITHUB_TOKEN i = Some (v_githubToken v) /\ v_githubToken v <> []
  /\ env_X_BEARER_TOKEN i = Some (v_xBearerToken v) /\ v_xBearerToken v <> []
  /\ (0 <= v_maxDiffChars v)%Z
  /\ (exists n, readInt10 (or_else (input_max_output_tokens i) (js "400")) = Some n
        /\ (0 < n)%Z
        /\ v_maxOutputTokens v = number_of_int n
        /\ num_lt (Fin 0) (v_maxOutputTokens v) = true)
  /\ (exists q, v_temperature v = Fin q /\ (0 <= q)%Q /\ (q <= 2)%Q)
  /\ v_model v <> [].
Proof.
  intros H. apply (f_equal snd) in H. cbn [snd] in H.
  unfold run_collect in H.
  do 2 step_result @snd_bind H.
  rewrite snd_bind in H; cbn [lift snd] in H.
  destruct (requireEnv (env_GITHUB_TOKEN i) _) as [gh |] eqn:Egh; [| discriminate H].
  rewrite snd_bind in H; cbn [lift snd] in H.
  destruct (requireEnv (env_X_BEARER_TOKEN i) _) as [xb |] eqn:Exb; [| discriminate H].
  rewrite snd_bind in H; cbn [lift snd] in H.
  destruct (checkMaxDiffChars _) as [md |] eqn:Emd; [| discriminate H].
  rewrite snd_bind in H; cbn [lift snd] in H.
  destruct (checkMaxOutputTokens _) as [mt |] eqn:Emt; [| discriminate H].
  rewrite snd_bind in H; cbn [lift snd] in H.
  destruct (checkTemperature _) as [t |] eqn:Et; [| discriminate H].
  repeat step_result @snd_bind H.
  injection H as <-.
  cbn [v_githubToken v_xBearerToken v_maxDiffChars v_maxOutputTokens v_temperature v_model].
  destruct (requireEnv_value _ _ Egh) as [Hgh1 Hgh2].
  destruct (requireEnv_value _ _ Exb) as [Hxb1 Hxb2].
  split; [exact Hgh1 |]. split; [exact Hgh2 |].
  split; [exact Hxb1 |]. split; [exact Hxb2 |].
  split; [| split; [| split]].
  - unfold checkMaxDiffChars in Emd. destruct (readInt10 _) as [n |]; [| discriminate].
    destruct (Z.ltb_spec n 0); [discriminate |]. injection Emd as <-. assumption.
  - unfold checkMaxOutputTokens, parseInt10 in Emt. cbv zeta in Emt.
    destruct (readInt10 (or_else (input_max_output_tokens i) (js "400"))) as [n |];
      [| discriminate].
    exists n. split; [reflexivity |].
    destruct (Z.lt_trichotomy n 0) as [Hneg | [-> | Hpos]].
    + rewrite (@number_of_int_negative n Hneg), orb_true_r in Emt. discriminate.
    + discriminate.
    + destruct (@number_of_int_positive n Hpos) as [Hnan Hle].
      rewrite Hnan, Hle in Emt. injection Emt as <-.
      split; [exact Hpos |]. split; [reflexivity |].
      destruct (number_of_int n); try discriminate; try reflexivity.
      cbn [num_le] in Hle. now apply negb_false_iff in Hle.
  - assert (Hin : temperature_in_range
                    (or_else (input_temperature i) (js "0.2"))).
    { apply checkTemperature_ok_iff. now exists t. }
    destruct Hin as (q & Hq & H0 & H2). exists q. split; [| now split].
    unfold checkTemperature in Et. rewrite Hq in Et.
    destruct (num_isNaN (Fin q) || num_lt (Fin q) (Fin 0) || num_lt (Fin 2) (Fin q));
      [discriminate |]. now injection Et as <-.
  - apply or_else_default. discriminate.
Qed.

(** X26. The completion request of a run always carries checked
    parameters: a non-empty model name, a temperature between 0 and 2,
    a non-empty system prompt, the [GITHUB_TOKEN] of the environment,
    which is not empty, as bearer, and as token limit the number that
    the engine makes of the positive integer read from the input.  That
    number is above zero; it is the nearest double of the integer, so
    [Infinity] for a run of digits beyond the largest double. *)
Theorem X26_completion_request_parameters (w : World) (i : Inputs) (r : request)
  (model system user : jsstring) (max_tokens temperature : jsnumber) :
  In r (fetches (run w i)) ->
  payload r = ChatBody model max_tokens temperature system user ->
  url r = MODELS_ENDPOINT
  /\ model <> []
  /\ (exists n, readInt10 (or_else (input_max_output_tokens i) (js "400")) = Some n
        /\ (0 < n)%Z
        /\ max_tokens = number_of_int n
        /\ num_lt (Fin 0) max_tokens = true)
  /\ (exists q, temperature = Fin q /\ (0 <= q)%Q /\ (q <= 2)%Q)
  /\ system <> []
  /\ exists token,
       env_GITHUB_TOKEN i = Some token /\ token <> []
       /\ authorization r = js "Bearer " ++ token.
Proof.
  intros Hr Hpayload.
  destruct (run_collect w i) as [pre [v | message]] eqn:Hcollect.
  2:{ rewrite (run_fetches_failed w i Hcollect) in Hr. destruct Hr. }
  destruct (run_collect_checked w i Hcollect)
    as (Hgh & Hghne & _ & _ & _ & Htokens & Htemp & Hmodel).
  destruct (run_fetches w i Hcollect r Hr)
    as [(summaries & ->) | (endpoint & post & _ & ->)]; [| discriminate Hpayload].
  cbn [chatRequest payload url authorization] in *.
  injection Hpayload as <- <- <- <- <-.
  split; [reflexivity |]. split; [exact Hmodel |]. split; [exact Htokens |].
  split; [exact Htemp |].
  split; [apply or_else_default; discriminate |].
  exists (v_githubToken v). now repeat split.
Qed.

(** The first request of the fake run: the default limit of 400. *)
Lemma X26_completion_request_parameters_witness :
  url (nth 0 (fetches (run (Demo.world Demo.twoCommits (js "Hi"))
                         (Demo.inputs false [] [])))
           Cases.noRequest) = MODELS_ENDPOINT
  /\ js "openai/gpt-4o-mini" <> []
  /\ exists n, readInt10 (js "400") = Some n /\ (0 < n)%Z /\ Fin 400 = number_of_int n
               /\ num_lt (Fin 0) (Fin 400) = true.
Proof.
  pose proof (@X26_completion_request_parameters
                (Demo.world Demo.twoCommits (js "Hi")) (Demo.inputs false [] [])
                (nth 0 (fetches (run (Demo.world Demo.twoCommits (js "Hi"))
                                   (Demo.inputs false [] [])))
                     Cases.noRequest)
                (js "openai/gpt-4o-mini") DEFAULT_SYSTEM_PROMPT _ (Fin 400) _
                ltac:(vm_compute; left; reflexivity) ltac:(vm_compute; reflexivity))
    as (Hurl & Hmodel & Htokens & _).
  exact (conj Hurl (conj Hmodel Htokens)).
Defined.


